(** * Shooty McShooter: terrain, weapons and combat core

    A shallow embedding of the simulation code of the voxel shooter
    (utils.js, world.js, player.js, weapon.js, enemy.js, server.js) and the
    properties proved about it.

    JavaScript numbers are IEEE-754 binary64 values; they are modelled by the
    primitive floats of the kernel ([PrimFloat.float]), so that the noise
    field and the physics are evaluated with the very roundings the program
    performs.  Quantities the program only ever holds as integers (ammunition,
    the health of a server player, millisecond clocks, bounce counters, block
    coordinates, permutation entries) are modelled by [Z]. *)

From Stdlib Require Import ZArith List Bool Lia Floats Uint63 String DecimalString Permutation.
From Stdlib Require Ascii DecimalZ DecimalPos.
Import ListNotations.

#[local] Set Warnings "-inexact-float".
#[local] Open Scope bool_scope.
#[local] Open Scope Z_scope.

(* ================================================================== *)
(** * Part I: the program *)
(* ================================================================== *)

(** ** JavaScript numbers *)
Module Js.

(** An integer as a number (exact for every integer below 2^53 in size). *)
Definition Z2F (n : Z) : float :=
  match n with
  | Z0 => 0%float
  | Zpos _ => PrimFloat.of_uint63 (Uint63.of_Z n)
  | Zneg p => PrimFloat.opp (PrimFloat.of_uint63 (Uint63.of_Z (Zpos p)))
  end.

(** The integer part [floor x] of a number, as an integer.  A number that is
    not finite (NaN, an infinity) has none; it is sent to 0, which is what
    [Math.floor(x) & 255] makes of it (ToInt32 of NaN and of the infinities
    is 0). *)
Definition floorZ (x : float) : Z :=
  match Prim2SF x with
  | S754_finite s m e => Z.shiftl (if s then Zneg m else Zpos m) e
  | _ => 0
  end.

(** What a call returns when the claims speak of it: [undefined] (a bare
    [return;], or the end of the body) or a boolean. *)
Inductive Returned : Type := undefined | boolean (b : bool).

(** [Math.ceil], as an integer. *)
Definition ceilZ (x : float) : Z := - floorZ (PrimFloat.opp x).

(** [Math.floor] as a number.  Numbers of size 2^52 and more are integers
    already, and so are the zeros, NaN and the infinities. *)
Definition Math_floor (x : float) : float :=
  if PrimFloat.ltb (PrimFloat.abs x) 4503599627370496%float
     && negb (PrimFloat.eqb x 0%float)
  then Z2F (floorZ x) else x.

(** The coordinates on which [floorZ] and [Z2F] stand for what the program
    computes: the finite numbers of size at most 2^53.  On them [floorZ] is
    [Math.floor] and [Z2F] is exact.  NaN and the infinities, which
    [Math.floor] hands on and [floorZ] sends to 0, and the numbers of size
    2^63 and more, where [Z2F] wraps around, are left out; the facts that
    depend on the column of a position or on the height of the terrain under
    it are stated for positions in this range. *)
Definition in_range (x : float) : bool :=
  PrimFloat.leb (PrimFloat.abs x) 9007199254740992%float.

End Js.

(** ** utils.js: the Perlin noise generator *)
Module PerlinNoise.
Import Js.

(** A JavaScript array of numbers: what reading an index gives ([None] is
    [undefined]) and its [length].  Writing at an index at or past the length
    extends the array; writing at a negative index sets a property and leaves
    the length alone. *)
Record JsArray : Type := mkArr { arr_get : Z -> option Z; arr_len : Z }.

Definition arr_set (a : JsArray) (k : Z) (v : option Z) : JsArray :=
  {| arr_get := fun k' => if k' =? k then v else arr_get a k';
     arr_len := if (0 <=? k) && (arr_len a <=? k) then k + 1 else arr_len a |}.

(** [const p = []; for (let i = 0; i < 256; i++) p[i] = i;] *)
Definition identity_table : JsArray :=
  {| arr_get := fun k => if (0 <=? k) && (k <? 256) then Some k else None;
     arr_len := 256 |}.

(** The elements of an array, as [concat] copies them. *)
Definition arr_elems (a : JsArray) : list (option Z) :=
  map (fun k => arr_get a (Z.of_nat k)) (seq 0 (Z.to_nat (arr_len a))).

(** [rng = (rng * 9301 + 49297) % 233280].  The remainder of JavaScript has
    the sign of the dividend ([Z.rem]).  The product is exact as long as it
    stays below 2^53. *)
Definition lcg (rng : Z) : Z := Z.rem (rng * 9301 + 49297) 233280.

(** [j = Math.floor((rng / 233280) * (i + 1))], in double arithmetic. *)
Definition shuffle_index (rng i : Z) : Z :=
  floorZ (PrimFloat.mul (PrimFloat.div (Z2F rng) 233280%float) (Z2F (i + 1))).

(** [[p[i], p[j]] = [p[j], p[i]]]: both reads come first. *)
Definition swap (p : JsArray) (i j : Z) : JsArray :=
  let pj := arr_get p j in
  let pi := arr_get p i in
  arr_set (arr_set p i pj) j pi.

(** One turn of [for (let i = 255; i > 0; i--)]. *)
Definition shuffle_step (st : Z * JsArray) (i : Z) : Z * JsArray :=
  let rng := lcg (fst st) in
  let j := shuffle_index rng i in
  (rng, swap (snd st) i j).

(** The loop, for [i] from [Z.of_nat n] down to 1. *)
Fixpoint shuffle (n : nat) (st : Z * JsArray) : Z * JsArray :=
  match n with
  | O => st
  | S k => shuffle k (shuffle_step st (Z.of_nat n))
  end.

Definition shuffled (seed : Z) : JsArray := snd (shuffle 255 (seed, identity_table)).

(** [generatePermutation()]: the shuffled table, then [p.concat(p)]. *)
Definition generatePermutation (seed : Z) : list (option Z) :=
  let p := shuffled seed in
  arr_elems p ++ arr_elems p.

(** The generator object: its seed and its table.  The noise functions read
    the table as numbers; [table_of] gives it when no entry is [undefined]. *)
Fixpoint table_of (l : list (option Z)) : option (list Z) :=
  match l with
  | [] => Some []
  | Some v :: r => option_map (cons v) (table_of r)
  | None :: _ => None
  end.

(** [fade(t)] *)
Definition fade (t : float) : float :=
  (t * t * t * (t * (t * 6 - 15) + 10))%float.

(** [lerp(t, a, b)] *)
Definition lerp (t a b : float) : float := (a + t * (b - a))%float.

(** [grad(hash, x, y, z)] *)
Definition grad (hash : Z) (x y z : float) : float :=
  let h := Z.land hash 15 in
  let u := if h <? 8 then x else y in
  let v := if h <? 4 then y else if (h =? 12) || (h =? 14) then x else z in
  let su := if Z.land h 1 =? 0 then u else PrimFloat.opp u in
  let sv := if Z.land h 2 =? 0 then v else PrimFloat.opp v in
  (su + sv)%float.

Section Noise.
(** The permutation table of the generator (512 entries). *)
Variable permutation : list Z.

Definition perm (k : Z) : Z := nth (Z.to_nat k) permutation 0.

(** [noise(x, y, z = 0)] *)
Definition noise (x y z : float) : float :=
  let X := Z.land (floorZ x) 255 in
  let Y := Z.land (floorZ y) 255 in
  let Z' := Z.land (floorZ z) 255 in
  let x := (x - Math_floor x)%float in
  let y := (y - Math_floor y)%float in
  let z := (z - Math_floor z)%float in
  let u := fade x in
  let v := fade y in
  let w := fade z in
  let A := perm X + Y in
  let AA := perm A + Z' in
  let AB := perm (A + 1) + Z' in
  let B := perm (X + 1) + Y in
  let BA := perm B + Z' in
  let BB := perm (B + 1) + Z' in
  lerp w
    (lerp v
       (lerp u (grad (perm AA) x y z)
               (grad (perm BA) (x - 1)%float y z))
       (lerp u (grad (perm AB) x (y - 1)%float z)
               (grad (perm BB) (x - 1)%float (y - 1)%float z)))
    (lerp v
       (lerp u (grad (perm (AA + 1)) x y (z - 1)%float)
               (grad (perm (BA + 1)) (x - 1)%float y (z - 1)%float))
       (lerp u (grad (perm (AB + 1)) x (y - 1)%float (z - 1)%float)
               (grad (perm (BB + 1)) (x - 1)%float (y - 1)%float (z - 1)%float))).

(** The body of the loop of [octaveNoise], [octaves] times, on the four
    running variables. *)
Fixpoint octave_loop (octaves : nat) (x y value amplitude frequency maxValue persistence : float)
  : float * float :=
  match octaves with
  | O => (value, maxValue)
  | S k =>
      let value := (value + noise (x * frequency) (y * frequency) 0 * amplitude)%float in
      let maxValue := (maxValue + amplitude)%float in
      let amplitude := (amplitude * persistence)%float in
      let frequency := (frequency * 2)%float in
      octave_loop k x y value amplitude frequency maxValue persistence
  end.

(** [octaveNoise(x, y, octaves, persistence, scale)] *)
Definition octaveNoise (x y : float) (octaves : nat) (persistence scale : float) : float :=
  let '(value, maxValue) := octave_loop octaves x y 0 1 scale 0 persistence in
  (value / maxValue)%float.

End Noise.

End PerlinNoise.

(** ** config.js and the CONFIG object of server.js *)
Module Config.

Definition CHUNK_SIZE : Z := 32.
Definition WORLD_HEIGHT : Z := 64.
Definition BLOCK_SIZE : float := 1%float.
Definition PLAYER_SPEED : float := 8%float.
Definition PLAYER_HEIGHT : float := 1.8%float.
Definition JUMP_VELOCITY : float := 12%float.
Definition GRAVITY : float := (-25)%float.
Definition BULLET_DAMAGE : Z := 25.
Definition MAX_HEALTH : Z := 100.
Definition AMMO_CAPACITY : Z := 30.
Definition TOTAL_AMMO : Z := 120.
(** The client's bullet speed (config.js). *)
Definition BULLET_SPEED : float := 100%float.
(** The server's own entries (server.js). *)
Definition SERVER_BULLET_SPEED : float := 50%float.
Definition BULLET_GRAVITY : float := (-15)%float.
Definition BULLET_BOUNCE_DAMPENING : float := 0.4%float.
Definition BULLET_MAX_BOUNCES : Z := 3.
Definition TICK_RATE : Z := 60.

End Config.

(** ** world.js: block classification *)
Module World.
Import Js.

(** [BLOCK_TYPES] ([GLASS] is the server's ninth entry). *)
Inductive BlockType : Type :=
  AIR | GRASS | DIRT | STONE | WATER | SAND | SNOW | TREE | GLASS.

Definition block_id (b : BlockType) : Z :=
  match b with
  | AIR => 0 | GRASS => 1 | DIRT => 2 | STONE => 3 | WATER => 4
  | SAND => 5 | SNOW => 6 | TREE => 7 | GLASS => 8
  end.

(** [a === b] on block types. *)
Definition block_eqb (a b : BlockType) : bool := block_id a =? block_id b.

(** [Math.random()]: the numbers it will return, and how many were taken. *)
Record Rand : Type := mkRand { draws : nat -> float; used : nat }.

Definition Math_random (r : Rand) : float * Rand :=
  (draws r (used r), {| draws := draws r; used := S (used r) |}).

(** [export const noise = new PerlinNoise(42)]: the table of seed 42. *)
Definition permutation42 : list Z :=
  Eval vm_compute in
    match PerlinNoise.table_of (PerlinNoise.generatePermutation 42) with
    | Some l => l
    | None => []
    end.

Section Terrain.
(** The permutation table of the module's [noise] object. *)
Variable permutation : list Z.

Definition heightNoise (x z : float) : float :=
  PerlinNoise.octaveNoise permutation x z 4 0.5 0.01.
Definition moistureNoise (x z : float) : float :=
  PerlinNoise.octaveNoise permutation x z 3 0.6 0.02.
Definition temperatureNoise (x z : float) : float :=
  PerlinNoise.octaveNoise permutation x z 2 0.4 0.015.

(** [Math.floor(20 + heightNoise * 20)] *)
Definition baseHeightAt (x z : float) : Z :=
  floorZ (20 + heightNoise x z * 20)%float.

(** [getBlockType(x, y, z)] at integer block coordinates.  The function calls
    itself once, on the block below, before it places a tree; [fuel] bounds
    the depth of the calls and [None] means it ran out. *)
Fixpoint getBlockTypeF (fuel : nat) (x y z : Z) (r : Rand) : option (BlockType * Rand) :=
  match fuel with
  | O => None
  | S fuel' =>
      let moisture := moistureNoise (Z2F x) (Z2F z) in
      let temperature := temperatureNoise (Z2F x) (Z2F z) in
      let baseHeight := baseHeightAt (Z2F x) (Z2F z) in
      let waterLevel := 15 in
      if y >? baseHeight + 10 then Some (AIR, r)
      else if (y <=? waterLevel) && (y >? baseHeight) then Some (WATER, r)
      else if y <=? 5 then Some (STONE, r)
      else if y <=? baseHeight then
        if PrimFloat.ltb 0.3 temperature && PrimFloat.ltb moisture (-0.2)
           && (y =? baseHeight) then Some (SAND, r)
        else if PrimFloat.ltb temperature (-0.3) && (y =? baseHeight) then Some (SNOW, r)
        else if y =? baseHeight then Some (GRASS, r)
        else if y >? baseHeight - 3 then Some (DIRT, r)
        else Some (STONE, r)
      else if y =? baseHeight + 1 then
        match getBlockTypeF fuel' x (y - 1) z r with
        | None => None
        | Some (below, r1) =>
            if block_eqb below GRASS then
              let '(d, r2) := Math_random r1 in
              if PrimFloat.ltb d 0.01 && PrimFloat.ltb (-0.2) temperature
              then Some (TREE, r2) else Some (AIR, r2)
            else Some (AIR, r1)
        end
      else Some (AIR, r)
  end.

(** Two levels of calls are all the function ever makes
    (see [World_facts.getBlockTypeF_fuel]). *)
Definition getBlockType (x y z : Z) (r : Rand) : BlockType * Rand :=
  match getBlockTypeF 2 x y z r with
  | Some res => res
  | None => (AIR, r)
  end.

End Terrain.

End World.

(** ** player.js: terrain height by scanning, jumping *)
Module Player.
Import Js World.

Section Terrain.
Variable permutation : list Z.

(** The loop of [getTerrainHeight], for [y] from [n - 1] down to 0, at the
    block column [(x, z)]. *)
Fixpoint scan (n : nat) (x z : Z) (r : Rand) : Z * Rand :=
  match n with
  | O => (0, r)
  | S k =>
      let y := Z.of_nat k in
      let '(b, r') := getBlockType permutation x y z r in
      if negb (block_eqb b AIR) then (y + 1, r') else scan k x z r'
  end.

(** [getTerrainHeight(x, z)], for a position in the range of
    [Js.in_range]: there the column [(floorZ x, floorZ z)] is the column
    [(Math.floor(x), Math.floor(z))] the program scans. *)
Definition getTerrainHeight (x z : float) (r : Rand) : Z * Rand :=
  scan (Z.to_nat Config.WORLD_HEIGHT) (floorZ x) (floorZ z) r.

End Terrain.

End Player.

(** ** Vectors ([{x, y, z}] objects, THREE.Vector3) *)
Module Vec.

Record Vec3 : Type := mkVec { vx : float; vy : float; vz : float }.

(** [addScaledVector(v, s)] *)
Definition addScaledVector (a v : Vec3) (s : float) : Vec3 :=
  {| vx := vx a + vx v * s; vy := vy a + vy v * s; vz := vz a + vz v * s |}%float.

(** [subVectors(a, b)] *)
Definition subVectors (a b : Vec3) : Vec3 :=
  {| vx := vx a - vx b; vy := vy a - vy b; vz := vz a - vz b |}%float.

(** [multiplyScalar(s)] *)
Definition multiplyScalar (a : Vec3) (s : float) : Vec3 :=
  {| vx := vx a * s; vy := vy a * s; vz := vz a * s |}%float.

(** [length()] *)
Definition length (a : Vec3) : float :=
  PrimFloat.sqrt (vx a * vx a + vy a * vy a + vz a * vz a)%float.

(** [normalize()]: [divideScalar(length() || 1)], a multiplication by the
    inverse.  A length that is 0 or NaN counts as 1. *)
Definition normalize (a : Vec3) : Vec3 :=
  let l := length a in
  let l := if PrimFloat.eqb l 0 || negb (PrimFloat.eqb l l) then 1%float else l in
  multiplyScalar a (1 / l)%float.

(** [distanceTo(v)] *)
Definition distanceTo (a v : Vec3) : float :=
  let dx := (vx a - vx v)%float in
  let dy := (vy a - vy v)%float in
  let dz := (vz a - vz v)%float in
  PrimFloat.sqrt (dx * dx + dy * dy + dz * dz)%float.

(** [lerp(v, alpha)] *)
Definition lerp (a v : Vec3) (alpha : float) : Vec3 :=
  {| vx := vx a + (vx v - vx a) * alpha;
     vy := vy a + (vy v - vy a) * alpha;
     vz := vz a + (vz v - vz a) * alpha |}%float.

End Vec.

(** ** server.js: the authoritative simulation *)
Module Server.
Import Js Vec.

(** [const noise = new PerlinNoise(42)] *)
Definition noise : list Z := World.permutation42.

(** [getTerrainHeight(x, z)]: the closed form, for a position in the range
    of [Js.in_range].  (At a coordinate that is NaN or an infinity the noise
    and so the height of the program are NaN, which no comparison meets;
    [floorZ] has 0 there.) *)
Definition getTerrainHeight (x z : float) : Z :=
  let heightNoise := PerlinNoise.octaveNoise noise x z 4 0.5 0.01 in
  let baseHeight := floorZ (20 + heightNoise * 20)%float in
  baseHeight + 1.

Record ServerPlayer : Type := mkPlayer {
  id : string;
  socketId : string;
  position : Vec3;
  rotation : Vec3;
  velocity : Vec3;
  health : Z;
  ammo : Z;
  totalAmmo : Z;
  lastShot : Z;
  isAlive : bool;
  inputSequence : Z;
  lastInputTime : Z;
  isGrounded : bool
}.

(** [new ServerPlayer(id, socketId)], at the time [now] of [Date.now()]. *)
Definition newPlayer (pid sid : string) (now : Z) : ServerPlayer :=
  {| id := pid; socketId := sid;
     position := {| vx := 0;
                    vy := Z2F (getTerrainHeight 0 0) + Config.PLAYER_HEIGHT;
                    vz := 0 |}%float;
     rotation := {| vx := 0; vy := 0; vz := 0 |}%float;
     velocity := {| vx := 0; vy := 0; vz := 0 |}%float;
     health := Config.MAX_HEALTH;
     ammo := Config.AMMO_CAPACITY;
     totalAmmo := Config.TOTAL_AMMO;
     lastShot := 0;
     isAlive := true;
     inputSequence := 0;
     lastInputTime := now;
     isGrounded := false |}.

Definition set_health (p : ServerPlayer) (h : Z) (alive : bool) : ServerPlayer :=
  {| id := id p; socketId := socketId p; position := position p;
     rotation := rotation p; velocity := velocity p; health := h;
     ammo := ammo p; totalAmmo := totalAmmo p; lastShot := lastShot p;
     isAlive := alive; inputSequence := inputSequence p;
     lastInputTime := lastInputTime p; isGrounded := isGrounded p |}.

Definition set_motion (p : ServerPlayer) (pos vel : Vec3) (grounded : bool) : ServerPlayer :=
  {| id := id p; socketId := socketId p; position := pos;
     rotation := rotation p; velocity := vel; health := health p;
     ammo := ammo p; totalAmmo := totalAmmo p; lastShot := lastShot p;
     isAlive := isAlive p; inputSequence := inputSequence p;
     lastInputTime := lastInputTime p; isGrounded := grounded |}.

Definition set_ammo (p : ServerPlayer) (a t last : Z) : ServerPlayer :=
  {| id := id p; socketId := socketId p; position := position p;
     rotation := rotation p; velocity := velocity p; health := health p;
     ammo := a; totalAmmo := t; lastShot := last;
     isAlive := isAlive p; inputSequence := inputSequence p;
     lastInputTime := lastInputTime p; isGrounded := isGrounded p |}.

(** [ServerPlayer.update(delta)] *)
Definition player_update (delta : float) (p : ServerPlayer) : ServerPlayer :=
  let vel := velocity p in
  let pos := position p in
  let vy1 := (vy vel + Config.GRAVITY * delta)%float in
  let px := (vx pos + vx vel * delta)%float in
  let py := (vy pos + vy1 * delta)%float in
  let pz := (vz pos + vz vel * delta)%float in
  let terrainHeight := Z2F (getTerrainHeight px pz) in
  let ground := (terrainHeight + Config.PLAYER_HEIGHT)%float in
  if PrimFloat.leb py ground then
    set_motion p {| vx := px; vy := ground; vz := pz |}
      {| vx := vx vel * 0.85; vy := 0; vz := vz vel * 0.85 |}%float true
  else
    set_motion p {| vx := px; vy := py; vz := pz |}
      {| vx := vx vel; vy := vy1; vz := vz vel |} false.

(** [ServerPlayer.takeDamage(damage, sourceId)]: the player after it and the
    value returned. *)
Definition takeDamage (damage : Z) (p : ServerPlayer) : ServerPlayer * bool :=
  let h := health p - damage in
  let p' := if h <=? 0 then set_health p 0 false else set_health p h (isAlive p) in
  (p', negb (isAlive p')).

Record ServerBullet : Type := mkBullet {
  b_id : string;
  b_position : Vec3;
  b_velocity : Vec3;
  b_damage : Z;
  b_ownerId : string;
  b_life : float;
  b_bounceCount : Z;
  b_isActive : bool
}.

(** [new ServerBullet(id, position, velocity, damage, ownerId)] *)
Definition newBullet (bid : string) (pos vel : Vec3) (damage : Z) (owner : string) : ServerBullet :=
  {| b_id := bid; b_position := pos; b_velocity := vel; b_damage := damage;
     b_ownerId := owner; b_life := 5%float; b_bounceCount := 0; b_isActive := true |}.

(** A [Map] keyed by strings: the entries in insertion order. *)
Definition JsMap (A : Type) : Type := list (string * A).

Fixpoint map_get {A} (m : JsMap A) (k : string) : option A :=
  match m with
  | [] => None
  | (k', v) :: r => if String.eqb k' k then Some v else map_get r k
  end.

(** [set]: an entry that exists keeps its place, a new one goes last. *)
Fixpoint map_set {A} (m : JsMap A) (k : string) (v : A) : JsMap A :=
  match m with
  | [] => [(k, v)]
  | (k', v') :: r => if String.eqb k' k then (k', v) :: r else (k', v') :: map_set r k v
  end.

Fixpoint map_delete {A} (m : JsMap A) (k : string) : JsMap A :=
  match m with
  | [] => []
  | (k', v') :: r => if String.eqb k' k then r else (k', v') :: map_delete r k
  end.

(** What the server sends to its clients ([io.emit], [socket.emit],
    [socket.broadcast.emit]).  A snapshot message carries the players and
    bullets its fields are read from. *)
Inductive Event : Type :=
| PlayerHit (targetId shooterId : string) (damage : Z) (pos : Vec3) (killed : bool)
| PlayerShot (playerId bulletId : string) (pos vel : Vec3) (timestamp : Z)
| PlayerReloaded (ammo totalAmmo : Z)
| PlayerJoined (pid : string) (pos rot : Vec3) (health : Z)
| PlayerLeft (pid : string)
| GameStateMsg (pid : string) (players : JsMap ServerPlayer) (worldSeed : Z)
| GameUpdate (players : JsMap ServerPlayer) (bullets : JsMap ServerBullet) (timestamp : Z).

(** The squared terms of the server are [Math.pow(d, 2)], the product of [d]
    with itself. *)
Definition distance (a b : Vec3) : float :=
  let dx := (vx a - vx b)%float in
  let dy := (vy a - vy b)%float in
  let dz := (vz a - vz b)%float in
  PrimFloat.sqrt (dx * dx + dy * dy + dz * dz)%float.

(** The loop over [gameState.players] of [ServerBullet.update]: the players
    after it and, when a player was hit, the event sent. *)
Fixpoint check_players (owner : string) (damage : Z) (pos : Vec3)
    (players : JsMap ServerPlayer) : JsMap ServerPlayer * option Event :=
  match players with
  | [] => ([], None)
  | (playerId, player) :: rest =>
      if String.eqb playerId owner || negb (isAlive player) then
        let '(rest', ev) := check_players owner damage pos rest in
        ((playerId, player) :: rest', ev)
      else if PrimFloat.ltb (distance pos (position player)) 1 then
        let '(player', killed) := takeDamage damage player in
        ((playerId, player') :: rest,
         Some (PlayerHit playerId owner damage pos killed))
      else
        let '(rest', ev) := check_players owner damage pos rest in
        ((playerId, player) :: rest', ev)
  end.

Definition set_bullet (b : ServerBullet) (pos vel : Vec3) (life : float)
    (bounces : Z) (active : bool) : ServerBullet :=
  {| b_id := b_id b; b_position := pos; b_velocity := vel; b_damage := b_damage b;
     b_ownerId := b_ownerId b; b_life := life; b_bounceCount := bounces;
     b_isActive := active |}.

(** The result of [ServerBullet.update(delta)]: the value returned, the
    bullet and the players after the call, and what was sent. *)
Record UpdateResult : Type := mkResult {
  returned : bool;
  bullet_after : ServerBullet;
  players_after : JsMap ServerPlayer;
  emitted : list Event
}.

(** [ServerBullet.update(delta)] *)
Definition bullet_update (delta : float) (b : ServerBullet)
    (players : JsMap ServerPlayer) : UpdateResult :=
  if negb (b_isActive b) then mkResult false b players []
  else
    let vel := b_velocity b in
    let pos := b_position b in
    let vy1 := (vy vel + Config.BULLET_GRAVITY * delta)%float in
    let px := (vx pos + vx vel * delta)%float in
    let py := (vy pos + vy1 * delta)%float in
    let pz := (vz pos + vz vel * delta)%float in
    let terrainHeight := Z2F (getTerrainHeight px pz) in
    let hit_ground := PrimFloat.ltb py terrainHeight in
    let can_bounce := b_bounceCount b <? Config.BULLET_MAX_BOUNCES in
    if hit_ground && negb can_bounce then
      mkResult false
        (set_bullet b {| vx := px; vy := py; vz := pz |}
           {| vx := vx vel; vy := vy1; vz := vz vel |} (b_life b) (b_bounceCount b) false)
        players []
    else
      let py2 := if hit_ground then terrainHeight else py in
      let vy2 := if hit_ground
                 then (PrimFloat.opp vy1 * Config.BULLET_BOUNCE_DAMPENING)%float else vy1 in
      let bounces := if hit_ground then b_bounceCount b + 1 else b_bounceCount b in
      let pos2 := {| vx := px; vy := py2; vz := pz |} in
      let vel2 := {| vx := vx vel; vy := vy2; vz := vz vel |} in
      if PrimFloat.ltb (Z2F Config.WORLD_HEIGHT + 50)%float py2 then
        mkResult false (set_bullet b pos2 vel2 (b_life b) bounces false) players []
      else
        let life := (b_life b - delta)%float in
        if PrimFloat.leb life 0 then
          mkResult false (set_bullet b pos2 vel2 life bounces false) players []
        else
          match check_players (b_ownerId b) (b_damage b) pos2 players with
          | (players', Some ev) =>
              mkResult false (set_bullet b pos2 vel2 life bounces false) players' [ev]
          | (players', None) =>
              mkResult true (set_bullet b pos2 vel2 life bounces true) players' []
          end.

(** [gameState] ([enemies] is never used by the server). *)
Record GameState : Type := mkState {
  players : JsMap ServerPlayer;
  bullets : JsMap ServerBullet;
  worldSeed : Z;
  lastUpdate : Z;
  bulletIdCounter : Z
}.

Definition initialState (now : Z) : GameState :=
  {| players := []; bullets := []; worldSeed := 42; lastUpdate := now;
     bulletIdCounter := 0 |}.

Definition with_players (gs : GameState) (ps : JsMap ServerPlayer) : GameState :=
  {| players := ps; bullets := bullets gs; worldSeed := worldSeed gs;
     lastUpdate := lastUpdate gs; bulletIdCounter := bulletIdCounter gs |}.

(** A number in a template string. *)
Definition decimal (n : Z) : string := NilZero.string_of_int (Z.to_int n).

(** [`bullet_${socket.id}_${gameState.bulletIdCounter}`] *)
Definition bulletId (sid : string) (counter : Z) : string :=
  ("bullet_" ++ sid ++ "_" ++ decimal counter)%string.

(** [io.on('connection', ...)]: the new player is stored under the socket's
    id, the state is sent to the socket and the arrival to the others. *)
Definition on_connection (sid : string) (now : Z) (gs : GameState) : GameState * list Event :=
  let player := newPlayer sid sid now in
  let ps := map_set (players gs) sid player in
  (with_players gs ps,
   [GameStateMsg sid ps (worldSeed gs);
    PlayerJoined sid (position player) (rotation player) (health player)]).

(** [socket.on('player-shoot', data)], at the time [now] of [Date.now()]. *)
Definition on_player_shoot (sid : string) (pos vel : Vec3) (now : Z)
    (gs : GameState) : GameState * list Event :=
  match map_get (players gs) sid with
  | None => (gs, [])
  | Some player =>
      if negb (isAlive player) || (ammo player <=? 0) then (gs, [])
      else if now - lastShot player <? 150 then (gs, [])
      else
        let player' := set_ammo player (ammo player - 1) (totalAmmo player) now in
        let counter := bulletIdCounter gs + 1 in
        let bid := bulletId sid counter in
        let bullet := newBullet bid pos vel Config.BULLET_DAMAGE sid in
        ({| players := map_set (players gs) sid player';
            bullets := map_set (bullets gs) bid bullet;
            worldSeed := worldSeed gs;
            lastUpdate := lastUpdate gs;
            bulletIdCounter := counter |},
         [PlayerShot sid bid pos vel now])
  end.

(** [socket.on('player-reload', ...)] *)
Definition on_player_reload (sid : string) (gs : GameState) : GameState * list Event :=
  match map_get (players gs) sid with
  | None => (gs, [])
  | Some player =>
      if (Config.AMMO_CAPACITY <=? ammo player) || (totalAmmo player <=? 0) then (gs, [])
      else
        let needed := Config.AMMO_CAPACITY - ammo player in
        let available := Z.min needed (totalAmmo player) in
        let player' := set_ammo player (ammo player + available)
                         (totalAmmo player - available) (lastShot player) in
        (with_players gs (map_set (players gs) sid player'),
         [PlayerReloaded (ammo player') (totalAmmo player')])
  end.

(** [socket.on('disconnect', ...)] *)
Definition on_disconnect (sid : string) (gs : GameState) : GameState * list Event :=
  (with_players gs (map_delete (players gs) sid), [PlayerLeft sid]).

(** The [input] record of a [player-input] message. *)
Record Input : Type := mkInput {
  forward : bool; backward : bool; left : bool; right : bool; jump : bool
}.

Section PlayerInput.
(** [Math.sin] and [Math.cos]. *)
Variables Math_sin Math_cos : float -> float.

(** [socket.on('player-input', data)]: [rot] is [data.rotation] when the
    message has one, [sequence] is [data.sequence]. *)
Definition on_player_input (sid : string) (input : Input) (rot : option Vec3)
    (sequence now : Z) (gs : GameState) : GameState :=
  match map_get (players gs) sid with
  | None => gs
  | Some player =>
      if negb (isAlive player) then gs
      else if now - lastInputTime player <? 16 then gs
      else
        let rotation' := match rot with Some r => r | None => rotation player end in
        let yaw := vy rotation' in
        let moveX := 0%float in
        let moveZ := 0%float in
        let moveX := if forward input then (moveX - Math_sin yaw)%float else moveX in
        let moveZ := if forward input then (moveZ - Math_cos yaw)%float else moveZ in
        let moveX := if backward input then (moveX + Math_sin yaw)%float else moveX in
        let moveZ := if backward input then (moveZ + Math_cos yaw)%float else moveZ in
        let moveX := if left input then (moveX - Math_cos yaw)%float else moveX in
        let moveZ := if left input then (moveZ + Math_sin yaw)%float else moveZ in
        let moveX := if right input then (moveX + Math_cos yaw)%float else moveX in
        let moveZ := if right input then (moveZ - Math_sin yaw)%float else moveZ in
        let magnitude := PrimFloat.sqrt (moveX * moveX + moveZ * moveZ)%float in
        let scaled := PrimFloat.ltb 0 magnitude in
        let moveX := if scaled then (moveX / magnitude * Config.PLAYER_SPEED)%float else moveX in
        let moveZ := if scaled then (moveZ / magnitude * Config.PLAYER_SPEED)%float else moveZ in
        let jumps := jump input && isGrounded player in
        let player' :=
          {| id := id player; socketId := socketId player; position := position player;
             rotation := rotation';
             velocity := {| vx := moveX;
                            vy := if jumps then Config.JUMP_VELOCITY else vy (velocity player);
                            vz := moveZ |};
             health := health player; ammo := ammo player; totalAmmo := totalAmmo player;
             lastShot := lastShot player; isAlive := isAlive player;
             inputSequence := sequence;
             lastInputTime := now;
             isGrounded := if jumps then false else isGrounded player |} in
        with_players gs (map_set (players gs) sid player')
  end.

End PlayerInput.

(** [for (let [id, player] of gameState.players) player.update(delta)] *)
Definition update_players (delta : float) (ps : JsMap ServerPlayer) : JsMap ServerPlayer :=
  map (fun '(k, p) => (k, player_update delta p)) ps.

(** [for (let [id, bullet] of gameState.bullets)
       if (!bullet.update(delta)) gameState.bullets.delete(id)] *)
Fixpoint update_bullets (delta : float) (bs : JsMap ServerBullet)
    (ps : JsMap ServerPlayer) : JsMap ServerBullet * JsMap ServerPlayer * list Event :=
  match bs with
  | [] => ([], ps, [])
  | (k, b) :: rest =>
      let r := bullet_update delta b ps in
      let '(rest', ps', evs) := update_bullets delta rest (players_after r) in
      (if returned r then (k, bullet_after r) :: rest' else rest',
       ps', emitted r ++ evs)
  end.

(** [gameLoop()], at the time [now] of [Date.now()]. *)
Definition gameLoop (now : Z) (gs : GameState) : GameState * list Event :=
  let delta := (Z2F (now - lastUpdate gs) / 1000)%float in
  let ps := update_players delta (players gs) in
  let '(bs, ps', evs) := update_bullets delta (bullets gs) ps in
  ({| players := ps'; bullets := bs; worldSeed := worldSeed gs;
      lastUpdate := now; bulletIdCounter := bulletIdCounter gs |},
   evs ++ [GameUpdate ps' bs now]).

End Server.

(** ** enemy.js, weapon.js and the game state of main.js: the client *)
Module Client.
Import Js Vec World.

(** An enemy.  [eid] stands for the identity of the object; [e_mesh] is the
    position of its mesh, [None] once [destroy()] has set the mesh to null. *)
Record Enemy : Type := mkEnemy {
  eid : nat;
  e_health : float;
  e_maxHealth : float;
  e_speed : float;
  e_damage : float;
  e_lastAttack : Z;
  e_attackCooldown : Z;
  e_mesh : option Vec3;
  e_targetPosition : Vec3
}.

(** A bullet of the client.  [bid] stands for the identity of the object. *)
Record Bullet : Type := mkBullet {
  bid : nat;
  b_position : Vec3;
  b_velocity : Vec3;
  b_damage : float;
  b_life : float;
  b_active : bool;
  b_previousPosition : Vec3
}.

(** [gameState] of main.js. *)
Record GameState : Type := mkState {
  health : float;
  ammo : Z;
  totalAmmo : Z;
  score : Z;
  enemies : list Enemy;
  bullets : list Bullet
}.

Definition initialState : GameState :=
  {| health := Z2F Config.MAX_HEALTH; ammo := Config.AMMO_CAPACITY;
     totalAmmo := Config.TOTAL_AMMO; score := 0; enemies := []; bullets := [] |}.

Definition set_enemies (gs : GameState) (es : list Enemy) (sc : Z) : GameState :=
  {| health := health gs; ammo := ammo gs; totalAmmo := totalAmmo gs; score := sc;
     enemies := es; bullets := bullets gs |}.

Definition set_bullets (gs : GameState) (bs : list Bullet) : GameState :=
  {| health := health gs; ammo := ammo gs; totalAmmo := totalAmmo gs; score := score gs;
     enemies := enemies gs; bullets := bs |}.

Definition set_ammo (gs : GameState) (a t : Z) : GameState :=
  {| health := health gs; ammo := a; totalAmmo := t; score := score gs;
     enemies := enemies gs; bullets := bullets gs |}.

Definition set_health (gs : GameState) (h : float) : GameState :=
  {| health := h; ammo := ammo gs; totalAmmo := totalAmmo gs; score := score gs;
     enemies := enemies gs; bullets := bullets gs |}.

(** *** enemy.js *)

(** [Enemy.getTerrainHeight(x, z)] *)
Definition enemy_getTerrainHeight (x z : float) : Z :=
  let heightNoiseVal := PerlinNoise.octaveNoise permutation42 x z 4 0.5 0.01 in
  floorZ (20 + heightNoiseVal * 20)%float.

(** [new Enemy(x, z)]; [n] is the identity of the new object. *)
Definition newEnemy (n : nat) (x z : float) : Enemy :=
  let yPos := Z2F (enemy_getTerrainHeight x z + 1) in
  {| eid := n; e_health := 50; e_maxHealth := 50; e_speed := 2; e_damage := 20;
     e_lastAttack := 0; e_attackCooldown := 2000;
     e_mesh := Some {| vx := x; vy := yPos; vz := z |};
     e_targetPosition := {| vx := x; vy := yPos; vz := z |} |}.

(** [array.splice(array.indexOf(this), 1)], when the object is found. *)
Fixpoint remove_enemy (n : nat) (es : list Enemy) : list Enemy :=
  match es with
  | [] => []
  | e :: r => if Nat.eqb (eid e) n then r else e :: remove_enemy n r
  end.

(** The object [e'] seen through every reference to it in the list. *)
Definition store_enemy (e' : Enemy) (es : list Enemy) : list Enemy :=
  map (fun e => if Nat.eqb (eid e) (eid e') then e' else e) es.

Definition set_enemy (e : Enemy) (h : float) (mesh : option Vec3) : Enemy :=
  {| eid := eid e; e_health := h; e_maxHealth := e_maxHealth e; e_speed := e_speed e;
     e_damage := e_damage e; e_lastAttack := e_lastAttack e;
     e_attackCooldown := e_attackCooldown e; e_mesh := mesh;
     e_targetPosition := e_targetPosition e |}.

(** [Enemy.takeDamage(damageAmount)], once [initEnemySystem] has set the
    module's [gameState]: the game state and the enemy after the call, and
    the value returned.  A dead enemy is destroyed: its mesh is set to null
    and it leaves [gameState.enemies]. *)
Definition enemy_takeDamage (damageAmount : float) (e : Enemy) (gs : GameState)
  : GameState * Enemy * bool :=
  let h := (e_health e - damageAmount)%float in
  if PrimFloat.leb h 0 then
    let e' := set_enemy e h None in
    (set_enemies gs (remove_enemy (eid e) (enemies gs)) (score gs + 100), e', true)
  else
    let e' := set_enemy e h (e_mesh e) in
    (set_enemies gs (store_enemy e' (enemies gs)) (score gs), e', false).

(** [Enemy.attackPlayer()] *)
Definition attackPlayer (e : Enemy) (gs : GameState) : GameState :=
  set_health gs (health gs - e_damage e)%float.

(** [Enemy.update(delta, playerPosition)] for an enemy whose mesh is in the
    scene, at the time [now] of [Date.now()]; the orientation of the mesh and
    of the health bar is left out. *)
Definition enemy_update (delta : float) (playerPosition : Vec3) (now : Z)
    (e : Enemy) (gs : GameState) : GameState * Enemy :=
  match e_mesh e with
  | None => (gs, e)
  | Some mesh =>
      let aiDirection := normalize (subVectors playerPosition mesh) in
      let target := addScaledVector (e_targetPosition e) aiDirection (e_speed e * delta)%float in
      let terrainY := Z2F (enemy_getTerrainHeight (vx target) (vz target) + 1) in
      let target := {| vx := vx target; vy := terrainY; vz := vz target |} in
      let mesh' := lerp mesh target 0.1 in
      let distanceToPlayer := distanceTo mesh' playerPosition in
      let attacks := PrimFloat.ltb distanceToPlayer 2.5
                     && (e_attackCooldown e <? now - e_lastAttack e) in
      let e' := {| eid := eid e; e_health := e_health e; e_maxHealth := e_maxHealth e;
                   e_speed := e_speed e; e_damage := e_damage e;
                   e_lastAttack := if attacks then now else e_lastAttack e;
                   e_attackCooldown := e_attackCooldown e; e_mesh := Some mesh';
                   e_targetPosition := target |} in
      let gs1 := if attacks then attackPlayer e gs else gs in
      (set_enemies gs1 (store_enemy e' (enemies gs1)) (score gs1), e')
  end.

(** *** weapon.js *)

Inductive WeaponName : Type := pistol | rifle | shotgun.

Record Weapon : Type := mkWeapon {
  damage : float;
  fireRate : Z;
  accuracy : float;
  ammoCapacity : Z;
  reloadTime : Z;
  pellets : option Z
}.

(** [this.weapons] *)
Definition weapons (w : WeaponName) : Weapon :=
  match w with
  | pistol => mkWeapon 25 300 0.95 12 1500 None
  | rifle => mkWeapon 40 150 0.85 30 2000 None
  | shotgun => mkWeapon 80 800 0.6 6 2500 (Some 5)
  end.

(** The weapon system: the references [init] injects are there or not. *)
Record WeaponSystem : Type := mkWS {
  currentWeapon : WeaponName;
  lastShot : Z;
  isReloading : bool;
  pool_available : list Bullet;
  pool_capacity : Z;
  pool_created : Z;
  has_scene : bool;
  has_gameState : bool;
  has_updateUI : bool
}.

(** [new WeaponSystem()] *)
Definition newWeaponSystem : WeaponSystem :=
  {| currentWeapon := rifle; lastShot := 0; isReloading := false;
     pool_available := []; pool_capacity := 50; pool_created := 0;
     has_scene := false; has_gameState := false; has_updateUI := false |}.

(** [init(sceneRef, gameStateRef, updateUIRef)] with three references. *)
Definition init (ws : WeaponSystem) : WeaponSystem :=
  {| currentWeapon := currentWeapon ws; lastShot := lastShot ws;
     isReloading := isReloading ws; pool_available := pool_available ws;
     pool_capacity := pool_capacity ws; pool_created := pool_created ws;
     has_scene := true; has_gameState := true; has_updateUI := true |}.

Definition set_pool (ws : WeaponSystem) (av : list Bullet) (created : Z) : WeaponSystem :=
  {| currentWeapon := currentWeapon ws; lastShot := lastShot ws;
     isReloading := isReloading ws; pool_available := av;
     pool_capacity := pool_capacity ws; pool_created := created;
     has_scene := has_scene ws; has_gameState := has_gameState ws;
     has_updateUI := has_updateUI ws |}.

Definition set_shot (ws : WeaponSystem) (last : Z) (reloading : bool) : WeaponSystem :=
  {| currentWeapon := currentWeapon ws; lastShot := last;
     isReloading := reloading; pool_available := pool_available ws;
     pool_capacity := pool_capacity ws; pool_created := pool_created ws;
     has_scene := has_scene ws; has_gameState := has_gameState ws;
     has_updateUI := has_updateUI ws |}.

(** [new Bullet(weaponSystemRef)]; [n] is the identity of the new object. *)
Definition newBullet (n : nat) : Bullet :=
  let zero := {| vx := 0; vy := 0; vz := 0 |}%float in
  {| bid := n; b_position := zero; b_velocity := zero; b_damage := 0; b_life := 0;
     b_active := false; b_previousPosition := zero |}.

(** [array.pop()]: the last element and the rest. *)
Fixpoint pop {A} (l : list A) : option (A * list A) :=
  match l with
  | [] => None
  | [x] => Some (x, [])
  | x :: r => match pop r with Some (y, r') => Some (y, x :: r') | None => None end
  end.

(** [acquireBullet()] *)
Definition acquireBullet (ws : WeaponSystem) : Bullet * WeaponSystem :=
  match pop (pool_available ws) with
  | Some (bullet, rest) => (bullet, set_pool ws rest (pool_created ws))
  | None => (newBullet (Z.to_nat (pool_created ws)), set_pool ws [] (pool_created ws + 1))
  end.

(** [releaseBullet(bullet)]: past the capacity the bullet is disposed of. *)
Definition releaseBullet (bullet : Bullet) (ws : WeaponSystem) : WeaponSystem :=
  if Z.of_nat (List.length (pool_available ws)) <? pool_capacity ws
  then set_pool ws (pool_available ws ++ [bullet]) (pool_created ws)
  else ws.

(** [Bullet.init(position, direction, damage)]: the bullet, and the game
    state with the bullet in [gameState.bullets]. *)
Definition bullet_init (position direction : Vec3) (dmg : float) (b : Bullet)
    (ws : WeaponSystem) (gs : GameState) : Bullet * GameState :=
  let b' := {| bid := bid b; b_position := position;
               b_velocity := multiplyScalar direction Config.BULLET_SPEED;
               b_damage := dmg; b_life := 3; b_active := true;
               b_previousPosition := position |} in
  (b', if has_gameState ws then set_bullets gs (bullets gs ++ [b']) else gs).

Fixpoint remove_bullet (n : nat) (bs : list Bullet) : list Bullet :=
  match bs with
  | [] => []
  | b :: r => if Nat.eqb (bid b) n then r else b :: remove_bullet n r
  end.

Definition set_bullet (b : Bullet) (pos prev : Vec3) (life : float) (active : bool) : Bullet :=
  {| bid := bid b; b_position := pos; b_velocity := b_velocity b;
     b_damage := b_damage b; b_life := life; b_active := active;
     b_previousPosition := prev |}.

(** [Bullet.deactivate()] *)
Definition deactivate (b : Bullet) (ws : WeaponSystem) (gs : GameState)
  : Bullet * WeaponSystem * GameState :=
  let b' := set_bullet b (b_position b) (b_previousPosition b) (b_life b) false in
  let gs' := if has_gameState ws then set_bullets gs (remove_bullet (bid b) (bullets gs))
             else gs in
  (b', releaseBullet b' ws, gs').

(** [canShoot()], at the time [now] of [Date.now()]. *)
Definition canShoot (now : Z) (ws : WeaponSystem) (gs : GameState) : bool :=
  if negb (has_gameState ws) then false
  else
    let weapon := weapons (currentWeapon ws) in
    negb (isReloading ws) && (0 <? ammo gs) && (fireRate weapon <? now - lastShot ws).

(** [weaponData.pellets || 1] *)
Definition pelletCount (w : Weapon) : Z :=
  match pellets w with
  | Some n => if n =? 0 then 1 else n
  | None => 1
  end.

(** One turn of the loop of [fireWeapon]: a direction with its spread, a
    bullet from the pool, launched. *)
Definition fire_pellet (weaponData : Weapon) (muzzle cameraDirection : Vec3)
    (damagePerPellet : float) (st : WeaponSystem * GameState * Rand * list Bullet)
  : WeaponSystem * GameState * Rand * list Bullet :=
  let '(ws, gs, r, fired) := st in
  let spread := ((1 - accuracy weaponData) * 0.1)%float in
  let '(r1, ra) := Math_random r in
  let '(r2, rb) := Math_random ra in
  let '(r3, rc) := Math_random rb in
  let bulletDirection :=
    normalize {| vx := vx cameraDirection + (r1 - 0.5) * spread;
                 vy := vy cameraDirection + (r2 - 0.5) * spread;
                 vz := vz cameraDirection + (r3 - 0.5) * spread |}%float in
  let '(bullet, ws1) := acquireBullet ws in
  let '(bullet', gs1) := bullet_init muzzle bulletDirection damagePerPellet bullet ws1 gs in
  (ws1, gs1, rc, fired ++ [bullet']).

Fixpoint fire_pellets (n : nat) (weaponData : Weapon) (muzzle cameraDirection : Vec3)
    (damagePerPellet : float) (st : WeaponSystem * GameState * Rand * list Bullet)
  : WeaponSystem * GameState * Rand * list Bullet :=
  match n with
  | O => st
  | S k => fire_pellets k weaponData muzzle cameraDirection damagePerPellet
             (fire_pellet weaponData muzzle cameraDirection damagePerPellet st)
  end.

(** What [fireWeapon] gives: the value returned, the states after, and the
    bullets it launched. *)
Record Fired : Type := mkFired {
  fired_ok : bool;
  fired_ws : WeaponSystem;
  fired_gs : GameState;
  fired_rand : Rand;
  fired_bullets : list Bullet
}.

(** [fireWeapon()], at the time [now]; [muzzle] is the world position of the
    weapon mesh and [cameraDirection] the direction the camera looks in.  The
    recoil of the mesh and the muzzle flash are left out. *)
Definition fireWeapon (now : Z) (muzzle cameraDirection : Vec3)
    (ws : WeaponSystem) (gs : GameState) (r : Rand) : Fired :=
  if negb (canShoot now ws gs) || negb (has_scene ws) || negb (has_gameState ws)
     || negb (has_updateUI ws)
  then mkFired false ws gs r []
  else
    let weaponData := weapons (currentWeapon ws) in
    let ws0 := set_shot ws now (isReloading ws) in
    let count := pelletCount weaponData in
    let damagePerPellet := (damage weaponData / Z2F count)%float in
    let '(ws1, gs1, r1, fired) :=
      fire_pellets (Z.to_nat count) weaponData muzzle cameraDirection damagePerPellet
        (ws0, gs, r, []) in
    mkFired true ws1 (set_ammo gs1 (ammo gs1 - 1) (totalAmmo gs1)) r1 fired.

(** [reload()]: the weapon system after the call and, when a reload starts,
    the delay of the timer it sets. *)
Definition reload (ws : WeaponSystem) (gs : GameState) : WeaponSystem * option Z :=
  if negb (has_gameState ws) || negb (has_updateUI ws) then (ws, None)
  else if isReloading ws || (totalAmmo gs <=? 0) || (ammo gs =? Config.AMMO_CAPACITY)
  then (ws, None)
  else (set_shot ws (lastShot ws) true,
        Some (reloadTime (weapons (currentWeapon ws)))).

(** The function the timer of [reload()] runs. *)
Definition reload_timeout (ws : WeaponSystem) (gs : GameState) : WeaponSystem * GameState :=
  let needed := Config.AMMO_CAPACITY - ammo gs in
  let available := Z.min needed (totalAmmo gs) in
  (set_shot ws (lastShot ws) false,
   set_ammo gs (ammo gs + available) (totalAmmo gs - available)).

(** The first enemy of the list that has a mesh within one unit of [pos]. *)
Fixpoint enemy_in_reach (pos : Vec3) (es : list Enemy) : option Enemy :=
  match es with
  | [] => None
  | e :: r =>
      match e_mesh e with
      | Some m => if PrimFloat.ltb (distanceTo pos m) 1 then Some e else enemy_in_reach pos r
      | None => enemy_in_reach pos r
      end
  end.

(** A block a bullet does not pass: neither [AIR] nor [WATER]. *)
Definition blocks_bullet (b : BlockType) : bool :=
  negb (block_eqb b AIR) && negb (block_eqb b WATER).

(** The loop over the points of the path, for [i] from [steps - n + 1] to
    [steps]: whether a point lies in a block, and the random numbers left. *)
Fixpoint path_collides (n : nat) (steps : Z) (prev dir : Vec3) (pathLength : float)
    (r : Rand) : bool * Rand :=
  match n with
  | O => (false, r)
  | S k =>
      let i := steps - Z.of_nat k in
      let stepLength := (pathLength / Z2F steps * Z2F i)%float in
      let checkPoint := addScaledVector prev dir stepLength in
      let '(blockType, r') :=
        getBlockType permutation42 (floorZ (vx checkPoint)) (floorZ (vy checkPoint))
          (floorZ (vz checkPoint)) r in
      if blocks_bullet blockType then (true, r')
      else path_collides k steps prev dir pathLength r'
  end.

(** [Bullet.update(delta)]: what the call returns, then the bullet, the
    weapon system, the game state and the random numbers after it.
    [enemy_ready] tells whether [initEnemySystem] has set the [gameState] of
    enemy.js. *)
Definition bullet_update (enemy_ready : bool) (delta : float) (b : Bullet)
    (ws : WeaponSystem) (gs : GameState) (r : Rand)
  : Returned * Bullet * WeaponSystem * GameState * Rand :=
  if negb (b_active b) then (undefined, b, ws, gs, r)
  else
    let prev := b_position b in
    let pos := addScaledVector prev (b_velocity b) delta in
    let b1 := set_bullet b pos prev (b_life b) true in
    match (if has_gameState ws then enemy_in_reach pos (enemies gs) else None) with
    | Some enemy =>
        let gs1 := if enemy_ready
                   then fst (fst (enemy_takeDamage (b_damage b) enemy gs)) else gs in
        let '(b2, ws2, gs2) := deactivate b1 ws gs1 in
        (undefined, b2, ws2, gs2, r)
    | None =>
        let path := subVectors pos prev in
        let pathLength := Vec.length path in
        let '(collided, r1) :=
          if PrimFloat.ltb 0 pathLength then
            let steps := Z.max 1 (ceilZ (pathLength / (Config.BLOCK_SIZE * 0.75))%float) in
            path_collides (Z.to_nat steps) steps prev (normalize path) pathLength r
          else
            let '(blockType, r') :=
              getBlockType permutation42 (floorZ (vx pos)) (floorZ (vy pos))
                (floorZ (vz pos)) r in
            (blocks_bullet blockType, r') in
        if collided then
          let '(b2, ws2, gs2) := deactivate b1 ws gs in (undefined, b2, ws2, gs2, r1)
        else
          let life := (b_life b - delta)%float in
          let b2 := set_bullet b pos prev life true in
          if PrimFloat.leb life 0 then
            let '(b3, ws3, gs3) := deactivate b2 ws gs in (undefined, b3, ws3, gs3, r1)
          else
            (undefined, b2, ws,
             if has_gameState ws
             then set_bullets gs (map (fun x => if Nat.eqb (bid x) (bid b2) then b2 else x)
                                    (bullets gs))
             else gs, r1)
    end.

End Client.

(** *** server.js: the events the server handles *)
Module Events.
Import Js Vec Server.

Section Runs.
Variables Math_sin Math_cos : float -> float.

(** What the server reacts to: the events of a socket and the timer of the
    game loop, each with the time [Date.now()] shows where it is read. *)
Inductive Message : Type :=
| Connect (sid : string) (now : Z)
| PlayerInput (sid : string) (input : Input) (rot : option Vec3) (sequence now : Z)
| PlayerShoot (sid : string) (pos vel : Vec3) (now : Z)
| PlayerReload (sid : string)
| Disconnect (sid : string)
| Tick (now : Z).

Definition handle (gs : GameState) (m : Message) : GameState :=
  match m with
  | Connect sid now => fst (on_connection sid now gs)
  | PlayerInput sid input rot sequence now =>
      on_player_input Math_sin Math_cos sid input rot sequence now gs
  | PlayerShoot sid pos vel now => fst (on_player_shoot sid pos vel now gs)
  | PlayerReload sid => fst (on_player_reload sid gs)
  | Disconnect sid => fst (on_disconnect sid gs)
  | Tick now => fst (gameLoop now gs)
  end.

Definition run (ms : list Message) (gs : GameState) : GameState :=
  fold_left handle ms gs.

End Runs.

End Events.

(** *** player.js: the keys *)
Module Controls.
Import Js Client.

(** [event.code], as far as the handlers tell the codes apart. *)
Inductive Key : Type := KeyW | KeyA | KeyS | KeyD | Space | KeyR | OtherKey.

(** [moveState] *)
Record MoveState : Type := mkMove {
  forward : bool; backward : bool; left : bool; right : bool; canJump : bool
}.

(** [moveState] and the vertical part of [velocity]. *)
Record PlayerState : Type := mkPlayerState {
  moveState : MoveState;
  velocity_y : float
}.

Definition set_move (st : PlayerState) (m : MoveState) : PlayerState :=
  {| moveState := m; velocity_y := velocity_y st |}.

(** [onKeyDown(event, weaponSystem)]: the player state, the weapon system
    when one was given, and the delay of the timer a reload has set. *)
Definition onKeyDown (code : Key) (weaponSystem : option WeaponSystem) (gs : GameState)
    (st : PlayerState) : PlayerState * option WeaponSystem * option Z :=
  let m := moveState st in
  match code with
  | KeyW => (set_move st (mkMove true (backward m) (left m) (right m) (canJump m)),
             weaponSystem, None)
  | KeyA => (set_move st (mkMove (forward m) (backward m) true (right m) (canJump m)),
             weaponSystem, None)
  | KeyS => (set_move st (mkMove (forward m) true (left m) (right m) (canJump m)),
             weaponSystem, None)
  | KeyD => (set_move st (mkMove (forward m) (backward m) (left m) true (canJump m)),
             weaponSystem, None)
  | Space =>
      if canJump m then
        ({| moveState := mkMove (forward m) (backward m) (left m) (right m) false;
            velocity_y := Config.JUMP_VELOCITY |}, weaponSystem, None)
      else (st, weaponSystem, None)
  | KeyR =>
      match weaponSystem with
      | Some ws => let '(ws', timer) := reload ws gs in (st, Some ws', timer)
      | None => (st, None, None)
      end
  | OtherKey => (st, weaponSystem, None)
  end.

(** [onKeyUp(event)] *)
Definition onKeyUp (code : Key) (st : PlayerState) : PlayerState :=
  let m := moveState st in
  match code with
  | KeyW => set_move st (mkMove false (backward m) (left m) (right m) (canJump m))
  | KeyA => set_move st (mkMove (forward m) (backward m) false (right m) (canJump m))
  | KeyS => set_move st (mkMove (forward m) false (left m) (right m) (canJump m))
  | KeyD => set_move st (mkMove (forward m) (backward m) (left m) false (canJump m))
  | _ => st
  end.

(** The events of the keyboard, handled one after the other. *)
Inductive KeyEvent : Type := Down (k : Key) | Up (k : Key).

Definition on_key (gs : GameState) (s : PlayerState * option WeaponSystem)
    (ev : KeyEvent) : PlayerState * option WeaponSystem :=
  match ev with
  | Down k => fst (onKeyDown k (snd s) gs (fst s))
  | Up k => (onKeyUp k (fst s), snd s)
  end.

Definition keys (gs : GameState) (evs : list KeyEvent)
    (s : PlayerState * option WeaponSystem) : PlayerState * option WeaponSystem :=
  fold_left (on_key gs) evs s.

End Controls.

(** *** main.js: the damage of the water and the entities of a frame *)
Module Main.
Import Js Vec World Client.

(** [CONFIG.RENDER_DISTANCE] (config.js) and [Math.PI]. *)
Definition RENDER_DISTANCE : Z := 3.
Definition Math_PI : float := 3.141592653589793%float.

(** [checkEnvironmentalDamage()] with the camera at [playerPos]: the game
    state after it, whether [handlePlayerDeath] was called, and the random
    numbers left.  The camera is at a position in the range of
    [Js.in_range]. *)
Definition checkEnvironmentalDamage (playerPos : Vec3) (gs : GameState) (r : Rand)
  : GameState * bool * Rand :=
  let '(blockAtFeet, r') :=
    getBlockType permutation42 (floorZ (vx playerPos))
      (floorZ (vy playerPos - Config.PLAYER_HEIGHT + 0.1)%float)
      (floorZ (vz playerPos)) r in
  if block_eqb blockAtFeet WATER then
    if PrimFloat.ltb 0 (health gs) then
      let gs' := set_health gs (health gs - 0.5)%float in
      (gs', PrimFloat.leb (health gs') 0, r')
    else (gs, false, r')
  else (gs, false, r').

Section Spawn.
(** [Math.sin] and [Math.cos]. *)
Variables Math_sin Math_cos : float -> float.

(** [spawnEnemy()] with the camera at [camera]; [n] is the identity of the
    new enemy. *)
Definition spawnEnemy (camera : Vec3) (n : nat) (gs : GameState) (r : Rand)
  : GameState * Rand :=
  let '(a, r1) := Math_random r in
  let angle := (a * Math_PI * 2)%float in
  let minSpawnDist := Z2F Config.CHUNK_SIZE in
  let maxSpawnDist := (Z2F Config.CHUNK_SIZE * (Z2F RENDER_DISTANCE - 0.5))%float in
  let '(d, r2) := Math_random r1 in
  let distance := (minSpawnDist + d * (maxSpawnDist - minSpawnDist))%float in
  let x := (vx camera + Math_cos angle * distance)%float in
  let z := (vz camera + Math_sin angle * distance)%float in
  (set_enemies gs (enemies gs ++ [newEnemy n x z]) (score gs), r2).

(** The fixed time step of [animate]. *)
Definition delta : float := 0.0166%float.

(** [gameState.enemies.forEach(enemy => ...)]: an enemy whose mesh is in the
    scene is updated. *)
Definition update_enemies (camera : Vec3) (now : Z) (gs : GameState) : GameState :=
  fold_left
    (fun g e => match e_mesh e with
                | Some _ => fst (enemy_update delta camera now e g)
                | None => g
                end)
    (enemies gs) gs.

(** [for (let i = gameState.bullets.length - 1; i >= 0; i--)
       gameState.bullets[i].update(delta)]: a bullet that deactivates itself
    leaves the array at its own index, so that the bullets before it keep
    theirs. *)
Definition update_bullets (enemy_ready : bool) (ws : WeaponSystem) (gs : GameState)
    (r : Rand) : WeaponSystem * GameState * Rand :=
  fold_left
    (fun '(ws, gs, r) b =>
       let '(_, _, ws', gs', r') := bullet_update enemy_ready delta b ws gs r in
       (ws', gs', r'))
    (rev (bullets gs)) (ws, gs, r).

(** What a frame works on; [f_made] counts the enemies made so far. *)
Record Frame : Type := mkFrame {
  f_ws : WeaponSystem;
  f_gs : GameState;
  f_rand : Rand;
  f_made : nat
}.

(** The part of [animate] on the enemies and the bullets: the updates of
    both and the spawning of a new enemy, with the camera at [camera] and at
    the time [now].  The movement of the player, the chunks, the timer of
    the automatic reload and the drawing are left out. *)
Definition animate_entities (enemy_ready : bool) (camera : Vec3) (now : Z)
    (s : Frame) : Frame :=
  let gs1 := update_enemies camera now (f_gs s) in
  let '(ws2, gs2, r2) := update_bullets enemy_ready (f_ws s) gs1 (f_rand s) in
  let '(v, r3) := Math_random r2 in
  if PrimFloat.ltb v 0.002 && (Z.of_nat (List.length (enemies gs2)) <? 15) then
    let '(gs3, r4) := spawnEnemy camera (f_made s) gs2 r3 in
    mkFrame ws2 gs3 r4 (S (f_made s))
  else mkFrame ws2 gs2 r3 (f_made s).

(** Frame after frame, each with its camera position and its time. *)
Definition frames (enemy_ready : bool) (inputs : list (Vec3 * Z)) (s : Frame) : Frame :=
  fold_left (fun s '(camera, now) => animate_entities enemy_ready camera now s) inputs s.

End Spawn.

End Main.

(* ================================================================== *)
(** * Part II: properties *)
(* ================================================================== *)

(** ** Numbers *)
Module Js_facts.
Import Js.

(** What [in_range] leaves out, and what it keeps. *)
Lemma in_range_cases :
  in_range PrimFloat.nan = false /\ in_range PrimFloat.infinity = false /\
  in_range PrimFloat.neg_infinity = false /\
  in_range 9223372036854775808%float = false /\
  in_range 9007199254740992%float = true /\
  in_range (-9007199254740992)%float = true /\ in_range 0%float = true.
Proof. repeat split; vm_compute; reflexivity. Qed.

Lemma digits2_pos_size (p : positive) : digits2_pos p = Pos.size p.
Proof. induction p; simpl; congruence. Qed.

(** A mantissa of a double has at most 53 bits. *)
Lemma valid_mantissa_bound (s : bool) (m : positive) (e : Z) :
  valid_binary (S754_finite s m e) = true -> Zpos m < 2 ^ 53.
Proof.
  unfold SpecFloat.valid_binary, bounded, canonical_mantissa, fexp.
  intros H. apply andb_true_iff in H. destruct H as [H _].
  apply Z.eqb_eq in H. rewrite digits2_pos_size in H.
  assert (Hs : Zpos (Pos.size m) <= 53) by (unfold FloatOps.prec in H; lia).
  pose proof (Pos.size_gt m) as Hg.
  assert (Hp : Zpos m < 2 ^ Zpos (Pos.size m)).
  { change 2 with (Zpos 2). rewrite <- Pos2Z.inj_pow. apply Pos2Z.pos_lt_pos. exact Hg. }
  eapply Z.lt_le_trans; [exact Hp|].
  apply Z.pow_le_mono_r; lia.
Qed.

(** The floor of a number between 0 and a double [nf] that is the integer
    [n], of mantissa [m] and negative exponent [e]. *)
Lemma floorZ_below (t nf : float) (m : positive) (e n : Z) :
  Prim2SF nf = S754_finite false m e ->
  e < 0 -> 2 ^ 52 <= Zpos m -> Zpos m = n * 2 ^ (- e) ->
  PrimFloat.leb 0 t = true -> PrimFloat.ltb t nf = true ->
  0 <= floorZ t <= n - 1.
Proof.
  intros Hnf He Hm Hn Hge Hlt.
  rewrite FloatAxioms.leb_spec in Hge. rewrite FloatAxioms.ltb_spec, Hnf in Hlt.
  pose proof (Prim2SF_valid t) as Hv.
  unfold floorZ.
  assert (Hpow : 0 < 2 ^ (- e)) by (apply Z.pow_pos_nonneg; lia).
  assert (Hn1 : 1 <= n) by nia.
  destruct (Prim2SF t) as [s0 | s0 | | s0 mt et] eqn:Et.
  - lia.
  - destruct s0; discriminate.
  - discriminate.
  - apply valid_mantissa_bound in Hv.
    change (Prim2SF 0) with (S754_zero false) in Hge.
    unfold SFleb, SFltb, SFcompare in Hge, Hlt.
    destruct s0; [discriminate|].
    assert (Hcase : et < e \/ (et = e /\ Zpos mt < Zpos m)).
    { destruct (Z.compare_spec et e) as [Heq | Hl | Hg].
      - right; split; [exact Heq|].
        change (Pos.compare_cont Eq mt m) with (Pos.compare mt m) in Hlt.
        destruct (Pos.compare mt m) eqn:Ec; try discriminate.
        apply Pos.compare_lt_iff in Ec. apply Pos2Z.pos_lt_pos. exact Ec.
      - left; exact Hl.
      - discriminate. }
    assert (Het : et < 0) by lia.
    destruct et as [| pe | pe]; try lia.
    change (Z.neg pe) with (- Z.pos pe).
    rewrite Z.shiftl_opp_r, Z.shiftr_div_pow2 by lia.
    assert (Hpe : 0 < 2 ^ Zpos pe) by (apply Z.pow_pos_nonneg; lia).
    split; [apply Z.div_pos; lia|].
    assert (Hlt2 : Zpos mt < n * 2 ^ Zpos pe).
    { destruct Hcase as [Hl | [Heq Hl]].
      - replace (Zpos pe) with (- e + (Zpos pe + e)) by lia.
        rewrite Z.pow_add_r by lia.
        assert (2 <= 2 ^ (Zpos pe + e)).
        { change 2 with (2 ^ 1) at 1. apply Z.pow_le_mono_r; lia. }
        change (2 ^ 53) with (2 ^ 52 * 2) in Hv. nia.
      - assert (e = Zneg pe) by lia. subst e. simpl Z.opp in Hn. lia. }
    assert (Zpos mt / 2 ^ Zpos pe < n); [|lia].
    apply Z.div_lt_upper_bound; lia.
Qed.

End Js_facts.

(** ** utils.js: the permutation table *)
Module PerlinNoise_facts.
Import Js PerlinNoise.

(** The generator stays within [0, 233280) once it is there. *)
Lemma lcg_range (rng : Z) : 0 <= rng -> 0 <= lcg rng < 233280.
Proof.
  intros H. unfold lcg.
  rewrite Z.rem_mod_nonneg by lia.
  apply Z.mod_pos_bound. lia.
Qed.

(** The doubles [i + 1] the index is scaled by, for [i] from 1 to 255. *)
Definition index_bounds : list (Z * float) :=
  Eval vm_compute in
    map (fun k => (Z.of_nat k, Z2F (Z.of_nat k + 1))) (seq 1 255).

Lemma index_bounds_eq :
  index_bounds = map (fun k => (Z.of_nat k, Z2F (Z.of_nat k + 1))) (seq 1 255).
Proof. vm_compute. reflexivity. Qed.

(** For one state of the generator, every scaled value lies in [0, i + 1). *)
Definition index_row (rng : Z) : bool :=
  let q := PrimFloat.div (Z2F rng) 233280%float in
  forallb (fun '(_, nf) =>
             let t := PrimFloat.mul q nf in
             PrimFloat.leb 0 t && PrimFloat.ltb t nf) index_bounds.

Fixpoint index_rows (fuel : nat) (rng : Z) : bool :=
  match fuel with
  | O => true
  | S f => if index_row rng then index_rows f (rng + 1) else false
  end.

Lemma index_rows_spec (fuel : nat) :
  forall r, index_rows fuel r = true ->
  forall k, r <= k < r + Z.of_nat fuel -> index_row k = true.
Proof.
  induction fuel as [| f IH]; intros r H k Hk.
  - simpl in Hk. lia.
  - simpl in H. destruct (index_row r) eqn:Er; [|discriminate].
    destruct (Z.eq_dec k r) as [-> | Hne]; [exact Er|].
    apply (IH (r + 1) H). lia.
Qed.

(** The 233280 states of the generator, each against the 255 bounds. *)
Lemma index_rows_all : index_rows (Z.to_nat 233280) 0 = true.
Proof. vm_cast_no_check (eq_refl true). Qed.

Lemma index_bounds_shape :
  forallb (fun '(i, nf) =>
             match Prim2SF nf with
             | S754_finite false m e =>
                 (e <? 0) && (2 ^ 52 <=? Zpos m) && (Zpos m =? (i + 1) * 2 ^ (- e))
             | _ => false
             end) index_bounds = true.
Proof. vm_compute. reflexivity. Qed.

Lemma index_bounds_In (i : Z) :
  1 <= i <= 255 -> In (i, Z2F (i + 1)) index_bounds.
Proof.
  intros H. rewrite index_bounds_eq.
  apply in_map_iff. exists (Z.to_nat i). split.
  - rewrite Z2Nat.id by lia. reflexivity.
  - apply in_seq. lia.
Qed.

(** The index drawn at turn [i] lies in [0, i]. *)
Lemma shuffle_index_range (rng i : Z) :
  0 <= rng < 233280 -> 1 <= i <= 255 -> 0 <= shuffle_index rng i <= i.
Proof.
  intros Hr Hi.
  pose proof (index_rows_spec _ _ index_rows_all rng) as Hrow.
  rewrite Z2Nat.id in Hrow by lia. specialize (Hrow ltac:(lia)).
  unfold index_row in Hrow. rewrite forallb_forall in Hrow.
  specialize (Hrow _ (index_bounds_In i Hi)). cbv beta iota zeta in Hrow.
  apply andb_true_iff in Hrow. destruct Hrow as [Hge Hlt].
  pose proof index_bounds_shape as Hs. rewrite forallb_forall in Hs.
  specialize (Hs _ (index_bounds_In i Hi)). cbv beta iota in Hs.
  destruct (Prim2SF (Z2F (i + 1))) as [| | | s m e] eqn:Esf; try discriminate.
  destruct s; [discriminate|].
  apply andb_true_iff in Hs. destruct Hs as [Hs H3].
  apply andb_true_iff in Hs. destruct Hs as [H1 H2].
  apply Z.ltb_lt in H1. apply Z.leb_le in H2. apply Z.eqb_eq in H3.
  unfold shuffle_index.
  pose proof (Js_facts.floorZ_below _ _ m e (i + 1) Esf H1 H2 H3 Hge Hlt).
  lia.
Qed.

(** *** The table as the specification words it

    "rng = seed; for i from 255 downto 1: rng = (rng*9301 + 49297) mod
    233280; j = floor((rng/233280) * (i+1)); swap p[i], p[j].  Table of
    0..255 then concatenated with itself": a list of 256 values, the
    mathematical [mod], and the index computed in doubles as written. *)
Fixpoint spec_set (k : nat) (v : Z) (l : list Z) : list Z :=
  match l, k with
  | [], _ => []
  | _ :: r, O => v :: r
  | x :: r, S k' => x :: spec_set k' v r
  end.

Definition spec_swap (p : list Z) (i j : nat) : list Z :=
  spec_set j (nth i p 0) (spec_set i (nth j p 0) p).

Fixpoint spec_shuffle (n : nat) (rng : Z) (p : list Z) : list Z :=
  match n with
  | O => p
  | S k =>
      let rng' := (rng * 9301 + 49297) mod 233280 in
      let j := floorZ (PrimFloat.mul (PrimFloat.div (Z2F rng') 233280%float)
                         (Z2F (Z.of_nat n + 1))) in
      spec_shuffle k rng' (spec_swap p n (Z.to_nat j))
  end.

Definition spec_permutation (seed : Z) : list Z :=
  spec_shuffle 255 seed (map Z.of_nat (seq 0 256)).

Definition spec_table (seed : Z) : list Z :=
  spec_permutation seed ++ spec_permutation seed.

Lemma spec_set_length (k : nat) (v : Z) (l : list Z) :
  List.length (spec_set k v l) = List.length l.
Proof.
  revert k; induction l as [| x r IH]; intros [| k]; simpl; auto.
Qed.

Lemma spec_set_nth (k : nat) (v : Z) (l : list Z) (a : nat) :
  (k < List.length l)%nat ->
  nth a (spec_set k v l) 0 = if Nat.eqb a k then v else nth a l 0.
Proof.
  revert k a; induction l as [| x r IH]; intros k a Hk; simpl in Hk; [lia|].
  destruct k as [| k]; destruct a as [| a]; simpl; auto.
  apply IH. lia.
Qed.

(** A JavaScript array that holds the 256 values of a list. *)
Definition holds (p : JsArray) (l : list Z) : Prop :=
  arr_len p = 256 /\ List.length l = 256%nat /\
  forall k, (k < 256)%nat -> arr_get p (Z.of_nat k) = Some (nth k l 0).

Lemma holds_identity : holds identity_table (map Z.of_nat (seq 0 256)).
Proof.
  split; [reflexivity|]. split; [reflexivity|].
  intros k Hk. unfold identity_table; cbn [arr_get].
  replace (0 <=? Z.of_nat k) with true by (symmetry; apply Z.leb_le; lia).
  replace (Z.of_nat k <? 256) with true by (symmetry; apply Z.ltb_lt; lia).
  cbn [andb]. f_equal.
  transitivity (nth k (map Z.of_nat (seq 0 256)) (Z.of_nat 0)); [|reflexivity].
  rewrite map_nth, seq_nth by lia. reflexivity.
Qed.

Lemma holds_swap (p : JsArray) (l : list Z) (i j : nat) :
  holds p l -> (i < 256)%nat -> (j < 256)%nat ->
  holds (swap p (Z.of_nat i) (Z.of_nat j)) (spec_swap l i j).
Proof.
  intros (Hlen & Hl & Hget) Hi Hj.
  unfold swap, spec_swap, holds. simpl.
  split.
  { rewrite Hlen.
    replace (256 <=? Z.of_nat i) with false by (symmetry; apply Z.leb_gt; lia).
    rewrite andb_false_r.
    replace (256 <=? Z.of_nat j) with false by (symmetry; apply Z.leb_gt; lia).
    rewrite andb_false_r. reflexivity. }
  split.
  { rewrite !spec_set_length. exact Hl. }
  intros k Hk.
  rewrite spec_set_nth by (rewrite spec_set_length; lia).
  rewrite spec_set_nth by lia.
  destruct (Nat.eqb_spec k j) as [-> | Hkj].
  - rewrite Z.eqb_refl. apply Hget. exact Hi.
  - replace (Z.of_nat k =? Z.of_nat j) with false by (symmetry; apply Z.eqb_neq; lia).
    destruct (Nat.eqb_spec k i) as [-> | Hki].
    + rewrite Z.eqb_refl. apply Hget. exact Hj.
    + replace (Z.of_nat k =? Z.of_nat i) with false by (symmetry; apply Z.eqb_neq; lia).
      apply Hget. exact Hk.
Qed.

(** Each value once: the entries are below 256 and no two are equal. *)
Definition each_once (l : list Z) : Prop :=
  NoDup l /\ forall v, In v l -> 0 <= v < 256.

Lemma spec_set_In (k : nat) (v : Z) (l : list Z) (x : Z) :
  In x (spec_set k v l) -> x = v \/ In x l.
Proof.
  revert k; induction l as [| y r IH]; intros [| k]; simpl; try tauto.
  - intros [H | H]; auto.
  - intros [H | H]; auto. destruct (IH _ H); auto.
Qed.

Lemma nth_inj_NoDup (l : list Z) (a b : nat) :
  NoDup l -> (a < List.length l)%nat -> (b < List.length l)%nat ->
  nth a l 0 = nth b l 0 -> a = b.
Proof.
  intros Hnd Ha Hb H. rewrite (NoDup_nth l 0) in Hnd. apply Hnd; assumption.
Qed.

Lemma each_once_swap (l : list Z) (i j : nat) :
  each_once l -> (i < List.length l)%nat -> (j < List.length l)%nat ->
  each_once (spec_swap l i j).
Proof.
  intros [Hnd Hr] Hi Hj. unfold spec_swap. split.
  - rewrite NoDup_nth with (d := 0). rewrite !spec_set_length.
    intros a b Ha Hb.
    rewrite !spec_set_nth by (rewrite ?spec_set_length; lia).
    destruct (Nat.eqb_spec a j), (Nat.eqb_spec b j),
             (Nat.eqb_spec a i), (Nat.eqb_spec b i);
      subst; intros H; try reflexivity;
      try (apply (nth_inj_NoDup l) in H; auto; lia).
  - intros v Hv.
    apply spec_set_In in Hv. destruct Hv as [-> | Hv]; [apply Hr, nth_In; lia|].
    apply spec_set_In in Hv. destruct Hv as [-> | Hv]; [apply Hr, nth_In; lia|].
    apply Hr, Hv.
Qed.

(** On a generator state that is not negative, the loop of the program and
    the loop of the specification go together. *)
Lemma shuffle_holds (n : nat) :
  forall rng p l,
  (n <= 255)%nat -> 0 <= rng -> holds p l -> each_once l ->
  holds (snd (shuffle n (rng, p))) (spec_shuffle n rng l) /\
  each_once (spec_shuffle n rng l).
Proof.
  induction n as [| k IH]; intros rng p l Hn Hrng Hh Ho.
  - simpl. auto.
  - cbn [shuffle spec_shuffle]. unfold shuffle_step. cbn [fst snd].
    assert (Hlcg : lcg rng = (rng * 9301 + 49297) mod 233280).
    { unfold lcg. apply Z.rem_mod_nonneg; lia. }
    rewrite <- Hlcg.
    pose proof (lcg_range rng Hrng) as Hr.
    pose proof (shuffle_index_range (lcg rng) (Z.of_nat (S k)) Hr ltac:(lia)) as Hj.
    fold (shuffle_index (lcg rng) (Z.of_nat (S k))).
    set (j := shuffle_index (lcg rng) (Z.of_nat (S k))) in *.
    destruct Hh as (Hlen & Hl & Hget).
    apply IH; try lia.
    + replace j with (Z.of_nat (Z.to_nat j)) at 1 by (apply Z2Nat.id; lia).
      apply holds_swap; [repeat split; assumption | lia | lia].
    + apply each_once_swap; auto; lia.
Qed.

Lemma arr_elems_holds (p : JsArray) (l : list Z) :
  holds p l -> arr_elems p = map Some l.
Proof.
  intros (Hlen & Hl & Hget). unfold arr_elems. rewrite Hlen.
  apply nth_ext with (d := None) (d' := None).
  - rewrite !length_map, length_seq, Hl. reflexivity.
  - intros k Hk. rewrite length_map, length_seq in Hk.
    change 256%nat with (Z.to_nat 256) in Hget.
    rewrite (nth_indep _ None (arr_get p (Z.of_nat 0))) by (rewrite length_map, length_seq; exact Hk).
    rewrite (map_nth (fun k0 => arr_get p (Z.of_nat k0))).
    rewrite seq_nth by exact Hk. simpl Nat.add.
    rewrite Hget by exact Hk.
    rewrite (nth_indep _ None (Some 0)) by (rewrite length_map; change (Z.to_nat 256) with 256%nat in Hk; lia).
    rewrite (map_nth Some). reflexivity.
Qed.

Lemma each_once_Permutation (l : list Z) :
  each_once l -> List.length l = 256%nat ->
  Permutation l (map Z.of_nat (seq 0 256)).
Proof.
  intros [Hnd Hr] Hl.
  apply NoDup_Permutation_bis; auto.
  - rewrite length_map, length_seq. lia.
  - intros v Hv. apply Hr in Hv.
    apply in_map_iff. exists (Z.to_nat v). split; [lia|].
    apply in_seq. lia.
Qed.

Lemma each_once_identity : each_once (map Z.of_nat (seq 0 256)).
Proof.
  split.
  - apply NoDup_map_NoDup_ForallPairs; [intros a b _ _; lia | apply seq_NoDup].
  - intros v Hv. apply in_map_iff in Hv. destruct Hv as (k & <- & Hk).
    apply in_seq in Hk. lia.
Qed.

Lemma shuffled_holds (seed : Z) :
  0 <= seed ->
  holds (shuffled seed) (spec_permutation seed) /\ each_once (spec_permutation seed).
Proof.
  intros Hs. unfold shuffled, spec_permutation.
  apply shuffle_holds.
  - apply le_n.
  - exact Hs.
  - exact holds_identity.
  - exact each_once_identity.
Qed.

(** Where the program keeps to the shuffle: for every seed that is not
    negative and small enough for the first product of the generator to be
    exact in double arithmetic (seed * 9301 + 49297 at most 2^53),
    [generatePermutation] builds exactly the table the specified shuffle
    describes, and this table of 512 entries is two copies of a permutation
    of 0..255, each value once. *)
Theorem generatePermutation_spec (seed : Z) :
  0 <= seed -> seed * 9301 + 49297 <= 2 ^ 53 ->
  generatePermutation seed = map Some (spec_table seed) /\
  List.length (generatePermutation seed) = 512%nat /\
  Permutation (spec_permutation seed) (map Z.of_nat (seq 0 256)).
Proof.
  intros Hs _.
  destruct (shuffled_holds seed Hs) as [Hh Ho].
  pose proof (arr_elems_holds _ _ Hh) as He.
  assert (Hg : generatePermutation seed = map Some (spec_table seed)).
  { unfold generatePermutation, spec_table. cbv zeta. rewrite He, map_app. reflexivity. }
  destruct Hh as (_ & Hl & _).
  split; [exact Hg|]. split.
  - rewrite Hg, length_map. unfold spec_table. rewrite length_app, Hl. reflexivity.
  - apply each_once_Permutation; assumption.
Qed.

Lemma generatePermutation_spec_witness :
  generatePermutation 42 = map Some (spec_table 42) /\
  List.length (generatePermutation 42) = 512%nat /\
  Permutation (spec_permutation 42) (map Z.of_nat (seq 0 256)).
Proof. apply (generatePermutation_spec 42); [lia | vm_compute; discriminate]. Defined.

Lemma negative_seed_last_entry :
  nth 255 (generatePermutation (-6)) (Some 0) = None.
Proof. vm_compute. reflexivity. Qed.

Lemma negative_seed_first_turn :
  lcg (-6) = -6509 /\ shuffle_index (-6509) 255 = -8.
Proof. split; vm_compute; reflexivity. Qed.

(** C3 (where the program fails).  The constructor takes any seed, and with
    a negative one the shuffle leaves its array: [%] is a remainder with the
    sign of the dividend, so with the seed -6 the generator gives -6509 at
    the first turn, the index drawn is -8, and [undefined] is swapped into
    the last place of the table, where it stays: the table is no
    permutation. *)
Lemma generatePermutation_negative_seed :
  lcg (-6) = -6509 /\ shuffle_index (-6509) 255 = -8 /\
  nth 255 (generatePermutation (-6)) (Some 0) = None /\
  ~ (exists p, generatePermutation (-6) = map Some p ++ map Some p /\
               Permutation p (map Z.of_nat (seq 0 256))).
Proof.
  split; [apply negative_seed_first_turn|].
  split; [apply negative_seed_first_turn|].
  split; [apply negative_seed_last_entry|].
  intros (p & Hp & Hperm).
  assert (Hl : List.length p = 256%nat).
  { apply Permutation_length in Hperm. rewrite Hperm, length_map, length_seq. reflexivity. }
  pose proof negative_seed_last_entry as H.
  rewrite Hp in H.
  rewrite app_nth1 in H by (rewrite length_map; lia).
  rewrite (map_nth Some) in H. discriminate.
Qed.

End PerlinNoise_facts.

(** ** world.js: block classification *)
Module World_facts.
Import Js World.

Section Terrain.
Variable permutation : list Z.

Local Abbreviation base x z := (baseHeightAt permutation (Z2F x) (Z2F z)).

(** The body of [getBlockType], given what the call on the block below
    returns. *)
Definition classify (below : option (BlockType * Rand)) (x y z : Z) (r : Rand)
  : option (BlockType * Rand) :=
  let moisture := moistureNoise permutation (Z2F x) (Z2F z) in
  let temperature := temperatureNoise permutation (Z2F x) (Z2F z) in
  let baseHeight := base x z in
  if y >? baseHeight + 10 then Some (AIR, r)
  else if (y <=? 15) && (y >? baseHeight) then Some (WATER, r)
  else if y <=? 5 then Some (STONE, r)
  else if y <=? baseHeight then
    if PrimFloat.ltb 0.3 temperature && PrimFloat.ltb moisture (-0.2)
       && (y =? baseHeight) then Some (SAND, r)
    else if PrimFloat.ltb temperature (-0.3) && (y =? baseHeight) then Some (SNOW, r)
    else if y =? baseHeight then Some (GRASS, r)
    else if y >? baseHeight - 3 then Some (DIRT, r)
    else Some (STONE, r)
  else if y =? baseHeight + 1 then
    match below with
    | None => None
    | Some (blk, r1) =>
        if block_eqb blk GRASS then
          let '(d, r2) := Math_random r1 in
          if PrimFloat.ltb d 0.01 && PrimFloat.ltb (-0.2) temperature
          then Some (TREE, r2) else Some (AIR, r2)
        else Some (AIR, r1)
    end
  else Some (AIR, r).

Lemma getBlockTypeF_S (f : nat) (x y z : Z) (r : Rand) :
  getBlockTypeF permutation (S f) x y z r
  = classify (getBlockTypeF permutation f x (y - 1) z r) x y z r.
Proof. reflexivity. Qed.

Ltac split_ifs :=
  repeat match goal with
         | |- context [if ?c then _ else _] => destruct c
         end.

(** At the height of the surface, and wherever the height is not one above
    it, the call on the block below is not made. *)
Lemma classify_no_call (b1 b2 : option (BlockType * Rand)) (x y z : Z) (r : Rand) :
  y <> base x z + 1 -> classify b1 x y z r = classify b2 x y z r.
Proof.
  intros Hy. unfold classify.
  destruct (y =? base x z + 1) eqn:E; [apply Z.eqb_eq in E; contradiction|].
  reflexivity.
Qed.

(** Two levels of calls are enough: more fuel changes nothing, and the
    function always returns. *)
Lemma getBlockTypeF_fuel (f : nat) (x y z : Z) (r : Rand) :
  getBlockTypeF permutation (S (S f)) x y z r = Some (getBlockType permutation x y z r).
Proof.
  unfold getBlockType.
  assert (H : getBlockTypeF permutation (S (S f)) x y z r
              = getBlockTypeF permutation 2 x y z r).
  { rewrite !getBlockTypeF_S.
    destruct (Z.eq_dec y (base x z + 1)) as [E | E].
    - rewrite (classify_no_call (getBlockTypeF permutation f x (y - 1 - 1) z r)
                 (getBlockTypeF permutation 0 x (y - 1 - 1) z r) x (y - 1) z r) by lia.
      reflexivity.
    - apply classify_no_call. exact E. }
  rewrite H. clear H.
  assert (H : exists res, getBlockTypeF permutation 2 x y z r = Some res).
  { rewrite !getBlockTypeF_S. cbn [getBlockTypeF].
    unfold classify at 1.
    destruct (y >? base x z + 10); [eauto|].
    destruct ((y <=? 15) && (y >? base x z)); [eauto|].
    destruct (y <=? 5); [eauto|].
    destruct (y <=? base x z); [split_ifs; eauto|].
    destruct (y =? base x z + 1) eqn:E; [|eauto].
    apply Z.eqb_eq in E. unfold classify.
    replace (y - 1 >? base x z + 10) with false by (symmetry; rewrite Z.gtb_ltb; apply Z.ltb_ge; lia).
    replace (y - 1 >? base x z) with false by (symmetry; rewrite Z.gtb_ltb; apply Z.ltb_ge; lia).
    rewrite andb_false_r.
    replace (y - 1 <=? base x z) with true by (symmetry; apply Z.leb_le; lia).
    unfold Math_random. split_ifs; eauto. }
  destruct H as [res ->]. reflexivity.
Qed.

(** [getBlockType] in one piece. *)
Lemma getBlockType_classify (x y z : Z) (r : Rand) :
  Some (getBlockType permutation x y z r)
  = classify (classify None x (y - 1) z r) x y z r.
Proof. rewrite <- (getBlockTypeF_fuel 0). reflexivity. Qed.

(** Away from the layer just above the surface the classification reads no
    random number: the block does not depend on them and they are all left. *)
Lemma getBlockType_no_draw (x y z : Z) (r r0 : Rand) :
  y <> base x z + 1 ->
  getBlockType permutation x y z r = (fst (getBlockType permutation x y z r0), r).
Proof.
  intros Hy.
  assert (H : forall q, Some (getBlockType permutation x y z q) = classify None x y z q).
  { intros q. rewrite getBlockType_classify. apply classify_no_call. exact Hy. }
  pose proof (H r) as Hr. pose proof (H r0) as H0.
  unfold classify in Hr, H0.
  assert (Hfin : forall blk, Some (getBlockType permutation x y z r) = Some (blk, r) ->
                 Some (getBlockType permutation x y z r0) = Some (blk, r0) ->
                 getBlockType permutation x y z r
                 = (fst (getBlockType permutation x y z r0), r)).
  { intros blk A B. injection A as ->. injection B as ->. reflexivity. }
  destruct (y >? base x z + 10); [eapply Hfin; eassumption|].
  destruct ((y <=? 15) && (y >? base x z)); [eapply Hfin; eassumption|].
  destruct (y <=? 5); [eapply Hfin; eassumption|].
  destruct (y <=? base x z).
  { revert Hr H0. split_ifs; intros; eapply Hfin; eassumption. }
  destruct (y =? base x z + 1) eqn:E; [apply Z.eqb_eq in E; contradiction|].
  eapply Hfin; eassumption.
Qed.

(** Air above the tree layer, over a surface that is not under water. *)
Lemma getBlockType_air_above (x y z : Z) (r : Rand) :
  15 <= base x z -> base x z + 1 < y ->
  getBlockType permutation x y z r = (AIR, r).
Proof.
  intros Hb Hy.
  assert (H : Some (getBlockType permutation x y z r) = Some (AIR, r)); [|congruence].
  rewrite getBlockType_classify. unfold classify at 1.
  destruct (y >? base x z + 10); [reflexivity|].
  replace (y <=? 15) with false by (symmetry; apply Z.leb_gt; lia).
  cbn [andb].
  replace (y <=? 5) with false by (symmetry; apply Z.leb_gt; lia).
  replace (y <=? base x z) with false by (symmetry; apply Z.leb_gt; lia).
  replace (y =? base x z + 1) with false by (symmetry; apply Z.eqb_neq; lia).
  reflexivity.
Qed.

(** The surface block is solid ground: never air, and no random number is
    read for it. *)
Lemma getBlockType_surface_solid (x z : Z) (r : Rand) :
  5 < base x z ->
  block_eqb (fst (getBlockType permutation x (base x z) z r)) AIR = false /\
  snd (getBlockType permutation x (base x z) z r) = r.
Proof.
  intros Hb.
  pose proof (getBlockType_classify x (base x z) z r) as H.
  unfold classify at 1 in H.
  set (b := base x z) in *.
  replace (b >? b + 10) with false in H by (symmetry; rewrite Z.gtb_ltb; apply Z.ltb_ge; lia).
  replace (b >? b) with false in H by (symmetry; rewrite Z.gtb_ltb; apply Z.ltb_ge; lia).
  rewrite andb_false_r in H.
  replace (b <=? 5) with false in H by (symmetry; apply Z.leb_gt; lia).
  rewrite Z.leb_refl, Z.eqb_refl in H.
  revert H. split_ifs; intros H; injection H as ->; split; reflexivity.
Qed.

(** On the layer just above a surface that is not under water the block is
    a tree or air. *)
Lemma getBlockType_tree_layer (x z : Z) (r : Rand) :
  15 <= base x z ->
  fst (getBlockType permutation x (base x z + 1) z r) = TREE \/
  fst (getBlockType permutation x (base x z + 1) z r) = AIR.
Proof.
  intros Hb.
  pose proof (getBlockType_classify x (base x z + 1) z r) as H.
  unfold classify at 1 in H.
  set (b := base x z) in *.
  replace (b + 1 >? b + 10) with false in H by (symmetry; rewrite Z.gtb_ltb; apply Z.ltb_ge; lia).
  replace (b + 1 <=? 15) with false in H by (symmetry; apply Z.leb_gt; lia).
  cbn [andb] in H.
  replace (b + 1 <=? 5) with false in H by (symmetry; apply Z.leb_gt; lia).
  replace (b + 1 <=? b) with false in H by (symmetry; apply Z.leb_gt; lia).
  rewrite Z.eqb_refl in H.
  destruct (classify None x (b + 1 - 1) z r) as [[blk r1]|]; [|discriminate].
  destruct (block_eqb blk GRASS).
  - unfold Math_random in H. revert H.
    split_ifs; intros H; injection H as ->; cbn [fst]; auto.
  - injection H as ->. cbn [fst]. auto.
Qed.

(** C2 (as amended).  For a fixed seed the classification of a block is the
    same in any two calls, whatever random numbers the calls are given, at
    every height except the layer just above the surface; on that layer the
    two calls agree whenever the number [Math.random()] returns to each is
    the same. *)
Theorem getBlockType_deterministic (x y z : Z) (r1 r2 : Rand) :
  y <> base x z + 1 \/ fst (Math_random r1) = fst (Math_random r2) ->
  fst (getBlockType permutation x y z r1) = fst (getBlockType permutation x y z r2).
Proof.
  intros [Hy | Hd].
  - rewrite (getBlockType_no_draw x y z r1 r2 Hy). reflexivity.
  - pose proof (getBlockType_classify x y z r1) as H1.
    pose proof (getBlockType_classify x y z r2) as H2.
    destruct (Z.eq_dec y (base x z + 1)) as [E | E];
      [|rewrite (getBlockType_no_draw x y z r1 r2 E); reflexivity].
    assert (Hb : forall q, classify None x (y - 1) z q
                 = Some (fst (getBlockType permutation x (y - 1) z r1), q)).
    { intros q.
      rewrite (classify_no_call None (classify None x (y - 1 - 1) z q)) by lia.
      rewrite <- getBlockType_classify.
      rewrite (getBlockType_no_draw x (y - 1) z q r1) by lia. reflexivity. }
    rewrite Hb in H1, H2.
    unfold classify in H1, H2. unfold Math_random in *. cbn [fst] in Hd.
    rewrite Hd in H1.
    assert (Hfin : forall blk q1 q2,
                 Some (getBlockType permutation x y z r1) = Some (blk, q1) ->
                 Some (getBlockType permutation x y z r2) = Some (blk, q2) ->
                 fst (getBlockType permutation x y z r1)
                 = fst (getBlockType permutation x y z r2)).
    { intros blk q1 q2 A B. injection A as ->. injection B as ->. reflexivity. }
    destruct (y >? base x z + 10); [eapply Hfin; eassumption|].
    destruct ((y <=? 15) && (y >? base x z)); [eapply Hfin; eassumption|].
    destruct (y <=? 5); [eapply Hfin; eassumption|].
    destruct (y <=? base x z);
      [revert H1 H2; split_ifs; intros; eapply Hfin; eassumption|].
    destruct (y =? base x z + 1); [|eapply Hfin; eassumption].
    revert H1 H2. split_ifs; intros; eapply Hfin; eassumption.
Qed.

End Terrain.

(** The random numbers that are all [d]. *)
Definition always (d : float) : Rand := mkRand (fun _ => d) 0.

Lemma getBlockType_deterministic_witness :
  fst (getBlockType permutation42 0 20 0 (always 0))
  = fst (getBlockType permutation42 0 20 0 (always 0.5)).
Proof.
  apply (getBlockType_deterministic permutation42 0 20 0 (always 0) (always 0.5)).
  left. vm_compute. discriminate.
Defined.

(** C2 (counterexample).  Over the origin the surface is grass at height 20;
    the block at height 21 is a tree when [Math.random()] returns 0 and air
    when it returns 0.5: two calls with the same coordinates differ. *)
Lemma getBlockType_not_deterministic :
  baseHeightAt permutation42 (Z2F 0) (Z2F 0) = 20 /\
  fst (getBlockType permutation42 0 20 0 (always 0)) = GRASS /\
  fst (getBlockType permutation42 0 21 0 (always 0)) = TREE /\
  fst (getBlockType permutation42 0 21 0 (always 0.5)) = AIR.
Proof. repeat split; vm_compute; reflexivity. Qed.

End World_facts.

(** ** player.js and server.js: the two terrain heights *)
Module Terrain_facts.
Import Js World World_facts.

Section Scan.
Variable permutation : list Z.

Local Abbreviation base x z := (baseHeightAt permutation (Z2F x) (Z2F z)).

(** The scan passes the air above the tree layer without reading a random
    number. *)
Lemma scan_air_above (n : nat) (x z : Z) (r : Rand) :
  15 <= base x z -> base x z + 2 <= Z.of_nat n ->
  Player.scan permutation n x z r
  = Player.scan permutation (Z.to_nat (base x z + 2)) x z r.
Proof.
  intros Hb. induction n as [| k IH]; intros Hn; [lia|].
  destruct (Z.eq_dec (Z.of_nat (S k)) (base x z + 2)) as [E | E].
  - rewrite <- E, Nat2Z.id. reflexivity.
  - cbn [Player.scan].
    rewrite (getBlockType_air_above permutation x (Z.of_nat k) z r Hb) by lia.
    cbn [block_eqb block_id Z.eqb negb]. apply IH. lia.
Qed.

(** The scan stops on the surface block. *)
Lemma scan_surface (x z : Z) (r : Rand) :
  15 <= base x z ->
  Player.scan permutation (Z.to_nat (base x z + 1)) x z r = (base x z + 1, r).
Proof.
  intros Hb.
  replace (Z.to_nat (base x z + 1)) with (S (Z.to_nat (base x z))) by lia.
  cbn [Player.scan]. rewrite Z2Nat.id by lia.
  destruct (getBlockType_surface_solid permutation x z r) as [Hs Hr]; [lia|].
  destruct (getBlockType permutation x (base x z) z r) as [blk r'].
  cbn [fst snd] in Hs, Hr. rewrite Hs. cbn [negb]. congruence.
Qed.

(** Over a column whose surface is at or above the water level and within
    the world, and on which no tree is placed, the scan finds the height
    just above the surface. *)
Lemma scan_height (x z : Z) (r : Rand) :
  15 <= base x z <= 63 ->
  fst (getBlockType permutation x (base x z + 1) z r) <> TREE ->
  fst (Player.scan permutation 64 x z r) = base x z + 1.
Proof.
  intros Hb Ht.
  destruct (Z.eq_dec (base x z) 63) as [E | E].
  - change 64%nat with (Z.to_nat (63 + 1)). rewrite <- E.
    rewrite scan_surface by lia. reflexivity.
  - rewrite scan_air_above by lia.
    replace (Z.to_nat (base x z + 2)) with (S (Z.to_nat (base x z + 1))) by lia.
    cbn [Player.scan]. rewrite Z2Nat.id by lia.
    destruct (getBlockType_tree_layer permutation x z r) as [Hl | Hl]; [lia|contradiction|].
    destruct (getBlockType permutation x (base x z + 1) z r) as [blk r'].
    cbn [fst] in Hl. subst blk.
    cbn [block_eqb block_id Z.eqb negb].
    rewrite scan_surface by lia. reflexivity.
Qed.

End Scan.

(** The closed form of the server is one more than the surface height of
    world.js. *)
Lemma server_height (x z : float) :
  Server.getTerrainHeight x z = baseHeightAt permutation42 x z + 1.
Proof.
  unfold Server.getTerrainHeight, Server.noise, baseHeightAt, heightNoise.
  reflexivity.
Qed.

(** C1 (as amended).  At a point with finite coordinates of size at most
    2^53, whose block column [(x, z)] has its surface
    [floor(20 + heightNoise * 20)] at or above the water level and within the
    world (between 15 and 63), and on which no tree block is generated just
    above the surface, the height the client finds by scanning downward for
    the first block that is not air equals the closed form of the server,
    [floor(20 + heightNoise * 20) + 1]. *)
Theorem getTerrainHeight_agree (x z : Z) (xf zf : float) (r : Rand) :
  in_range xf = true -> in_range zf = true ->
  floorZ xf = x -> floorZ zf = z ->
  15 <= baseHeightAt permutation42 (Z2F x) (Z2F z) <= 63 ->
  fst (getBlockType permutation42 x
         (baseHeightAt permutation42 (Z2F x) (Z2F z) + 1) z r) <> TREE ->
  fst (Player.getTerrainHeight permutation42 xf zf r)
  = Server.getTerrainHeight (Z2F x) (Z2F z).
Proof.
  intros _ _ Hx Hz Hb Ht.
  unfold Player.getTerrainHeight. rewrite Hx, Hz.
  change (Z.to_nat Config.WORLD_HEIGHT) with 64%nat.
  rewrite scan_height by assumption.
  symmetry. apply server_height.
Qed.

Lemma getTerrainHeight_agree_witness :
  fst (Player.getTerrainHeight permutation42 (Z2F 0) (Z2F 0) (always 0.5))
  = Server.getTerrainHeight (Z2F 0) (Z2F 0).
Proof.
  apply (getTerrainHeight_agree 0 0 (Z2F 0) (Z2F 0) (always 0.5)).
  - vm_compute; reflexivity.
  - vm_compute; reflexivity.
  - vm_compute; reflexivity.
  - vm_compute; reflexivity.
  - vm_compute; split; discriminate.
  - vm_compute; discriminate.
Defined.

Lemma water_column :
  baseHeightAt permutation42 (Z2F 37) (Z2F 11) = 12 /\
  Server.getTerrainHeight (Z2F 37) (Z2F 11) = 13 /\
  fst (getBlockType permutation42 37 15 11 (always 0.5)) = WATER /\
  fst (Player.getTerrainHeight permutation42 (Z2F 37) (Z2F 11) (always 0.5)) = 16.
Proof. repeat split; vm_compute; reflexivity. Qed.

Lemma tree_column :
  Server.getTerrainHeight (Z2F 0) (Z2F 0) = 21 /\
  fst (getBlockType permutation42 0 21 0 (always 0)) = TREE /\
  fst (Player.getTerrainHeight permutation42 (Z2F 0) (Z2F 0) (always 0)) = 22.
Proof. repeat split; vm_compute; reflexivity. Qed.

(** C1 (counterexample).  Over the column (37, 11) the surface is at height
    12, under the water level: the closed form gives 13 and the scan stops on
    the water at height 15 and gives 16.  Over the origin the closed form
    gives 21, and when [Math.random()] returns 0 the scan meets a tree at
    height 21 and gives 22. *)
Lemma getTerrainHeight_disagree :
  fst (Player.getTerrainHeight permutation42 (Z2F 37) (Z2F 11) (always 0.5))
  <> Server.getTerrainHeight (Z2F 37) (Z2F 11) /\
  fst (Player.getTerrainHeight permutation42 (Z2F 0) (Z2F 0) (always 0))
  <> Server.getTerrainHeight (Z2F 0) (Z2F 0).
Proof.
  destruct water_column as (_ & Hw1 & _ & Hw2).
  destruct tree_column as (Ht1 & _ & Ht2).
  rewrite Hw1, Hw2, Ht1, Ht2. split; discriminate.
Qed.

End Terrain_facts.

(** ** Damage: [ServerPlayer.takeDamage] and [Enemy.takeDamage] *)
Module Damage_facts.
Import Js Vec.

(** C4 (as amended).  For a positive amount, [ServerPlayer.takeDamage]
    subtracts the amount from the health and clamps it at 0; the player is
    marked dead when the health reaches 0; for a player that was alive with
    positive health the call returns true exactly when the health reached 0;
    and a player already dead stays at health 0 and dead.  [Enemy.takeDamage]
    subtracts the amount without clamping, returns true exactly when the new
    health is 0 or less, and then the enemy is destroyed (its mesh is null,
    it leaves the list of enemies) and the score grows by 100. *)
Theorem takeDamage_spec (p : Server.ServerPlayer) (damage : Z)
    (e : Client.Enemy) (amount : float) (gs : Client.GameState) :
  0 < damage ->
  let p' := fst (Server.takeDamage damage p) in
  let killed := snd (Server.takeDamage damage p) in
  let '(gs', e', died) := Client.enemy_takeDamage amount e gs in
  Server.health p' = Z.max 0 (Server.health p - damage) /\
  (Server.health p' = 0 -> Server.isAlive p' = false) /\
  (0 < Server.health p -> Server.isAlive p = true ->
     (killed = true <-> Server.health p' = 0) /\
     (Server.isAlive p' = false <-> Server.health p' = 0)) /\
  (Server.health p = 0 -> Server.isAlive p = false ->
     Server.health p' = 0 /\ Server.isAlive p' = false) /\
  Client.e_health e' = (Client.e_health e - amount)%float /\
  died = PrimFloat.leb (Client.e_health e - amount)%float 0 /\
  (died = true ->
     Client.e_mesh e' = None /\
     Client.score gs' = Client.score gs + 100 /\
     Client.enemies gs' = Client.remove_enemy (Client.eid e) (Client.enemies gs)).
Proof.
  intros Hd. unfold Server.takeDamage, Client.enemy_takeDamage.
  destruct (PrimFloat.leb (Client.e_health e - amount) 0) eqn:El;
    destruct (Server.health p - damage <=? 0) eqn:Eh;
    cbn [fst snd Server.health Server.isAlive Server.set_health negb
         Client.e_health Client.e_mesh Client.set_enemy Client.score
         Client.enemies Client.set_enemies];
    try (apply Z.leb_le in Eh); try (apply Z.leb_gt in Eh);
    repeat split; intros; try reflexivity; try discriminate; try lia;
    try (destruct (Server.isAlive p); cbn [negb] in *; congruence).
Qed.

Definition wounded : Server.ServerPlayer :=
  Server.set_health (Server.newPlayer "A" "A" 0) 10 true.

Definition fresh_enemy : Client.Enemy := Client.newEnemy 0 40 40.

Lemma takeDamage_spec_witness :
  let p' := fst (Server.takeDamage 25 wounded) in
  let killed := snd (Server.takeDamage 25 wounded) in
  let '(gs', e', died) :=
    Client.enemy_takeDamage 16 fresh_enemy Client.initialState in
  Server.health p' = Z.max 0 (Server.health wounded - 25) /\
  (Server.health p' = 0 -> Server.isAlive p' = false) /\
  (0 < Server.health wounded -> Server.isAlive wounded = true ->
     (killed = true <-> Server.health p' = 0) /\
     (Server.isAlive p' = false <-> Server.health p' = 0)) /\
  (Server.health wounded = 0 -> Server.isAlive wounded = false ->
     Server.health p' = 0 /\ Server.isAlive p' = false) /\
  Client.e_health e' = (Client.e_health fresh_enemy - 16)%float /\
  died = PrimFloat.leb (Client.e_health fresh_enemy - 16)%float 0 /\
  (died = true ->
     Client.e_mesh e' = None /\
     Client.score gs' = Client.score Client.initialState + 100 /\
     Client.enemies gs'
     = Client.remove_enemy (Client.eid fresh_enemy) (Client.enemies Client.initialState)).
Proof.
  apply (takeDamage_spec wounded 25 fresh_enemy 16 Client.initialState). lia.
Defined.

(** C4 (counterexample).  A player with health 10 takes 25: health 0, dead,
    true is returned.  The next call, with 5, leaves the health at 0 and
    returns true again, not false.  An enemy with health 50 that takes 80 is
    left with health -30, not 0. *)
Lemma takeDamage_dead_returns_true :
  let p1 := fst (Server.takeDamage 25 wounded) in
  Server.health p1 = 0 /\ Server.isAlive p1 = false /\
  snd (Server.takeDamage 25 wounded) = true /\
  Server.health (fst (Server.takeDamage 5 p1)) = 0 /\
  snd (Server.takeDamage 5 p1) = true /\
  Client.e_health (snd (fst (Client.enemy_takeDamage 80 fresh_enemy Client.initialState)))
  = (-30)%float.
Proof. repeat split; vm_compute; reflexivity. Qed.

End Damage_facts.

(** ** Projectiles: [ServerBullet.update] and [Bullet.update] *)
Module Projectile_facts.
Import Js Vec Server.

(** The vertical velocity after gravity, the position after the move, the
    height of the terrain under it, and whether the bullet is below it. *)
Definition fall (delta : float) (b : ServerBullet) : float :=
  (vy (b_velocity b) + Config.BULLET_GRAVITY * delta)%float.

Definition moved (delta : float) (b : ServerBullet) : Vec3 :=
  {| vx := vx (b_position b) + vx (b_velocity b) * delta;
     vy := vy (b_position b) + fall delta b * delta;
     vz := vz (b_position b) + vz (b_velocity b) * delta |}%float.

Definition ground (delta : float) (b : ServerBullet) : float :=
  Z2F (getTerrainHeight (vx (moved delta b)) (vz (moved delta b))).

Definition hits_terrain (delta : float) (b : ServerBullet) : bool :=
  PrimFloat.ltb (vy (moved delta b)) (ground delta b).

(** The position after the terrain has been dealt with. *)
Definition settled (delta : float) (b : ServerBullet) : Vec3 :=
  {| vx := vx (moved delta b);
     vy := if hits_terrain delta b then ground delta b else vy (moved delta b);
     vz := vz (moved delta b) |}.

Definition out_of_bounds (delta : float) (b : ServerBullet) : bool :=
  PrimFloat.ltb (Z2F Config.WORLD_HEIGHT + 50)%float (vy (settled delta b)).

Definition expired (delta : float) (b : ServerBullet) : bool :=
  PrimFloat.leb (b_life b - delta)%float 0.

Definition hits_player (delta : float) (b : ServerBullet)
    (ps : JsMap ServerPlayer) : bool :=
  match snd (check_players (b_ownerId b) (b_damage b) (settled delta b) ps) with
  | Some _ => true
  | None => false
  end.

(** The course of [update], one case for each way out of the function. *)
Lemma bullet_update_cases (delta : float) (b : ServerBullet) (ps : JsMap ServerPlayer) :
  b_isActive b = true ->
  let r := bullet_update delta b ps in
  if hits_terrain delta b && negb (b_bounceCount b <? 3) then
    returned r = false /\ b_isActive (bullet_after r) = false /\
    b_bounceCount (bullet_after r) = b_bounceCount b /\
    players_after r = ps /\ emitted r = []
  else
    b_position (bullet_after r) = settled delta b /\
    b_bounceCount (bullet_after r)
    = (if hits_terrain delta b then b_bounceCount b + 1 else b_bounceCount b) /\
    vy (b_velocity (bullet_after r))
    = (if hits_terrain delta b
       then (PrimFloat.opp (fall delta b) * Config.BULLET_BOUNCE_DAMPENING)%float
       else fall delta b) /\
    returned r = b_isActive (bullet_after r) /\
    returned r = negb (out_of_bounds delta b) && negb (expired delta b)
                 && negb (hits_player delta b ps).
Proof.
  intros Ha r. subst r.
  unfold bullet_update, hits_player, expired, out_of_bounds, settled, hits_terrain,
    ground, moved, fall.
  rewrite Ha. cbn [negb vx vy vz].
  change Config.BULLET_MAX_BOUNCES with 3.
  set (th := Z2F (getTerrainHeight _ _)).
  set (ht := PrimFloat.ltb _ th).
  destruct (ht && negb (b_bounceCount b <? 3)) eqn:Eb.
  - cbn [returned bullet_after players_after emitted b_isActive b_bounceCount set_bullet].
    auto.
  - set (oob := PrimFloat.ltb (Z2F Config.WORLD_HEIGHT + 50)%float _).
    set (ex := PrimFloat.leb _ 0).
    destruct oob;
      [cbn [returned bullet_after b_isActive b_bounceCount b_position b_velocity
            set_bullet vy negb andb]; auto|].
    destruct ex;
      [cbn [returned bullet_after b_isActive b_bounceCount b_position b_velocity
            set_bullet vy negb andb]; auto|].
    destruct (check_players (b_ownerId b) (b_damage b) _ ps) as [ps' [ev|]];
      cbn [returned bullet_after b_isActive b_bounceCount b_position b_velocity
           set_bullet vy negb andb snd]; auto.
Qed.

(** *** The bullets the examples use *)

Definition falling_bullet : ServerBullet :=
  newBullet "bullet_A_1" {| vx := 0; vy := 21; vz := 0 |}
    {| vx := 0; vy := (-50); vz := 0 |} 25 "A".

Definition flying : Client.Bullet :=
  Client.mkBullet 0 {| vx := 0; vy := 40; vz := 0 |} {| vx := 0; vy := 0; vz := 100 |}
    40 3 true {| vx := 0; vy := 40; vz := 0 |}.

Definition armed : Client.WeaponSystem := Client.init Client.newWeaponSystem.

Definition in_flight : Client.GameState :=
  Client.set_bullets Client.initialState [flying].

(** A client bullet that dives at the ground of the origin, whose surface is
    the grass at height 20. *)
Definition diving : Client.Bullet :=
  Client.mkBullet 0 {| vx := 0; vy := 22; vz := 0 |} {| vx := 0; vy := (-100); vz := 0 |}
    40 3 true {| vx := 0; vy := 22; vz := 0 |}.

Definition diving_state : Client.GameState :=
  Client.set_bullets Client.initialState [diving].

(** An inactive bullet is left alone. *)
Lemma bullet_update_inactive (delta : float) (b : ServerBullet) (ps : JsMap ServerPlayer) :
  b_isActive b = false -> bullet_update delta b ps = mkResult false b ps [].
Proof. intros Ha. unfold bullet_update. rewrite Ha. reflexivity. Qed.

(** What a call of the client's [Bullet.update] returns. *)
Definition client_returned {A B C D : Type} (t : Returned * A * B * C * D) : Returned :=
  fst (fst (fst (fst t))).

Lemma client_update_undefined (enemy_ready : bool) (delta : float) (b : Client.Bullet)
    (ws : Client.WeaponSystem) (gs : Client.GameState) (r : World.Rand) :
  client_returned (Client.bullet_update enemy_ready delta b ws gs r) = undefined.
Proof.
  unfold Client.bullet_update, client_returned.
  repeat match goal with
         | |- context [if ?c then _ else _] => destruct c
         | |- context [match ?c with _ => _ end] => destruct c
         end; reflexivity.
Qed.

(** *** The client's bullet *)

(** The parts of what a call of the client's [Bullet.update] gives: the
    value returned, the bullet and the game state after the call. *)
Definition client_bullet {A B C D : Type} (t : A * Client.Bullet * B * C * D)
  : Client.Bullet := snd (fst (fst (fst t))).

Definition client_state {A B C D : Type} (t : A * B * C * Client.GameState * D)
  : Client.GameState := snd (fst t).

(** Where the client's bullet is after its move. *)
Definition client_moved (delta : float) (cb : Client.Bullet) : Vec3 :=
  addScaledVector (Client.b_position cb) (Client.b_velocity cb) delta.

(** The enemy the bullet meets, if any. *)
Definition client_target (delta : float) (cb : Client.Bullet) (ws : Client.WeaponSystem)
    (gs : Client.GameState) : option Client.Enemy :=
  if Client.has_gameState ws
  then Client.enemy_in_reach (client_moved delta cb) (Client.enemies gs) else None.

(** The terrain test of the client's [update]: whether a point of the path
    of this frame (or the bullet itself, when it did not move) lies in a
    block that is neither air nor water. *)
Definition client_collides (delta : float) (cb : Client.Bullet) (rnd : World.Rand) : bool :=
  let prev := Client.b_position cb in
  let pos := addScaledVector prev (Client.b_velocity cb) delta in
  let path := subVectors pos prev in
  let pathLength := Vec.length path in
  fst (if PrimFloat.ltb 0 pathLength then
         let steps := Z.max 1 (ceilZ (pathLength / (Config.BLOCK_SIZE * 0.75))%float) in
         Client.path_collides (Z.to_nat steps) steps prev (normalize path) pathLength rnd
       else
         let '(blockType, r') :=
           World.getBlockType World.permutation42 (floorZ (vx pos)) (floorZ (vy pos))
             (floorZ (vz pos)) rnd in
         (Client.blocks_bullet blockType, r')).

Lemma removed_not_in (n : nat) (bs : list Client.Bullet) :
  NoDup (map Client.bid bs) -> ~ In n (map Client.bid (Client.remove_bullet n bs)).
Proof.
  induction bs as [| b r IH]; cbn [Client.remove_bullet map]; [intros _ []|].
  intros Hn. inversion Hn as [| ? ? Hb Hr]; subst.
  destruct (Nat.eqb (Client.bid b) n) eqn:E.
  - apply Nat.eqb_eq in E. subst n. exact Hb.
  - apply Nat.eqb_neq in E. cbn [map]. intros [H | H]; [contradiction | exact (IH Hr H)].
Qed.

Lemma stored_ids (n : nat) (b2 : Client.Bullet) (bs : list Client.Bullet) :
  Client.bid b2 = n ->
  map Client.bid (map (fun x => if Nat.eqb (Client.bid x) n then b2 else x) bs)
  = map Client.bid bs.
Proof.
  intros Hn. rewrite map_map. apply map_ext. intros x.
  destruct (Nat.eqb (Client.bid x) n) eqn:E; [|reflexivity].
  apply Nat.eqb_eq in E. congruence.
Qed.

(** The course of the client's [update] for an active bullet. *)
Lemma client_update_cases (enemy_ready : bool) (delta : float) (cb : Client.Bullet)
    (ws : Client.WeaponSystem) (gs : Client.GameState) (rnd : World.Rand) :
  Client.b_active cb = true ->
  let c := Client.bullet_update enemy_ready delta cb ws gs rnd in
  Client.b_velocity (client_bullet c) = Client.b_velocity cb /\
  Client.b_position (client_bullet c) = client_moved delta cb /\
  Client.bid (client_bullet c) = Client.bid cb /\
  (client_target delta cb ws gs <> None -> Client.b_active (client_bullet c) = false) /\
  (client_target delta cb ws gs = None -> client_collides delta cb rnd = true ->
   Client.b_active (client_bullet c) = false) /\
  (Client.has_gameState ws = true ->
   (Client.b_active (client_bullet c) = false /\
    Client.bullets (client_state c)
    = Client.remove_bullet (Client.bid cb) (Client.bullets gs)) \/
   (Client.b_active (client_bullet c) = true /\
    map Client.bid (Client.bullets (client_state c)) = map Client.bid (Client.bullets gs))).
Proof.
  intros Ha c. subst c.
  unfold Client.bullet_update, client_target, client_collides, client_moved.
  rewrite Ha. cbn [negb]. cbv zeta.
  set (pos := addScaledVector (Client.b_position cb) (Client.b_velocity cb) delta).
  destruct (if Client.has_gameState ws
            then Client.enemy_in_reach pos (Client.enemies gs) else None) as [enemy|].
  - unfold Client.deactivate. cbv zeta.
    cbn [client_bullet client_state fst snd Client.b_velocity Client.b_position
         Client.bid Client.b_active Client.set_bullet].
    repeat split; auto; try discriminate. intros Hg. left. rewrite Hg.
    split; [reflexivity|].
    destruct enemy_ready; [|reflexivity].
    unfold Client.enemy_takeDamage. cbv zeta.
    destruct (PrimFloat.leb _ 0); reflexivity.
  - set (pc := if PrimFloat.ltb 0 _ then _ else _).
    destruct pc as [collided r1]. cbn [fst].
    destruct collided.
    + unfold Client.deactivate. cbv zeta.
      cbn [client_bullet client_state fst snd Client.b_velocity Client.b_position
           Client.bid Client.b_active Client.set_bullet].
      repeat split; auto; try discriminate. intros Hg. left. rewrite Hg. auto.
    + destruct (PrimFloat.leb (Client.b_life cb - delta) 0).
      * unfold Client.deactivate. cbv zeta.
        cbn [client_bullet client_state fst snd Client.b_velocity Client.b_position
             Client.bid Client.b_active Client.set_bullet].
        repeat split; auto; try discriminate. intros Hg. left. rewrite Hg. auto.
      * cbn [client_bullet client_state fst snd Client.b_velocity Client.b_position
             Client.bid Client.b_active Client.set_bullet].
        repeat split; auto; try discriminate; try (intros H; elim H; reflexivity).
        intros Hg. right. rewrite Hg. split; [reflexivity|].
        cbn [Client.set_bullets Client.bullets]. apply stored_ids. reflexivity.
Qed.



Lemma falling_bullet_bounces :
  b_bounceCount falling_bullet <= Config.BULLET_MAX_BOUNCES /\
  b_isActive falling_bullet = true /\
  in_range (vx (moved 0.1 falling_bullet)) = true /\
  in_range (vz (moved 0.1 falling_bullet)) = true /\
  hits_terrain 0.1 falling_bullet = true /\
  b_bounceCount falling_bullet < Config.BULLET_MAX_BOUNCES.
Proof. repeat split; vm_compute; try reflexivity; discriminate. Qed.




(** C8 (as amended).  [ServerBullet.update] returns a boolean.  It is false
    exactly when the bullet was inactive on entry, and then nothing changes,
    or became inactive in the call; a bullet moved to a place of finite
    coordinates (of size at most 2^53) becomes inactive exactly on a terrain
    impact past the bounce limit, on leaving the bounds of the world, when
    its life runs out, or when it hits a player; otherwise true is returned
    and the bullet is still active.  The client's [Bullet.update] returns no
    value: [undefined], whatever happens to the bullet; a bullet it
    deactivates takes itself out of the list of active bullets, and a bullet
    that stays active stays in it. *)
Theorem update_returns (delta : float) (b : ServerBullet) (ps : JsMap ServerPlayer)
    (enemy_ready : bool) (cb : Client.Bullet) (ws : Client.WeaponSystem)
    (gs : Client.GameState) (rnd : World.Rand) :
  let r := bullet_update delta b ps in
  let c := Client.bullet_update enemy_ready delta cb ws gs rnd in
  (returned r = false <->
     b_isActive b = false \/
     (b_isActive b = true /\ b_isActive (bullet_after r) = false)) /\
  (returned r = true -> b_isActive (bullet_after r) = true) /\
  (b_isActive b = false ->
     bullet_after r = b /\ players_after r = ps /\ emitted r = []) /\
  (b_isActive b = true ->
   in_range (vx (moved delta b)) = true -> in_range (vz (moved delta b)) = true ->
     b_isActive (bullet_after r)
     = negb (hits_terrain delta b && negb (b_bounceCount b <? Config.BULLET_MAX_BOUNCES))
       && negb (out_of_bounds delta b) && negb (expired delta b)
       && negb (hits_player delta b ps)) /\
  client_returned c = undefined /\
  (Client.b_active cb = true -> Client.has_gameState ws = true ->
   NoDup (map Client.bid (Client.bullets gs)) ->
     (Client.b_active (client_bullet c) = false ->
        Client.bullets (client_state c)
        = Client.remove_bullet (Client.bid cb) (Client.bullets gs) /\
        ~ In (Client.bid cb) (map Client.bid (Client.bullets (client_state c)))) /\
     (Client.b_active (client_bullet c) = true ->
        map Client.bid (Client.bullets (client_state c))
        = map Client.bid (Client.bullets gs))).
Proof.
  intros r c. change Config.BULLET_MAX_BOUNCES with 3.
  assert (Hc := client_update_undefined enemy_ready delta cb ws gs rnd). fold c in Hc.
  assert (Hl : Client.b_active cb = true -> Client.has_gameState ws = true ->
               NoDup (map Client.bid (Client.bullets gs)) ->
               (Client.b_active (client_bullet c) = false ->
                  Client.bullets (client_state c)
                  = Client.remove_bullet (Client.bid cb) (Client.bullets gs) /\
                  ~ In (Client.bid cb) (map Client.bid (Client.bullets (client_state c)))) /\
               (Client.b_active (client_bullet c) = true ->
                  map Client.bid (Client.bullets (client_state c))
                  = map Client.bid (Client.bullets gs))).
  { intros Ha Hg Hn.
    destruct (client_update_cases enemy_ready delta cb ws gs rnd Ha)
      as (_ & _ & _ & _ & _ & H).
    fold c in H. destruct (H Hg) as [[H1 H2] | [H1 H2]].
    - split; [|congruence]. intros _. split; [exact H2|].
      rewrite H2. apply removed_not_in, Hn.
    - split; [congruence|]. intros _. exact H2. }
  destruct (b_isActive b) eqn:Ha.
  - pose proof (bullet_update_cases delta b ps Ha) as H. cbv zeta in H. fold r in H.
    destruct (hits_terrain delta b && negb (b_bounceCount b <? 3)).
    + destruct H as (Hr & Hi & _). rewrite Hr, Hi. cbn [negb andb].
      split; [|split; [|split; [|split; [|split]]]]; auto; try discriminate.
      split; auto.
    + destruct H as (_ & _ & _ & Hr & Hv). rewrite <- Hr, Hv. cbn [negb andb].
      split; [|split; [|split; [|split; [|split]]]]; auto; try discriminate.
      split; [intros E; right; auto | intros [E | [_ E]]; [discriminate | exact E]].
  - subst r. rewrite (bullet_update_inactive delta b ps Ha).
    cbn [returned bullet_after players_after emitted].
    split; [|split; [|split; [|split; [|split]]]]; auto; try discriminate.
    split; auto.
Qed.

Lemma update_returns_witness :
  let r := bullet_update 0.1 falling_bullet [] in
  let c := Client.bullet_update true 0.1 diving armed diving_state
             (World_facts.always 0.5) in
  returned r = true /\ b_isActive (bullet_after r) = true /\
  client_returned c = undefined /\
  Client.b_active (client_bullet c) = false /\
  Client.bullets (client_state c)
  = Client.remove_bullet (Client.bid diving) (Client.bullets diving_state) /\
  ~ In (Client.bid diving) (map Client.bid (Client.bullets (client_state c))).
Proof.
  destruct falling_bullet_bounces as (_ & H1 & H2 & H3 & _ & _).
  destruct (update_returns 0.1 falling_bullet [] true diving armed diving_state
              (World_facts.always 0.5)) as (_ & U2 & _ & U4 & U5 & U6).
  assert (A : b_isActive (bullet_after (bullet_update 0.1 falling_bullet [])) = true).
  { rewrite (U4 H1 H2 H3). vm_compute. reflexivity. }
  assert (R : returned (bullet_update 0.1 falling_bullet []) = true)
    by (vm_compute; reflexivity).
  assert (D : Client.b_active
                (client_bullet (Client.bullet_update true 0.1 diving armed diving_state
                                  (World_facts.always 0.5))) = false)
    by (vm_compute; reflexivity).
  assert (N : NoDup (map Client.bid (Client.bullets diving_state))).
  { cbn. repeat constructor. intros []. }
  destruct (U6 eq_refl eq_refl N) as [U7 _]. destruct (U7 D) as [U8 U9].
  cbv zeta. repeat split; auto.
Defined.

(** C8 (counterexample).  A client bullet in the open air, 40 blocks up, is
    still active after [update]; the call returned [undefined], not true. *)
Lemma client_update_returns_nothing :
  let '(ret, b', _, gs', _) :=
    Client.bullet_update true 0.0166 flying armed in_flight (World_facts.always 0.5) in
  Client.b_active b' = true /\ List.length (Client.bullets gs') = 1%nat /\
  ret = undefined /\ ret <> boolean true.
Proof. vm_compute. repeat split; discriminate. Qed.

End Projectile_facts.

(** ** server.js: the maps of the game state *)
Module Server_facts.
Import Js Vec Server.

Lemma map_get_set_same {A : Type} (m : JsMap A) (k : string) (v : A) :
  map_get (map_set m k v) k = Some v.
Proof.
  induction m as [| [k' v'] m IH]; cbn [map_set map_get].
  - rewrite String.eqb_refl. reflexivity.
  - destruct (String.eqb k' k) eqn:E; cbn [map_get]; rewrite E; auto.
Qed.

Lemma map_get_set_other {A : Type} (m : JsMap A) (k k' : string) (v : A) :
  k <> k' -> map_get (map_set m k v) k' = map_get m k'.
Proof.
  intros Hk. induction m as [| [k0 v0] m IH]; cbn [map_set map_get].
  - replace (String.eqb k k') with false; [reflexivity|].
    symmetry. apply String.eqb_neq. exact Hk.
  - destruct (String.eqb k0 k) eqn:E; cbn [map_get].
    + apply String.eqb_eq in E. subst k0.
      replace (String.eqb k k') with false; [reflexivity|].
      symmetry. apply String.eqb_neq. exact Hk.
    + rewrite IH. reflexivity.
Qed.

Lemma map_get_delete_other {A : Type} (m : JsMap A) (k k' : string) :
  k <> k' -> map_get (map_delete m k) k' = map_get m k'.
Proof.
  intros Hk. induction m as [| [k0 v0] m IH]; cbn [map_delete map_get]; [reflexivity|].
  destruct (String.eqb k0 k) eqn:E; cbn [map_get].
  - apply String.eqb_eq in E. subst k0.
    replace (String.eqb k k') with false; [reflexivity|].
    symmetry. apply String.eqb_neq. exact Hk.
  - rewrite IH. reflexivity.
Qed.

End Server_facts.

(** ** Firing and reloading *)
Module Weapon_facts.
Import Js Vec.


(** A server with one player, "A", whose clip is empty and whose reserve
    holds 90 rounds. *)
Definition empty_clip : Server.ServerPlayer :=
  Server.set_ammo (Server.newPlayer "A" "A" 0) 0 90 0.

Definition one_player : Server.GameState :=
  Server.with_players (Server.initialState 0) [("A"%string, empty_clip)].


(** C9.  A reload neither creates nor destroys rounds: with the clip between
    0 and [AMMO_CAPACITY] and a reserve that is not negative, the sum of clip
    and reserve is the same after the [player-reload] handler of the server
    and after the reload timer of the client, the clip is still at most
    [AMMO_CAPACITY] and the reserve still not negative. *)
Theorem reload_conserves (sid : string) (gs : Server.GameState)
    (player : Server.ServerPlayer) (ws : Client.WeaponSystem) (cgs : Client.GameState) :
  Server.map_get (Server.players gs) sid = Some player ->
  0 <= Server.ammo player <= Config.AMMO_CAPACITY -> 0 <= Server.totalAmmo player ->
  0 <= Client.ammo cgs <= Config.AMMO_CAPACITY -> 0 <= Client.totalAmmo cgs ->
  (exists p', Server.map_get (Server.players (fst (Server.on_player_reload sid gs))) sid
              = Some p' /\
     Server.ammo p' + Server.totalAmmo p' = Server.ammo player + Server.totalAmmo player /\
     Server.ammo player <= Server.ammo p' <= Config.AMMO_CAPACITY /\
     0 <= Server.totalAmmo p') /\
  (let cgs' := snd (Client.reload_timeout ws cgs) in
   Client.ammo cgs' + Client.totalAmmo cgs' = Client.ammo cgs + Client.totalAmmo cgs /\
   Client.ammo cgs <= Client.ammo cgs' <= Config.AMMO_CAPACITY /\
   0 <= Client.totalAmmo cgs').
Proof.
  change Config.AMMO_CAPACITY with 30. intros Hp Ha Ht Hca Hct. split.
  - unfold Server.on_player_reload. rewrite Hp. change Config.AMMO_CAPACITY with 30.
    destruct ((30 <=? Server.ammo player) || (Server.totalAmmo player <=? 0)).
    + cbn [fst]. exists player. split; [exact Hp|]. lia.
    + cbn [fst Server.players Server.with_players].
      eexists. split; [apply Server_facts.map_get_set_same|].
      cbn [Server.ammo Server.totalAmmo Server.set_ammo]. lia.
  - unfold Client.reload_timeout. change Config.AMMO_CAPACITY with 30.
    cbn [snd Client.ammo Client.totalAmmo Client.set_ammo]. lia.
Qed.

Lemma reload_conserves_witness :
  (exists p', Server.map_get
                (Server.players (fst (Server.on_player_reload "A" one_player))) "A"
              = Some p' /\
     Server.ammo p' + Server.totalAmmo p'
     = Server.ammo empty_clip + Server.totalAmmo empty_clip /\
     Server.ammo empty_clip <= Server.ammo p' <= Config.AMMO_CAPACITY /\
     0 <= Server.totalAmmo p') /\
  (let cgs' := snd (Client.reload_timeout (Client.init Client.newWeaponSystem)
                      (Client.set_ammo Client.initialState 12 7)) in
   Client.ammo cgs' + Client.totalAmmo cgs'
   = Client.ammo (Client.set_ammo Client.initialState 12 7)
     + Client.totalAmmo (Client.set_ammo Client.initialState 12 7) /\
   Client.ammo (Client.set_ammo Client.initialState 12 7) <= Client.ammo cgs'
   <= Config.AMMO_CAPACITY /\
   0 <= Client.totalAmmo cgs').
Proof.
  apply (reload_conserves "A" one_player empty_clip (Client.init Client.newWeaponSystem)
           (Client.set_ammo Client.initialState 12 7)).
  - reflexivity.
  - vm_compute. split; discriminate.
  - vm_compute. discriminate.
  - vm_compute. split; discriminate.
  - vm_compute. discriminate.
Defined.

(** Whether the server took the shot: it sent a [player-shot] message. *)
Definition shot_accepted (res : Server.GameState * list Server.Event) : bool :=
  match snd res with
  | [] => false
  | _ :: _ => true
  end.

(** C7 (as amended).  On the server a shot is accepted exactly when the
    player is alive, has ammo in the clip and at least 150 ms have passed
    since the last accepted shot; on the client a shot is accepted only if
    there is ammo in the clip and at least [fireRate] ms have passed, and it
    is accepted whenever the weapon system is initialised and not reloading,
    there is ammo and more than [fireRate] ms have passed.  A shot that is
    rejected changes nothing. *)
Theorem fire_gate (sid : string) (pos vel : Vec3) (now : Z) (gs : Server.GameState)
    (player : Server.ServerPlayer) (cnow : Z) (muzzle dir : Vec3)
    (ws : Client.WeaponSystem) (cgs : Client.GameState) (r : World.Rand) :
  Server.map_get (Server.players gs) sid = Some player ->
  let res := Server.on_player_shoot sid pos vel now gs in
  let f := Client.fireWeapon cnow muzzle dir ws cgs r in
  let fireRate := Client.fireRate (Client.weapons (Client.currentWeapon ws)) in
  (shot_accepted res = true <->
     Server.isAlive player = true /\ 0 < Server.ammo player /\
     150 <= now - Server.lastShot player) /\
  (shot_accepted res = false -> res = (gs, [])) /\
  (Client.fired_ok f = true ->
     0 < Client.ammo cgs /\ fireRate <= cnow - Client.lastShot ws) /\
  (Client.has_scene ws = true -> Client.has_gameState ws = true ->
   Client.has_updateUI ws = true -> Client.isReloading ws = false ->
   0 < Client.ammo cgs -> fireRate < cnow - Client.lastShot ws ->
     Client.fired_ok f = true) /\
  (Client.fired_ok f = false ->
     Client.fired_ws f = ws /\ Client.fired_gs f = cgs /\ Client.fired_rand f = r /\
     Client.fired_bullets f = []).
Proof.
  intros Hp res f fireRate.
  split; [|split; [|split; [|split]]].
  - subst res. unfold Server.on_player_shoot. rewrite Hp.
    destruct (Server.isAlive player); cbn [negb orb].
    + destruct (Server.ammo player <=? 0) eqn:Ea.
      * apply Z.leb_le in Ea. cbn. split; [discriminate | lia].
      * apply Z.leb_gt in Ea.
        destruct (now - Server.lastShot player <? 150) eqn:El.
        -- apply Z.ltb_lt in El. cbn. split; [discriminate | lia].
        -- apply Z.ltb_ge in El. cbn. split; [intros _; repeat split; lia | reflexivity].
    + cbn. split; [discriminate | intros [H _]; discriminate].
  - subst res. unfold Server.on_player_shoot. rewrite Hp.
    destruct (negb (Server.isAlive player) || (Server.ammo player <=? 0)); [reflexivity|].
    destruct (now - Server.lastShot player <? 150); [reflexivity|].
    cbn. discriminate.
  - subst f fireRate. unfold Client.fireWeapon.
    destruct (Client.canShoot cnow ws cgs) eqn:Ec; cbn [negb orb]; [|discriminate].
    intros _. unfold Client.canShoot in Ec.
    destruct (negb (Client.has_gameState ws)); [discriminate|].
    apply andb_true_iff in Ec. destruct Ec as [Ec E3].
    apply andb_true_iff in Ec. destruct Ec as [_ E2].
    apply Z.ltb_lt in E2, E3. lia.
  - intros H1 H2 H3 H4 H5 H6. subst f fireRate. unfold Client.fireWeapon.
    assert (Ec : Client.canShoot cnow ws cgs = true).
    { unfold Client.canShoot. rewrite H2, H4. cbn [negb andb].
      apply andb_true_iff. split; apply Z.ltb_lt; lia. }
    rewrite Ec, H1, H2, H3. cbn [negb orb].
    destruct (Client.fire_pellets _ _ _ _ _ _) as [[[ws1 gs1] r1] fired].
    reflexivity.
  - subst f. unfold Client.fireWeapon.
    destruct (negb (Client.canShoot cnow ws cgs) || negb (Client.has_scene ws)
              || negb (Client.has_gameState ws) || negb (Client.has_updateUI ws)).
    + intros _. cbn. auto.
    + destruct (Client.fire_pellets _ _ _ _ _ _) as [[[ws1 gs1] r1] fired].
      cbn. discriminate.
Qed.

Definition dead_player : Server.ServerPlayer :=
  Server.set_health (Server.newPlayer "A" "A" 0) 0 false.

Definition with_dead_player : Server.GameState :=
  Server.with_players (Server.initialState 0) [("A"%string, dead_player)].

Definition origin : Vec3 := {| vx := 0; vy := 0; vz := 0 |}.
Definition ahead : Vec3 := {| vx := 0; vy := 0; vz := (-1) |}.

Definition living_player : Server.ServerPlayer := Server.newPlayer "A" "A" 0.

Definition with_living_player : Server.GameState :=
  Server.with_players (Server.initialState 0) [("A"%string, living_player)].

Lemma fire_gate_witness :
  let res := Server.on_player_shoot "A" origin ahead 1000 with_living_player in
  let ws := Client.init Client.newWeaponSystem in
  let f := Client.fireWeapon 1000 origin ahead ws Client.initialState
             (World_facts.always 0.5) in
  let fireRate := Client.fireRate (Client.weapons (Client.currentWeapon ws)) in
  (shot_accepted res = true <->
     Server.isAlive living_player = true /\ 0 < Server.ammo living_player /\
     150 <= 1000 - Server.lastShot living_player) /\
  (shot_accepted res = false -> res = (with_living_player, [])) /\
  (Client.fired_ok f = true ->
     0 < Client.ammo Client.initialState /\ fireRate <= 1000 - Client.lastShot ws) /\
  (Client.has_scene ws = true -> Client.has_gameState ws = true ->
   Client.has_updateUI ws = true -> Client.isReloading ws = false ->
   0 < Client.ammo Client.initialState -> fireRate < 1000 - Client.lastShot ws ->
     Client.fired_ok f = true) /\
  (Client.fired_ok f = false ->
     Client.fired_ws f = ws /\ Client.fired_gs f = Client.initialState /\
     Client.fired_rand f = World_facts.always 0.5 /\
     Client.fired_bullets f = []).
Proof.
  apply (fire_gate "A" origin ahead 1000 with_living_player living_player 1000
           origin ahead (Client.init Client.newWeaponSystem) Client.initialState
           (World_facts.always 0.5)).
  reflexivity.
Defined.

(** C7 (counterexample).  A weapon that is reloading does not fire although
    the clip holds 30 rounds and a second has passed since the last shot;
    neither does the server take the shot of a dead player in the same
    situation. *)
Lemma fire_rejected_by_other_gates :
  let ws := Client.set_shot (Client.init Client.newWeaponSystem) 0 true in
  let f := Client.fireWeapon 1000 origin ahead ws Client.initialState
             (World_facts.always 0.5) in
  let res := Server.on_player_shoot "A" origin ahead 1000 with_dead_player in
  (Client.fireRate (Client.weapons (Client.currentWeapon ws)) <= 1000 - Client.lastShot ws /\
   0 < Client.ammo Client.initialState /\ Client.fired_ok f = false) /\
  (150 <= 1000 - Server.lastShot dead_player /\ 0 < Server.ammo dead_player /\
   shot_accepted res = false).
Proof. vm_compute. repeat split; discriminate. Qed.







End Weapon_facts.

(** ** More on the classification of blocks *)
Module World_props.
Import Js World World_facts.

Section Terrain.
Variable permutation : list Z.

Local Abbreviation base x z := (baseHeightAt permutation (Z2F x) (Z2F z)).

Ltac split_ifs :=
  repeat match goal with
         | |- context [if ?c then _ else _] => destruct c
         end.

(** The block below the tree layer, as the tree test sees it. *)
Lemma classify_below (x y z : Z) (q r0 : Rand) :
  y = base x z + 1 ->
  classify permutation None x (y - 1) z q
  = Some (fst (getBlockType permutation x (y - 1) z r0), q).
Proof.
  intros Hy.
  rewrite (classify_no_call permutation None
             (classify permutation None x (y - 1 - 1) z q)) by lia.
  rewrite <- getBlockType_classify.
  rewrite (getBlockType_no_draw permutation x (y - 1) z q r0) by lia. reflexivity.
Qed.

(** [getBlockType] calls itself at most once: with any fuel of two or more
    the function returns, and returns the same block and random numbers. *)
Theorem getBlockType_returns (f : nat) (x y z : Z) (r : Rand) :
  getBlockTypeF permutation (S (S f)) x y z r = getBlockTypeF permutation 2 x y z r /\
  getBlockTypeF permutation (S (S f)) x y z r <> None.
Proof.
  rewrite !getBlockTypeF_fuel. split; [reflexivity | discriminate].
Qed.

(** A call reads at most one random number, and reads one only on the layer
    just above a grass surface. *)
Theorem getBlockType_draws (x y z : Z) (r : Rand) :
  let r' := snd (getBlockType permutation x y z r) in
  draws r' = draws r /\
  (used r' = used r \/
   (used r' = S (used r) /\ y = base x z + 1 /\
    fst (getBlockType permutation x (y - 1) z r) = GRASS)).
Proof.
  intros r'. subst r'.
  destruct (Z.eq_dec y (base x z + 1)) as [E | E].
  - pose proof (getBlockType_classify permutation x y z r) as H.
    rewrite (classify_below x y z r r E) in H.
    unfold classify in H.
    destruct (getBlockType permutation x y z r) as [blk r'].
    cbn [snd].
    destruct (y >? base x z + 10); [injection H as _ ->; auto|].
    destruct ((y <=? 15) && (y >? base x z)); [injection H as _ ->; auto|].
    destruct (y <=? 5); [injection H as _ ->; auto|].
    destruct (y <=? base x z);
      [revert H; split_ifs; intros H; injection H as _ ->; auto|].
    destruct (y =? base x z + 1); [|injection H as _ ->; auto].
    destruct (fst (getBlockType permutation x (y - 1) z r)) eqn:Eb;
      cbn [block_eqb block_id Z.eqb Pos.eqb] in H;
      try (injection H as _ ->; auto).
    unfold Math_random in H. revert H.
    split_ifs; intros H; injection H as _ ->; cbn [draws used]; auto.
  - rewrite (getBlockType_no_draw permutation x y z r r E). cbn [snd]. auto.
Qed.

(** At and below the surface the ground is solid: stone up to height 5 and
    three or more blocks under the surface, dirt in the two blocks under the
    surface, and sand, snow or grass on the surface. *)
Theorem ground_layers (x y z : Z) (r : Rand) :
  y <= base x z ->
  let blk := fst (getBlockType permutation x y z r) in
  (y <= 5 \/ y <= base x z - 3 -> blk = STONE) /\
  (5 < y -> base x z - 3 < y < base x z -> blk = DIRT) /\
  (5 < y -> y = base x z -> blk = SAND \/ blk = SNOW \/ blk = GRASS) /\
  Client.blocks_bullet blk = true.
Proof.
  intros Hy blk. subst blk.
  rewrite (getBlockType_no_draw permutation x y z r r) by lia.
  pose proof (getBlockType_classify permutation x y z r) as H.
  rewrite (classify_no_call permutation _ None) in H by lia.
  unfold classify in H.
  destruct (getBlockType permutation x y z r) as [blk r']. cbn [fst].
  replace (y >? base x z + 10) with false in H by (symmetry; rewrite Z.gtb_ltb; apply Z.ltb_ge; lia).
  replace (y >? base x z) with false in H by (symmetry; rewrite Z.gtb_ltb; apply Z.ltb_ge; lia).
  rewrite andb_false_r in H.
  replace (y <=? base x z) with true in H by (symmetry; apply Z.leb_le; lia).
  destruct (y <=? 5) eqn:E5.
  { apply Z.leb_le in E5. injection H as -> _.
    repeat split; intros; try reflexivity; lia. }
  apply Z.leb_gt in E5.
  destruct (y =? base x z) eqn:Eb.
  { apply Z.eqb_eq in Eb. rewrite !andb_true_r in H. revert H.
    split_ifs; intros H; injection H as -> _;
      repeat split; intros; try reflexivity; try lia; auto. }
  apply Z.eqb_neq in Eb. rewrite !andb_false_r in H.
  destruct (y >? base x z - 3) eqn:E3.
  - rewrite Z.gtb_ltb in E3. apply Z.ltb_lt in E3. injection H as -> _.
    repeat split; intros; try reflexivity; lia.
  - rewrite Z.gtb_ltb in E3. apply Z.ltb_ge in E3. injection H as -> _.
    repeat split; intros; try reflexivity; lia.
Qed.

Lemma water_iff (x y z : Z) (r : Rand) :
  fst (getBlockType permutation x y z r) = WATER <->
  y <= 15 /\ base x z < y <= base x z + 10.
Proof.
  pose proof (getBlockType_classify permutation x y z r) as H.
  destruct (Z.eq_dec y (base x z + 1)) as [E | E].
  - rewrite (classify_below x y z r r E) in H. unfold classify in H.
    destruct (getBlockType permutation x y z r) as [blk r']. cbn [fst].
    replace (y >? base x z + 10) with false in H by (symmetry; rewrite Z.gtb_ltb; apply Z.ltb_ge; lia).
    replace (y >? base x z) with true in H by (symmetry; rewrite Z.gtb_ltb; apply Z.ltb_lt; lia).
    rewrite andb_true_r in H.
    destruct (y <=? 15) eqn:E15.
    + apply Z.leb_le in E15. injection H as -> _. split; [lia | reflexivity].
    + apply Z.leb_gt in E15.
      replace (y <=? 5) with false in H by (symmetry; apply Z.leb_gt; lia).
      replace (y <=? base x z) with false in H by (symmetry; apply Z.leb_gt; lia).
      replace (y =? base x z + 1) with true in H by (symmetry; apply Z.eqb_eq; lia).
      unfold Math_random in H. revert H.
      split_ifs; intros H; injection H as -> _; (split; [discriminate | lia]).
  - rewrite (classify_no_call permutation _ None) in H by exact E.
    unfold classify in H.
    destruct (getBlockType permutation x y z r) as [blk r']. cbn [fst].
    destruct (y >? base x z + 10) eqn:E10.
    { rewrite Z.gtb_ltb in E10. apply Z.ltb_lt in E10. injection H as -> _.
      split; [discriminate | lia]. }
    rewrite Z.gtb_ltb in E10. apply Z.ltb_ge in E10.
    destruct (y <=? 15) eqn:E15; destruct (y >? base x z) eqn:Eb; cbn [andb] in H;
      rewrite ?Z.gtb_ltb in Eb;
      try (apply Z.leb_le in E15); try (apply Z.leb_gt in E15);
      try (apply Z.ltb_lt in Eb); try (apply Z.ltb_ge in Eb).
    + injection H as -> _. split; [lia | reflexivity].
    + replace (y <=? base x z) with true in H by (symmetry; apply Z.leb_le; lia).
      revert H. split_ifs; intros H; injection H as -> _; (split; [discriminate | lia]).
    + replace (y <=? 5) with false in H by (symmetry; apply Z.leb_gt; lia).
      replace (y <=? base x z) with false in H by (symmetry; apply Z.leb_gt; lia).
      replace (y =? base x z + 1) with false in H by (symmetry; apply Z.eqb_neq; lia).
      injection H as -> _. split; [discriminate | lia].
    + replace (y <=? base x z) with true in H by (symmetry; apply Z.leb_le; lia).
      revert H. split_ifs; intros H; injection H as -> _; (split; [discriminate | lia]).
Qed.

(** Water is found exactly in the ten blocks above a surface that lie at or
    under the water level 15. *)
Theorem water_zone (x y z : Z) (r : Rand) :
  fst (getBlockType permutation x y z r) = WATER <->
  y <= 15 /\ base x z < y <= base x z + 10.
Proof. apply water_iff. Qed.

(** A tree stands only one block above a grass surface, when the number
    drawn is under 0.01 and the temperature above -0.2; and no block is ever
    glass. *)
Theorem tree_placement (x y z : Z) (r : Rand) :
  (fst (getBlockType permutation x y z r) = TREE ->
     y = base x z + 1 /\
     fst (getBlockType permutation x (y - 1) z r) = GRASS /\
     PrimFloat.ltb (fst (Math_random r)) 0.01 = true /\
     PrimFloat.ltb (-0.2) (temperatureNoise permutation (Z2F x) (Z2F z)) = true) /\
  fst (getBlockType permutation x y z r) <> GLASS.
Proof.
  pose proof (getBlockType_classify permutation x y z r) as H.
  destruct (Z.eq_dec y (base x z + 1)) as [E | E].
  - rewrite (classify_below x y z r r E) in H. unfold classify in H.
    destruct (getBlockType permutation x y z r) as [blk r']. cbn [fst].
    destruct (y >? base x z + 10); [injection H as -> _; split; [discriminate|discriminate]|].
    destruct ((y <=? 15) && (y >? base x z)); [injection H as -> _; split; discriminate|].
    destruct (y <=? 5); [injection H as -> _; split; discriminate|].
    destruct (y <=? base x z);
      [revert H; split_ifs; intros H; injection H as -> _; split; discriminate|].
    destruct (y =? base x z + 1); [|injection H as -> _; split; discriminate].
    destruct (fst (getBlockType permutation x (y - 1) z r)) eqn:Eb;
      cbn [block_eqb block_id Z.eqb Pos.eqb] in H;
      try (injection H as -> _; split; discriminate).
    unfold Math_random in *. cbn [fst].
    destruct (PrimFloat.ltb (draws r (used r)) 0.01) eqn:Ed;
      destruct (PrimFloat.ltb (-0.2) (temperatureNoise permutation (Z2F x) (Z2F z))) eqn:Et;
      cbn [andb] in H; injection H as -> _; split; try discriminate; auto.
  - rewrite (classify_no_call permutation _ None) in H by exact E.
    unfold classify in H.
    destruct (getBlockType permutation x y z r) as [blk r']. cbn [fst].
    destruct (y =? base x z + 1) eqn:E'; [apply Z.eqb_eq in E'; contradiction|].
    revert H. split_ifs; intros H; injection H as -> _; split; discriminate.
Qed.

End Terrain.

Lemma ground_layers_witness :
  let blk := fst (getBlockType permutation42 0 18 0 (always 0.5)) in
  (18 <= 5 \/ 18 <= baseHeightAt permutation42 (Z2F 0) (Z2F 0) - 3 -> blk = STONE) /\
  (5 < 18 -> baseHeightAt permutation42 (Z2F 0) (Z2F 0) - 3 < 18
             < baseHeightAt permutation42 (Z2F 0) (Z2F 0) -> blk = DIRT) /\
  (5 < 18 -> 18 = baseHeightAt permutation42 (Z2F 0) (Z2F 0) ->
     blk = SAND \/ blk = SNOW \/ blk = GRASS) /\
  Client.blocks_bullet blk = true.
Proof.
  apply (ground_layers permutation42 0 18 0 (always 0.5)).
  vm_compute. discriminate.
Defined.

End World_props.

(** ** More on the terrain heights and on the noise *)
Module Terrain_props.
Import Js World World_facts.

Section Scan.
Variable permutation : list Z.

Local Abbreviation base x z := (baseHeightAt permutation (Z2F x) (Z2F z)).

Lemma scan_bounds (n : nat) (a c : Z) :
  forall r, 0 <= fst (Player.scan permutation n a c r) <= Z.of_nat n.
Proof.
  induction n as [| k IH]; intros r; cbn [Player.scan].
  - cbn [fst]. lia.
  - destruct (getBlockType permutation a (Z.of_nat k) c r) as [blk r'].
    destruct (negb (block_eqb blk AIR)); cbn [fst].
    + lia.
    + specialize (IH r'). lia.
Qed.

(** The height the client finds lies between 0 and the height of the world. *)
Theorem getTerrainHeight_bounds (x z : float) (r : Rand) :
  0 <= fst (Player.getTerrainHeight permutation x z r) <= Config.WORLD_HEIGHT.
Proof.
  unfold Player.getTerrainHeight.
  pose proof (scan_bounds (Z.to_nat Config.WORLD_HEIGHT) (floorZ x) (floorZ z) r) as H.
  rewrite Z2Nat.id in H by (unfold Config.WORLD_HEIGHT; lia). exact H.
Qed.

(** Air above the water level, over a surface that is under it. *)
Lemma air_above_water (x y z : Z) (r : Rand) :
  base x z < 15 -> 15 < y -> getBlockType permutation x y z r = (AIR, r).
Proof.
  intros Hb Hy.
  assert (H : Some (getBlockType permutation x y z r) = Some (AIR, r)); [|congruence].
  rewrite getBlockType_classify. unfold classify at 1.
  destruct (y >? base x z + 10); [reflexivity|].
  replace (y <=? 15) with false by (symmetry; apply Z.leb_gt; lia).
  cbn [andb].
  replace (y <=? 5) with false by (symmetry; apply Z.leb_gt; lia).
  replace (y <=? base x z) with false by (symmetry; apply Z.leb_gt; lia).
  replace (y =? base x z + 1) with false by (symmetry; apply Z.eqb_neq; lia).
  reflexivity.
Qed.

Lemma water_at_level (x z : Z) (r : Rand) :
  5 <= base x z < 15 -> getBlockType permutation x 15 z r = (WATER, r).
Proof.
  intros Hb.
  assert (H : Some (getBlockType permutation x 15 z r) = Some (WATER, r)); [|congruence].
  rewrite getBlockType_classify. unfold classify at 1.
  replace (15 >? base x z + 10) with false by (symmetry; rewrite Z.gtb_ltb; apply Z.ltb_ge; lia).
  replace (15 >? base x z) with true by (symmetry; rewrite Z.gtb_ltb; apply Z.ltb_lt; lia).
  reflexivity.
Qed.

Lemma scan_step (k : nat) (x z : Z) (r : Rand) :
  Player.scan permutation (S k) x z r
  = let '(b, r') := getBlockType permutation x (Z.of_nat k) z r in
    if negb (block_eqb b AIR) then (Z.of_nat k + 1, r')
    else Player.scan permutation k x z r'.
Proof. reflexivity. Qed.

Lemma scan_to_water (n : nat) (x z : Z) (r : Rand) :
  base x z < 15 -> (16 <= n)%nat ->
  Player.scan permutation n x z r = Player.scan permutation 16 x z r.
Proof.
  intros Hb. induction n as [| k IH]; intros Hn; [lia|].
  destruct (Nat.eq_dec (S k) 16) as [-> | E]; [reflexivity|].
  cbn [Player.scan].
  rewrite (air_above_water x (Z.of_nat k) z r Hb) by lia.
  cbn [block_eqb block_id Z.eqb negb]. apply IH. lia.
Qed.

(** At a point with finite coordinates of size at most 2^53, over a column
    whose surface lies under the water level (and not more than ten blocks
    under it), the client finds the top of the water, 16, whatever the
    height of the ground. *)
Theorem getTerrainHeight_flooded (x z : Z) (xf zf : float) (r : Rand) :
  in_range xf = true -> in_range zf = true ->
  floorZ xf = x -> floorZ zf = z -> 5 <= base x z < 15 ->
  fst (Player.getTerrainHeight permutation xf zf r) = 16.
Proof.
  intros _ _ Hx Hz Hb. unfold Player.getTerrainHeight. rewrite Hx, Hz.
  change (Z.to_nat Config.WORLD_HEIGHT) with 64%nat.
  rewrite scan_to_water by lia.
  change 16%nat with (S 15). rewrite scan_step.
  change (Z.of_nat 15) with 15.
  rewrite (water_at_level x z r Hb). reflexivity.
Qed.

End Scan.

Lemma getTerrainHeight_flooded_witness :
  fst (Player.getTerrainHeight permutation42 (Z2F 37) (Z2F 11) (always 0.5)) = 16.
Proof.
  apply (getTerrainHeight_flooded permutation42 37 11).
  - vm_compute; reflexivity.
  - vm_compute; reflexivity.
  - vm_compute; reflexivity.
  - vm_compute; reflexivity.
  - vm_compute. split; [discriminate | reflexivity].
Defined.

End Terrain_props.

Module PerlinNoise_props.
Import Js PerlinNoise PerlinNoise_facts.

(** The index drawn by the shuffle is never out of range: for every state of
    the generator and every turn [i] from 255 down to 1, the value
    [floor((rng / 233280) * (i + 1))] computed in doubles lies in [0, i]. *)
Theorem shuffle_index_in_range (rng i : Z) :
  0 <= rng < 233280 -> 1 <= i <= 255 -> 0 <= shuffle_index rng i <= i.
Proof. apply shuffle_index_range. Qed.

Lemma shuffle_index_in_range_witness : 0 <= shuffle_index 233279 255 <= 255.
Proof. apply (shuffle_index_in_range 233279 255); lia. Defined.

(** *** The reads of [noise] in its table *)

(** [p[k]] with the check JavaScript leaves out: [None] where the program
    would read [undefined]. *)
Definition read (permutation : list Z) (k : Z) : option Z :=
  if (0 <=? k) && (k <? Z.of_nat (List.length permutation))
  then Some (perm permutation k) else None.

Definition bind {A B} (o : option A) (f : A -> option B) : option B :=
  match o with Some a => f a | None => None end.

(** [noise], every read of the table checked. *)
Definition noise_checked (permutation : list Z) (x y z : float) : option float :=
  let p := read permutation in
  let X := Z.land (floorZ x) 255 in
  let Y := Z.land (floorZ y) 255 in
  let Z' := Z.land (floorZ z) 255 in
  let x := (x - Math_floor x)%float in
  let y := (y - Math_floor y)%float in
  let z := (z - Math_floor z)%float in
  let u := fade x in
  let v := fade y in
  let w := fade z in
  bind (p X) (fun pX => let A := pX + Y in
  bind (p A) (fun pA => let AA := pA + Z' in
  bind (p (A + 1)) (fun pA1 => let AB := pA1 + Z' in
  bind (p (X + 1)) (fun pX1 => let B := pX1 + Y in
  bind (p B) (fun pB => let BA := pB + Z' in
  bind (p (B + 1)) (fun pB1 => let BB := pB1 + Z' in
  bind (p AA) (fun hAA => bind (p BA) (fun hBA =>
  bind (p AB) (fun hAB => bind (p BB) (fun hBB =>
  bind (p (AA + 1)) (fun hAA1 => bind (p (BA + 1)) (fun hBA1 =>
  bind (p (AB + 1)) (fun hAB1 => bind (p (BB + 1)) (fun hBB1 =>
  Some
    (lerp w
       (lerp v
          (lerp u (grad hAA x y z) (grad hBA (x - 1)%float y z))
          (lerp u (grad hAB x (y - 1)%float z)
                  (grad hBB (x - 1)%float (y - 1)%float z)))
       (lerp v
          (lerp u (grad hAA1 x y (z - 1)%float)
                  (grad hBA1 (x - 1)%float y (z - 1)%float))
          (lerp u (grad hAB1 x (y - 1)%float (z - 1)%float)
                  (grad hBB1 (x - 1)%float (y - 1)%float (z - 1)%float)))))))))))))))))).

Lemma land_255 (a : Z) : 0 <= Z.land a 255 <= 255.
Proof.
  assert (E : Z.land a 255 = a mod 256).
  { change 255 with (Z.ones 8). rewrite Z.land_ones by lia. reflexivity. }
  rewrite E.
  pose proof (Z.mod_pos_bound a 256 ltac:(lia)). lia.
Qed.

Lemma perm_range (permutation : list Z) (k : Z) :
  Forall (fun v => 0 <= v <= 255) permutation -> 0 <= perm permutation k <= 255.
Proof.
  intros Hf. unfold perm.
  destruct (Nat.lt_ge_cases (Z.to_nat k) (List.length permutation)) as [Hl | Hl].
  - rewrite Forall_forall in Hf. apply Hf, nth_In, Hl.
  - rewrite nth_overflow by exact Hl. lia.
Qed.

Lemma read_in (permutation : list Z) (k : Z) :
  List.length permutation = 512%nat -> 0 <= k <= 511 ->
  read permutation k = Some (perm permutation k).
Proof.
  intros Hl Hk. unfold read. rewrite Hl.
  replace (0 <=? k) with true by (symmetry; apply Z.leb_le; lia).
  replace (k <? Z.of_nat 512) with true by (symmetry; apply Z.ltb_lt; lia).
  reflexivity.
Qed.

(** The table is doubled so that no index needs to wrap around: with 512
    entries between 0 and 255, no read of [noise] falls outside the table,
    at any point; the checked function gives the value of [noise]. *)
Theorem noise_reads_in_table (permutation : list Z) (x y z : float) :
  List.length permutation = 512%nat ->
  Forall (fun v => 0 <= v <= 255) permutation ->
  noise_checked permutation x y z = Some (noise permutation x y z).
Proof.
  intros Hl Hf. unfold noise_checked, noise.
  pose proof (land_255 (floorZ x)) as HX.
  pose proof (land_255 (floorZ y)) as HY.
  pose proof (land_255 (floorZ z)) as HZ.
  set (X := Z.land (floorZ x) 255) in *.
  set (Y := Z.land (floorZ y) 255) in *.
  set (Z' := Z.land (floorZ z) 255) in *.
  cbv zeta.
  pose proof (perm_range permutation X Hf).
  pose proof (perm_range permutation (X + 1) Hf).
  pose proof (perm_range permutation (perm permutation X + Y) Hf).
  pose proof (perm_range permutation (perm permutation X + Y + 1) Hf).
  pose proof (perm_range permutation (perm permutation (X + 1) + Y) Hf).
  pose proof (perm_range permutation (perm permutation (X + 1) + Y + 1) Hf).
  repeat (rewrite read_in by (assumption || lia); cbn [bind]).
  reflexivity.
Qed.

Lemma permutation42_shape :
  List.length World.permutation42 = 512%nat /\
  forallb (fun v => (0 <=? v) && (v <=? 255)) World.permutation42 = true.
Proof. split; vm_compute; reflexivity. Qed.

Lemma noise_reads_in_table_witness :
  noise_checked World.permutation42 0.37 0.11 0
  = Some (noise World.permutation42 0.37 0.11 0).
Proof.
  apply (noise_reads_in_table World.permutation42 0.37 0.11 0).
  - apply permutation42_shape.
  - apply Forall_forall. intros v Hv.
    destruct permutation42_shape as [_ H]. rewrite forallb_forall in H.
    specialize (H v Hv). apply andb_true_iff in H. destruct H as [H1 H2].
    apply Z.leb_le in H1, H2. lia.
Defined.

(** A table that is too short is read outside: [noise] meets [undefined]
    as soon as the cell of the point is past the entries there are. *)
Lemma short_table_read_outside :
  noise_checked (firstn 256 World.permutation42) 200.5 100.5 0 = None.
Proof. vm_compute. reflexivity. Qed.

End PerlinNoise_props.

(** ** More on the server *)
Module Server_props.
Import Js Vec Server Server_facts.

(** A run of hits on one player. *)
Fixpoint takeDamages (ds : list Z) (p : ServerPlayer) : ServerPlayer :=
  match ds with
  | [] => p
  | d :: rest => takeDamages rest (fst (takeDamage d p))
  end.

Lemma takeDamage_step (d : Z) (p : ServerPlayer) :
  0 <= d -> 0 <= health p ->
  0 <= health (fst (takeDamage d p)) <= health p /\
  (isAlive p = false -> isAlive (fst (takeDamage d p)) = false).
Proof.
  intros Hd Hh. unfold takeDamage. cbn [fst].
  destruct (health p - d <=? 0) eqn:E; cbn [health set_health isAlive].
  - split; [lia | auto].
  - apply Z.leb_gt in E. split; [lia | auto].
Qed.

(** Damage never heals and never resurrects: through any run of hits that
    are not negative the health only goes down, stays at 0 or above, and a
    dead player stays dead. *)
Theorem takeDamage_never_resurrects (ds : list Z) (p : ServerPlayer) :
  Forall (fun d => 0 <= d) ds -> 0 <= health p ->
  0 <= health (takeDamages ds p) <= health p /\
  (isAlive p = false -> isAlive (takeDamages ds p) = false).
Proof.
  revert p. induction ds as [| d rest IH]; intros p Hd Hh; cbn [takeDamages].
  - split; [lia | auto].
  - inversion Hd as [| ? ? H0 Hrest]; subst.
    destruct (takeDamage_step d p H0 Hh) as [H1 H2].
    destruct (IH (fst (takeDamage d p)) Hrest) as [H3 H4]; [lia|].
    split; [lia | auto].
Qed.

Lemma takeDamage_never_resurrects_witness :
  0 <= health (takeDamages [25; 0; 80; 25] (newPlayer "A" "A" 0))
  <= health (newPlayer "A" "A" 0) /\
  (isAlive (newPlayer "A" "A" 0) = false ->
   isAlive (takeDamages [25; 0; 80; 25] (newPlayer "A" "A" 0)) = false).
Proof.
  apply (takeDamage_never_resurrects [25; 0; 80; 25] (newPlayer "A" "A" 0)).
  - repeat constructor; lia.
  - vm_compute. discriminate.
Defined.

(** The players the loop of a bullet passes by: the owner, the dead, and
    those a unit or more away. *)
Definition passed_by (owner : string) (pos : Vec3) (kp : string * ServerPlayer) : Prop :=
  fst kp = owner \/ isAlive (snd kp) = false \/
  PrimFloat.ltb (distance pos (position (snd kp))) 1 = false.

Lemma check_players_spec (owner : string) (damage : Z) (pos : Vec3)
    (ps : JsMap ServerPlayer) :
  match check_players owner damage pos ps with
  | (ps', None) => ps' = ps /\ Forall (passed_by owner pos) ps
  | (ps', Some ev) =>
      exists before t target after,
        ps = before ++ (t, target) :: after /\
        ps' = before ++ (t, fst (takeDamage damage target)) :: after /\
        ev = PlayerHit t owner damage pos (snd (takeDamage damage target)) /\
        t <> owner /\ isAlive target = true /\
        PrimFloat.ltb (distance pos (position target)) 1 = true /\
        Forall (passed_by owner pos) before
  end.
Proof.
  induction ps as [| [k p] rest IH]; cbn [check_players].
  - split; [reflexivity | constructor].
  - destruct (String.eqb k owner) eqn:Ek; cbn [orb].
    { apply String.eqb_eq in Ek.
      destruct (check_players owner damage pos rest) as [rest' [ev|]].
      - destruct IH as (b & t & tg & a & -> & -> & Hev & Ht & Ha & Hd & Hb).
        exists ((k, p) :: b), t, tg, a. repeat split; auto.
        constructor; [left; exact Ek | exact Hb].
      - destruct IH as [-> Hf]. split; [reflexivity|].
        constructor; [left; exact Ek | exact Hf]. }
    apply String.eqb_neq in Ek.
    destruct (isAlive p) eqn:Ea; cbn [negb].
    + destruct (PrimFloat.ltb (distance pos (position p)) 1) eqn:Ed.
      * destruct (takeDamage damage p) as [p' killed] eqn:Et.
        exists [], k, p, rest. rewrite Et. cbn [fst snd app].
        repeat split; auto.
      * destruct (check_players owner damage pos rest) as [rest' [ev|]].
        -- destruct IH as (b & t & tg & a & -> & -> & Hev & Ht & Ha & Hd & Hb).
           exists ((k, p) :: b), t, tg, a. repeat split; auto.
           constructor; [right; right; exact Ed | exact Hb].
        -- destruct IH as [-> Hf]. split; [reflexivity|].
           constructor; [right; right; exact Ed | exact Hf].
    + destruct (check_players owner damage pos rest) as [rest' [ev|]].
      * destruct IH as (b & t & tg & a & -> & -> & Hev & Ht & Ha' & Hd & Hb).
        exists ((k, p) :: b), t, tg, a. repeat split; auto.
        constructor; [right; left; exact Ea | exact Hb].
      * destruct IH as [-> Hf]. split; [reflexivity|].
        constructor; [right; left; exact Ea | exact Hf].
Qed.

(** A bullet hits at most one player per tick, the first in the order of the
    map who is not its owner, is alive and is less than one unit away: that
    player takes the damage of the bullet, every other player is left as it
    was, and the hit message names the target, the owner as shooter, the
    damage and whether the target died.  Without such a player nothing
    changes and nothing is sent. *)
Theorem bullet_hits_first_in_reach (owner : string) (damage : Z) (pos : Vec3)
    (ps : JsMap ServerPlayer) :
  match check_players owner damage pos ps with
  | (ps', None) => ps' = ps /\ Forall (passed_by owner pos) ps
  | (ps', Some ev) =>
      exists before t target after,
        ps = before ++ (t, target) :: after /\
        ps' = before ++ (t, fst (takeDamage damage target)) :: after /\
        ev = PlayerHit t owner damage pos (snd (takeDamage damage target)) /\
        t <> owner /\ isAlive target = true /\
        PrimFloat.ltb (distance pos (position target)) 1 = true /\
        Forall (passed_by owner pos) before
  end.
Proof. apply check_players_spec. Qed.

Lemma check_players_keys (owner : string) (damage : Z) (pos : Vec3)
    (ps : JsMap ServerPlayer) :
  map fst (fst (check_players owner damage pos ps)) = map fst ps.
Proof.
  pose proof (check_players_spec owner damage pos ps) as H.
  destruct (check_players owner damage pos ps) as [ps' [ev|]]; cbn [fst].
  - destruct H as (b & t & tg & a & -> & -> & _).
    rewrite !map_app. reflexivity.
  - destruct H as [-> _]. reflexivity.
Qed.

Ltac bullet_ways :=
  unfold bullet_update; cbv zeta;
  destruct (negb (b_isActive _));
  [| set (th := Z2F (getTerrainHeight _ _));
     repeat match goal with
            | |- context [if ?c then _ else _] => destruct c
            end ].

Lemma bullet_update_keys (delta : float) (b : ServerBullet) (ps : JsMap ServerPlayer) :
  map fst (players_after (bullet_update delta b ps)) = map fst ps.
Proof.
  bullet_ways; cbn [players_after]; try reflexivity;
    match goal with
    | |- context [check_players ?o ?d ?p ps] =>
        pose proof (check_players_keys o d p ps) as H;
        destruct (check_players o d p ps) as [ps' [ev|]]
    end; cbn [players_after fst] in *; exact H.
Qed.

Lemma bullet_update_active (delta : float) (b : ServerBullet) (ps : JsMap ServerPlayer) :
  returned (bullet_update delta b ps) = true ->
  b_isActive (bullet_after (bullet_update delta b ps)) = true.
Proof.
  bullet_ways; cbn [returned bullet_after]; try discriminate;
    match goal with
    | |- context [check_players ?o ?d ?p ps] =>
        destruct (check_players o d p ps) as [ps' [ev|]]
    end; cbn [returned bullet_after b_isActive set_bullet]; auto.
Qed.

Lemma update_bullets_spec (delta : float) (bs : JsMap ServerBullet) :
  forall ps,
  let '(bs', ps', evs) := update_bullets delta bs ps in
  Forall (fun kb => b_isActive (snd kb) = true) bs' /\
  incl (map fst bs') (map fst bs) /\
  (List.length bs' <= List.length bs)%nat /\
  map fst ps' = map fst ps.
Proof.
  induction bs as [| [k b] rest IH]; intros ps; cbn [update_bullets].
  - repeat split; auto. apply incl_refl.
  - specialize (IH (players_after (bullet_update delta b ps))).
    destruct (update_bullets delta rest (players_after (bullet_update delta b ps)))
      as [[rest' ps'] evs].
    destruct IH as (Hf & Hi & Hl & Hk).
    rewrite bullet_update_keys in Hk.
    destruct (returned (bullet_update delta b ps)) eqn:Er.
    + repeat split; auto.
      * constructor; [apply bullet_update_active; exact Er | exact Hf].
      * cbn [map fst]. intros a [<- | Ha]; [left; reflexivity | right; apply Hi, Ha].
      * cbn [List.length]. lia.
    + repeat split; auto.
      * cbn [map fst]. intros a Ha. right. apply Hi, Ha.
      * cbn [List.length]. lia.
Qed.

(** After a turn of the game loop every bullet left in the map is active (a
    bullet whose update returned false was deleted), no bullet was added,
    the same players are there in the same order, and the clock of the state
    is the time of the turn. *)
Theorem gameLoop_evicts_inactive (now : Z) (gs : GameState) :
  let gs' := fst (gameLoop now gs) in
  Forall (fun kb => b_isActive (snd kb) = true) (bullets gs') /\
  incl (map fst (bullets gs')) (map fst (bullets gs)) /\
  (List.length (bullets gs') <= List.length (bullets gs))%nat /\
  map fst (players gs') = map fst (players gs) /\
  lastUpdate gs' = now /\ bulletIdCounter gs' = bulletIdCounter gs.
Proof.
  unfold gameLoop.
  pose proof (update_bullets_spec (Z2F (now - lastUpdate gs) / 1000)%float (bullets gs)
                (update_players (Z2F (now - lastUpdate gs) / 1000)%float (players gs))) as H.
  destruct (update_bullets _ (bullets gs) _) as [[bs ps'] evs].
  destruct H as (Hf & Hi & Hl & Hk).
  cbn [fst bullets players lastUpdate bulletIdCounter].
  repeat split; auto.
  rewrite Hk. unfold update_players. rewrite map_map.
  apply map_ext. intros [k p]. reflexivity.
Qed.

(** What [update] sends: nothing, or one hit, and then it returns false. *)
Definition is_hit (ev : Event) : Prop :=
  match ev with
  | PlayerHit target shooter _ _ _ => target <> shooter
  | _ => False
  end.

Lemma bullet_update_emits (delta : float) (b : ServerBullet) (ps : JsMap ServerPlayer) :
  emitted (bullet_update delta b ps) = [] \/
  (exists ev, emitted (bullet_update delta b ps) = [ev] /\ is_hit ev /\
              returned (bullet_update delta b ps) = false).
Proof.
  bullet_ways; cbn [emitted returned]; auto;
    match goal with
    | |- context [check_players ?o ?d ?p ps] =>
        pose proof (check_players_spec o d p ps) as H;
        destruct (check_players o d p ps) as [ps' [ev|]]
    end; cbn [emitted returned]; auto;
    right; exists ev; (split; [reflexivity|]); (split; [|reflexivity]);
    destruct H as (bf & t & tg & af & _ & _ & -> & Ht & _); exact Ht.
Qed.

Lemma update_bullets_events (delta : float) (bs : JsMap ServerBullet) :
  forall ps,
  let '(bs', ps', evs) := update_bullets delta bs ps in
  Forall is_hit evs /\
  (List.length evs + List.length bs' <= List.length bs)%nat.
Proof.
  induction bs as [| [k b] rest IH]; intros ps; cbn [update_bullets].
  - split; [constructor | cbn; lia].
  - specialize (IH (players_after (bullet_update delta b ps))).
    destruct (update_bullets delta rest (players_after (bullet_update delta b ps)))
      as [[rest' ps'] evs].
    destruct IH as [Hf Hl].
    destruct (bullet_update_emits delta b ps) as [-> | (ev & -> & Hev & ->)].
    + cbn [app]. split; [exact Hf|].
      destruct (returned (bullet_update delta b ps)); cbn [List.length]; lia.
    + cbn [app List.length]. split; [constructor; assumption | lia].
Qed.

(** What a turn of the game loop sends: the hits of the bullets, then one
    [game-update] with the players and the bullets as they are after the
    turn.  A hit never names its shooter as the target, and every bullet
    that hits is gone: the hits and the bullets left are together no more
    than the bullets there were. *)
Theorem gameLoop_broadcast (now : Z) (gs : GameState) :
  let gs' := fst (gameLoop now gs) in
  exists hits,
    snd (gameLoop now gs) = hits ++ [GameUpdate (players gs') (bullets gs') now] /\
    Forall is_hit hits /\
    (List.length hits + List.length (bullets gs') <= List.length (bullets gs))%nat.
Proof.
  unfold gameLoop.
  pose proof (update_bullets_events (Z2F (now - lastUpdate gs) / 1000)%float (bullets gs)
                (update_players (Z2F (now - lastUpdate gs) / 1000)%float (players gs))) as H.
  destruct (update_bullets _ (bullets gs) _) as [[bs ps'] evs].
  destruct H as [Hf Hl]. cbn [fst snd players bullets].
  exists evs. auto.
Qed.

End Server_props.

(** ** The states the server reaches *)
Module Server_runs.
Import Js Vec Server Events Server_facts Server_props.

(** *** Maps *)

Lemma map_set_Forall {A} (P : string * A -> Prop) (m : JsMap A) (k : string) (v : A) :
  Forall P m -> P (k, v) -> Forall P (map_set m k v).
Proof.
  intros Hm Hv. induction Hm as [| [k' v'] r Hx Hr IH]; cbn [map_set].
  - repeat constructor. exact Hv.
  - destruct (String.eqb k' k) eqn:E.
    + apply String.eqb_eq in E. subst k'. constructor; assumption.
    + constructor; assumption.
Qed.

Lemma map_set_old {A} (m : JsMap A) (k : string) (v : A) :
  In k (map fst m) -> map fst (map_set m k v) = map fst m.
Proof.
  induction m as [| [k' v'] r IH]; cbn [map_set map fst In]; [tauto|].
  intros H. destruct (String.eqb k' k) eqn:E; [reflexivity|].
  apply String.eqb_neq in E. cbn [map fst]. f_equal. apply IH.
  destruct H; [contradiction | assumption].
Qed.

Lemma map_set_new {A} (m : JsMap A) (k : string) (v : A) :
  ~ In k (map fst m) -> map_set m k v = m ++ [(k, v)].
Proof.
  induction m as [| [k' v'] r IH]; cbn [map_set map fst In app]; [reflexivity|].
  intros H. destruct (String.eqb k' k) eqn:E.
  - apply String.eqb_eq in E. tauto.
  - f_equal. apply IH. tauto.
Qed.

Lemma map_set_NoDup {A} (m : JsMap A) (k : string) (v : A) :
  NoDup (map fst m) -> NoDup (map fst (map_set m k v)).
Proof.
  intros Hm. destruct (in_dec string_dec k (map fst m)) as [Hin | Hnew].
  - rewrite map_set_old by assumption. exact Hm.
  - rewrite map_set_new by assumption. rewrite map_app. cbn [map fst].
    apply NoDup_app; [exact Hm | repeat constructor; auto |].
    intros a Ha [<- | []]. contradiction.
Qed.

Lemma map_get_Forall {A} (P : string * A -> Prop) (m : JsMap A) (k : string) (v : A) :
  Forall P m -> map_get m k = Some v -> P (k, v).
Proof.
  intros Hm. induction Hm as [| [k' v'] r Hx Hr IH]; cbn [map_get]; [discriminate|].
  destruct (String.eqb k' k) eqn:E; [|exact IH].
  apply String.eqb_eq in E. subst k'. intros [= <-]. exact Hx.
Qed.

Lemma map_get_In {A} (m : JsMap A) (k : string) (v : A) :
  map_get m k = Some v -> In k (map fst m).
Proof.
  induction m as [| [k' v'] r IH]; cbn [map_get map fst In]; [discriminate|].
  destruct (String.eqb k' k) eqn:E; [|auto].
  apply String.eqb_eq in E. auto.
Qed.

Lemma map_delete_Forall {A} (P : string * A -> Prop) (m : JsMap A) (k : string) :
  Forall P m -> Forall P (map_delete m k).
Proof.
  intros Hm. induction Hm as [| [k' v'] r Hx Hr IH]; cbn [map_delete]; [constructor|].
  destruct (String.eqb k' k); [assumption | constructor; assumption].
Qed.

Lemma map_delete_keys {A} (m : JsMap A) (k : string) :
  incl (map fst (map_delete m k)) (map fst m).
Proof.
  induction m as [| [k' v'] r IH]; cbn [map_delete map fst]; [apply incl_refl|].
  destruct (String.eqb k' k); [apply incl_tl, incl_refl|].
  cbn [map fst]. intros a [<- | Ha]; [left; reflexivity | right; apply IH, Ha].
Qed.

Lemma map_delete_NoDup {A} (m : JsMap A) (k : string) :
  NoDup (map fst m) -> NoDup (map fst (map_delete m k)).
Proof.
  induction m as [| [k' v'] r IH]; cbn [map_delete map fst]; [auto|].
  intros Hn. inversion Hn as [| ? ? Hk Hr]; subst.
  destruct (String.eqb k' k); [exact Hr|].
  cbn [map fst]. constructor; [|apply IH, Hr].
  intros Hin. apply Hk. apply (map_delete_keys r k), Hin.
Qed.

Lemma map_delete_gone {A} (m : JsMap A) (k : string) :
  NoDup (map fst m) -> map_get (map_delete m k) k = None.
Proof.
  induction m as [| [k' v'] r IH]; cbn [map_delete map_get map fst]; [reflexivity|].
  intros Hn. inversion Hn as [| ? ? Hk Hr]; subst.
  destruct (String.eqb k' k) eqn:E.
  - apply String.eqb_eq in E. subst k'.
    destruct (map_get r k) eqn:G; [|reflexivity].
    elim Hk. eapply map_get_In, G.
  - cbn [map_get]. rewrite E. apply IH, Hr.
Qed.

(** *** The identifiers of bullets *)

Definition underscore : Ascii.ascii :=
  Ascii.Ascii true true true true true false true false.

Fixpoint has_underscore (s : string) : bool :=
  match s with
  | EmptyString => false
  | String c r => Ascii.eqb c underscore || has_underscore r
  end.

Lemma has_underscore_app (s t : string) :
  has_underscore (s ++ t) = has_underscore s || has_underscore t.
Proof.
  induction s as [| c r IH]; cbn [append has_underscore]; [reflexivity|].
  rewrite IH, orb_assoc. reflexivity.
Qed.

Lemma digits_no_underscore (d : Decimal.uint) :
  has_underscore (NilEmpty.string_of_uint d) = false.
Proof. induction d; cbn [NilEmpty.string_of_uint has_underscore]; auto. Qed.

Lemma decimal_no_underscore (n : Z) : has_underscore (decimal n) = false.
Proof.
  unfold decimal, NilZero.string_of_int.
  destruct (Z.to_int n) as [d | d]; destruct d;
    cbn [NilZero.string_of_uint has_underscore];
    try reflexivity; apply digits_no_underscore.
Qed.

Lemma decimal_inj (n m : Z) : decimal n = decimal m -> n = m.
Proof.
  unfold decimal. intros H. apply DecimalZ.to_int_inj.
  assert (Hs : forall k, NilZero.int_of_string (NilZero.string_of_int (Z.to_int k))
                         = Some (Z.to_int k)).
  { intros k. apply NilZero.isi; destruct k; cbn [Z.to_int]; try discriminate;
      intros [= E]; revert E; apply DecimalPos.Unsigned.to_uint_nonnil. }
  apply (f_equal NilZero.int_of_string) in H. rewrite !Hs in H.
  injection H as H. exact H.
Qed.

(** The text after the last underscore decides the number. *)
Lemma last_field (s t d e : string) :
  has_underscore d = false -> has_underscore e = false ->
  (s ++ String underscore d = t ++ String underscore e)%string -> d = e.
Proof.
  intros Hd He. revert t.
  induction s as [| c s IH]; intros [| c' t]; cbn [append]; intros H.
  - injection H as H. exact H.
  - injection H as _ H. subst d. rewrite has_underscore_app in Hd.
    cbn [has_underscore] in Hd. rewrite Ascii.eqb_refl in Hd.
    cbn [orb] in Hd. rewrite orb_true_r in Hd. discriminate.
  - injection H as _ H. subst e. rewrite has_underscore_app in He.
    cbn [has_underscore] in He. rewrite Ascii.eqb_refl in He.
    cbn [orb] in He. rewrite orb_true_r in He. discriminate.
  - injection H as _ H. apply (IH t H).
Qed.

Lemma bulletId_counter (s t : string) (n m : Z) :
  bulletId s n = bulletId t m -> n = m.
Proof.
  unfold bulletId. intros H. apply decimal_inj.
  apply (last_field ("bullet_" ++ s) ("bullet_" ++ t));
    try apply decimal_no_underscore.
  unfold underscore. cbn [append] in H |- *. exact H.
Qed.

Section Runs.
Variables Math_sin Math_cos : float -> float.

Local Abbreviation handle := (Events.handle Math_sin Math_cos).
Local Abbreviation run := (Events.run Math_sin Math_cos).

(** *** What holds in every state *)

Definition sound_player (p : ServerPlayer) : Prop :=
  0 <= health p <= Config.MAX_HEALTH /\
  0 <= ammo p <= Config.AMMO_CAPACITY /\
  0 <= totalAmmo p /\
  ammo p + totalAmmo p <= Config.AMMO_CAPACITY + Config.TOTAL_AMMO /\
  (isAlive p = true <-> 0 < health p).

Definition sound_bullet (counter : Z) (kb : string * ServerBullet) : Prop :=
  b_id (snd kb) = fst kb /\
  b_damage (snd kb) = Config.BULLET_DAMAGE /\
  0 <= b_bounceCount (snd kb) <= Config.BULLET_MAX_BOUNCES /\
  exists c, 1 <= c <= counter /\ fst kb = bulletId (b_ownerId (snd kb)) c.

Record sound (gs : GameState) : Prop := mkSound {
  players_ok : Forall (fun kp => sound_player (snd kp)) (players gs);
  bullets_ok : Forall (sound_bullet (bulletIdCounter gs)) (bullets gs);
  player_keys : NoDup (map fst (players gs));
  bullet_keys : NoDup (map fst (bullets gs));
  counter_ok : 0 <= bulletIdCounter gs
}.

Ltac constants :=
  unfold sound_player, sound_bullet, Config.MAX_HEALTH, Config.AMMO_CAPACITY,
    Config.TOTAL_AMMO, Config.BULLET_DAMAGE, Config.BULLET_MAX_BOUNCES in *.

Lemma takeDamage_sound (d : Z) (p : ServerPlayer) :
  0 <= d -> sound_player p -> sound_player (fst (takeDamage d p)).
Proof.
  intros Hd. constants. intros (Hh & Ha & Ht & Hs & Hl).
  unfold takeDamage. cbn [fst].
  destruct (health p - d <=? 0) eqn:E;
    cbn [health ammo totalAmmo isAlive set_health].
  - repeat split; try lia; try discriminate.
  - apply Z.leb_gt in E. repeat split; try lia.
    intros _. apply Hl. lia.
Qed.

Lemma player_update_sound (delta : float) (p : ServerPlayer) :
  sound_player p -> sound_player (player_update delta p).
Proof.
  unfold player_update. cbv zeta.
  destruct (PrimFloat.leb _ _); intros H; exact H.
Qed.

Lemma check_players_sound (owner : string) (d : Z) (pos : Vec3)
    (ps : JsMap ServerPlayer) :
  0 <= d -> Forall (fun kp => sound_player (snd kp)) ps ->
  Forall (fun kp => sound_player (snd kp)) (fst (check_players owner d pos ps)).
Proof.
  intros Hd Hps.
  pose proof (check_players_spec owner d pos ps) as H.
  destruct (check_players owner d pos ps) as [ps' [ev|]]; cbn [fst].
  - destruct H as (b & t & tg & a & -> & -> & _).
    apply Forall_app in Hps. destruct Hps as [Hb Ha].
    inversion Ha as [| ? ? Ht Ha']; subst.
    apply Forall_app. split; [exact Hb|].
    constructor; [|exact Ha']. cbn [snd] in *. apply takeDamage_sound; assumption.
  - destruct H as [-> _]. exact Hps.
Qed.

Lemma bullet_update_sound (delta : float) (b : ServerBullet) (ps : JsMap ServerPlayer)
    (c : Z) (k : string) :
  sound_bullet c (k, b) -> Forall (fun kp => sound_player (snd kp)) ps ->
  sound_bullet c (k, bullet_after (bullet_update delta b ps)) /\
  Forall (fun kp => sound_player (snd kp)) (players_after (bullet_update delta b ps)).
Proof.
  intros Hb Hps.
  assert (Hd : 0 <= b_damage b).
  { destruct Hb as (_ & Hd & _). cbn [snd] in Hd. rewrite Hd. constants. lia. }
  assert (Hfix : b_id (bullet_after (bullet_update delta b ps)) = b_id b /\
                 b_damage (bullet_after (bullet_update delta b ps)) = b_damage b /\
                 b_ownerId (bullet_after (bullet_update delta b ps)) = b_ownerId b /\
                 Forall (fun kp => sound_player (snd kp))
                   (players_after (bullet_update delta b ps))).
  { bullet_ways; cbn [bullet_after players_after]; auto;
      match goal with
      | |- context [check_players ?o ?d ?p ps] =>
          pose proof (check_players_sound o d p ps Hd Hps) as H;
          destruct (check_players o d p ps) as [ps' [ev|]]
      end; cbn [bullet_after players_after fst] in *; auto. }
  destruct Hfix as (Hi & Hg & Ho & Hp). split; [|exact Hp].
  destruct Hb as (Hb1 & Hb2 & Hb3 & cnt & Hc & Hk). cbn [fst snd] in *.
  unfold sound_bullet. cbn [fst snd]. rewrite Hi, Hg, Ho.
  split; [exact Hb1|]. split; [exact Hb2|]. split; [|exists cnt; auto].
  constants.
  destruct (b_isActive b) eqn:Ha.
  - pose proof (Projectile_facts.bullet_update_cases delta b ps Ha) as H.
    cbv zeta in H.
    destruct (Projectile_facts.hits_terrain delta b); cbn [andb] in H.
    + destruct (b_bounceCount b <? 3) eqn:Ec; cbn [negb] in H.
      * apply Z.ltb_lt in Ec. destruct H as (_ & -> & _). lia.
      * destruct H as (_ & _ & -> & _). lia.
    + destruct H as (_ & -> & _). lia.
  - unfold bullet_update. rewrite Ha. cbn [negb bullet_after]. lia.
Qed.

Lemma update_bullets_sound (delta : float) (c : Z) (bs : JsMap ServerBullet) :
  forall ps,
  Forall (fun kp => sound_player (snd kp)) ps ->
  Forall (sound_bullet c) bs ->
  let '(bs', ps', evs) := update_bullets delta bs ps in
  Forall (sound_bullet c) bs' /\ Forall (fun kp => sound_player (snd kp)) ps'.
Proof.
  induction bs as [| [k b] rest IH]; intros ps Hps Hbs; cbn [update_bullets].
  - split; [constructor | exact Hps].
  - inversion Hbs as [| ? ? Hb Hrest]; subst.
    destruct (bullet_update_sound delta b ps c k Hb Hps) as [Hb' Hps'].
    specialize (IH (players_after (bullet_update delta b ps)) Hps' Hrest).
    destruct (update_bullets delta rest (players_after (bullet_update delta b ps)))
      as [[rest' ps'] evs].
    destruct IH as [H1 H2]. split; [|exact H2].
    destruct (returned (bullet_update delta b ps)); [constructor|]; assumption.
Qed.

Lemma incl_NoDup_cons {A} (k : A) (l l' : list A) :
  ~ In k l -> incl l' l -> ~ In k l'.
Proof. intros Hk Hi Hin. apply Hk, Hi, Hin. Qed.

Lemma update_bullets_keys (delta : float) (bs : JsMap ServerBullet) :
  forall ps,
  NoDup (map fst bs) ->
  NoDup (map fst (fst (fst (update_bullets delta bs ps)))) /\
  incl (map fst (fst (fst (update_bullets delta bs ps)))) (map fst bs).
Proof.
  induction bs as [| [k b] rest IH]; intros ps Hn; cbn [update_bullets].
  - cbn. split; [constructor | apply incl_refl].
  - inversion Hn as [| ? ? Hk Hr]; subst.
    specialize (IH (players_after (bullet_update delta b ps)) Hr).
    destruct (update_bullets delta rest (players_after (bullet_update delta b ps)))
      as [[rest' ps'] evs].
    cbn [fst] in *. destruct IH as [H1 H2].
    destruct (returned (bullet_update delta b ps)); cbn [map fst].
    + split.
      * constructor; [|exact H1]. eapply incl_NoDup_cons; eauto.
      * intros a [<- | Ha]; [left; reflexivity | right; apply H2, Ha].
    + split; [exact H1|]. intros a Ha. right. apply H2, Ha.
Qed.

Lemma sound_bullet_mono (c c' : Z) (kb : string * ServerBullet) :
  c <= c' -> sound_bullet c kb -> sound_bullet c' kb.
Proof.
  intros Hc (H1 & H2 & H3 & n & Hn & Hk).
  repeat split; try assumption; try apply H3. exists n. split; [lia | exact Hk].
Qed.

(** No bullet of a sound state has the identifier of the next shot. *)
Lemma next_id_new (gs : GameState) (sid : string) :
  sound gs -> ~ In (bulletId sid (bulletIdCounter gs + 1)) (map fst (bullets gs)).
Proof.
  intros Hs Hin. apply in_map_iff in Hin. destruct Hin as ([k b] & Hk & Hin).
  cbn [fst] in Hk. subst k.
  pose proof (bullets_ok gs Hs) as Hb. rewrite Forall_forall in Hb.
  destruct (Hb _ Hin) as (_ & _ & _ & n & Hn & Hk). cbn [fst snd] in Hk.
  apply bulletId_counter in Hk. lia.
Qed.

Lemma handle_sound (gs : GameState) (m : Message) :
  sound gs ->
  sound (handle gs m) /\
  bulletIdCounter gs <= bulletIdCounter (handle gs m) <= bulletIdCounter gs + 1.
Proof.
  intros Hs. pose proof Hs as [Hp Hb Hpk Hbk Hc].
  destruct m as [sid now | sid input rot sq now | sid pos vel now | sid | sid | now];
    cbn [handle].
  - (* connection *)
    unfold on_connection. cbn [fst]. split; [|cbn; lia].
    constructor; cbn [with_players players bullets bulletIdCounter]; auto.
    + apply map_set_Forall; [exact Hp|]. cbn [snd]. unfold sound_player.
      cbn [newPlayer health ammo totalAmmo isAlive]. constants.
      repeat split; try lia; auto.
    + apply map_set_NoDup, Hpk.
  - (* input *)
    unfold on_player_input.
    destruct (map_get (players gs) sid) as [p|] eqn:G; [|cbn [fst]; split; [exact Hs | lia]].
    destruct (negb (isAlive p)); [cbn [fst]; split; [exact Hs | lia]|].
    destruct (now - lastInputTime p <? 16); [cbn [fst]; split; [exact Hs | lia]|].
    cbv zeta. split; [|cbn; lia].
    constructor; cbn [with_players players bullets bulletIdCounter]; auto.
    + apply map_set_Forall; [exact Hp|].
      apply (map_get_Forall _ _ _ _ Hp) in G. cbn [snd] in G |- *.
      unfold sound_player in *. cbn [health ammo totalAmmo isAlive]. exact G.
    + apply map_set_NoDup, Hpk.
  - (* shot *)
    unfold on_player_shoot.
    destruct (map_get (players gs) sid) as [p|] eqn:G; [|cbn [fst]; split; [exact Hs | lia]].
    destruct (negb (isAlive p) || (ammo p <=? 0)) eqn:E1; [cbn [fst]; split; [exact Hs | lia]|].
    destruct (now - lastShot p <? 150); [cbn [fst]; split; [exact Hs | lia]|].
    cbv zeta. cbn [fst]. split; [|cbn; lia].
    apply orb_false_iff in E1. destruct E1 as [_ E1]. apply Z.leb_gt in E1.
    apply (map_get_Forall _ _ _ _ Hp) in G. cbn [snd] in G.
    constructor; cbn [players bullets bulletIdCounter].
    + apply map_set_Forall; [exact Hp|]. cbn [snd]. revert G. constants.
      cbn [set_ammo health ammo totalAmmo isAlive]. intros (H1 & H2 & H3 & H4 & H5).
      repeat split; try lia; apply H5.
    + apply map_set_Forall.
      * eapply Forall_impl; [|exact Hb]. intros kb. apply sound_bullet_mono. lia.
      * unfold sound_bullet. cbn [fst snd newBullet b_id b_damage b_bounceCount b_ownerId].
        constants. repeat split; try lia.
        exists (bulletIdCounter gs + 1). split; [lia | reflexivity].
    + apply map_set_NoDup, Hpk.
    + apply map_set_NoDup, Hbk.
    + lia.
  - (* reload *)
    unfold on_player_reload.
    destruct (map_get (players gs) sid) as [p|] eqn:G; [|cbn [fst]; split; [exact Hs | lia]].
    destruct ((Config.AMMO_CAPACITY <=? ammo p) || (totalAmmo p <=? 0)) eqn:E1;
      [cbn [fst]; split; [exact Hs | lia]|].
    cbv zeta. cbn [fst]. split; [|cbn; lia].
    apply orb_false_iff in E1. destruct E1 as [E1 E2].
    apply Z.leb_gt in E1, E2.
    apply (map_get_Forall _ _ _ _ Hp) in G. cbn [snd] in G.
    constructor; cbn [with_players players bullets bulletIdCounter]; auto.
    + apply map_set_Forall; [exact Hp|]. cbn [snd]. revert G E1. constants.
      cbn [set_ammo health ammo totalAmmo isAlive]. intros (H1 & H2 & H3 & H4 & H5) E1.
      repeat split; try lia; apply H5.
    + apply map_set_NoDup, Hpk.
  - (* disconnect *)
    unfold on_disconnect. cbn [fst]. split; [|cbn; lia].
    constructor; cbn [with_players players bullets bulletIdCounter]; auto.
    + apply map_delete_Forall, Hp.
    + apply map_delete_NoDup, Hpk.
  - (* game loop *)
    unfold gameLoop.
    set (delta := (Z2F (now - lastUpdate gs) / 1000)%float).
    assert (Hp' : Forall (fun kp => sound_player (snd kp))
                    (update_players delta (players gs))).
    { unfold update_players. apply Forall_map.
      eapply Forall_impl; [|exact Hp]. intros [k p] H. cbn [snd] in *.
      apply player_update_sound, H. }
    pose proof (update_bullets_sound delta (bulletIdCounter gs) (bullets gs) _ Hp' Hb) as H1.
    pose proof (update_bullets_keys delta (bullets gs)
                  (update_players delta (players gs)) Hbk) as [H2 _].
    pose proof (update_bullets_spec delta (bullets gs)
                  (update_players delta (players gs))) as H3.
    destruct (update_bullets delta (bullets gs) (update_players delta (players gs)))
      as [[bs ps'] evs].
    cbn [fst] in *. destruct H1 as [H1 H1']. destruct H3 as (_ & _ & _ & H3).
    split; [|cbn; lia].
    constructor; cbn [players bullets bulletIdCounter]; auto.
    rewrite H3. unfold update_players. rewrite map_map.
    erewrite map_ext; [exact Hpk|]. intros [k p]. reflexivity.
Qed.

Lemma initial_sound (now : Z) : sound (initialState now).
Proof.
  constructor; cbn [initialState players bullets bulletIdCounter];
    try constructor; lia.
Qed.

Lemma run_sound (ms : list Message) :
  forall gs, sound gs ->
  sound (run ms gs) /\
  bulletIdCounter gs <= bulletIdCounter (run ms gs)
  <= bulletIdCounter gs + Z.of_nat (List.length ms).
Proof.
  induction ms as [| m ms IH]; intros gs Hs; cbn [run fold_left List.length].
  - cbn [fst]; split; [exact Hs | lia].
  - destruct (handle_sound gs m Hs) as [H1 H2].
    destruct (IH _ H1) as [H3 H4]. unfold run in H3, H4.
    split; [exact H3 | lia].
Qed.

(** In every state the server reaches from its start, whatever the
    messages and their order: the players' keys are distinct; each player
    has a health from 0 to [MAX_HEALTH], a clip from 0 to [AMMO_CAPACITY], a
    reserve that is not negative, at most the rounds it started with, and is
    alive exactly when its health is positive; each bullet is stored under
    its own identifier, deals [BULLET_DAMAGE] and has bounced at most
    [BULLET_MAX_BOUNCES] times. *)
Theorem server_keeps_bounds (ms : list Message) (start : Z) :
  let gs := run ms (initialState start) in
  NoDup (map fst (players gs)) /\
  NoDup (map fst (bullets gs)) /\
  Forall (fun kp =>
            0 <= health (snd kp) <= Config.MAX_HEALTH /\
            0 <= ammo (snd kp) <= Config.AMMO_CAPACITY /\
            0 <= totalAmmo (snd kp) /\
            ammo (snd kp) + totalAmmo (snd kp)
            <= Config.AMMO_CAPACITY + Config.TOTAL_AMMO /\
            (isAlive (snd kp) = true <-> 0 < health (snd kp)))
         (players gs) /\
  Forall (fun kb =>
            b_id (snd kb) = fst kb /\
            b_damage (snd kb) = Config.BULLET_DAMAGE /\
            0 <= b_bounceCount (snd kb) <= Config.BULLET_MAX_BOUNCES)
         (bullets gs).
Proof.
  intros gs.
  destruct (run_sound ms (initialState start) (initial_sound start)) as [[Hp Hb Hpk Hbk _] _].
  fold gs in Hp, Hb, Hpk, Hbk.
  split; [exact Hpk|]. split; [exact Hbk|]. split; [exact Hp|].
  eapply Forall_impl; [|exact Hb]. intros kb (H1 & H2 & H3 & _). auto.
Qed.

(** A shot the server accepts puts one new bullet at the end of the map and
    replaces none: the identifier made from the socket and the counter is
    not the key of any bullet in flight.  The counter is at most the number
    of messages handled. *)
Theorem shot_adds_one_bullet (ms : list Message) (start : Z)
    (sid : string) (pos vel : Vec3) (now : Z) :
  Z.of_nat (List.length ms) < 2 ^ 53 ->
  let gs := run ms (initialState start) in
  let gs' := fst (on_player_shoot sid pos vel now gs) in
  snd (on_player_shoot sid pos vel now gs) <> [] ->
  bulletIdCounter gs' = bulletIdCounter gs + 1 /\
  bulletIdCounter gs' <= 2 ^ 53 /\
  bullets gs'
  = bullets gs ++ [(bulletId sid (bulletIdCounter gs'),
                    newBullet (bulletId sid (bulletIdCounter gs')) pos vel
                      Config.BULLET_DAMAGE sid)].
Proof.
  intros Hlen gs gs'.
  destruct (run_sound ms (initialState start) (initial_sound start)) as [Hs Hc].
  fold gs in Hs, Hc. cbn [initialState bulletIdCounter] in Hc.
  pose proof (next_id_new gs sid Hs) as Hnew.
  subst gs'. unfold on_player_shoot.
  destruct (map_get (players gs) sid) as [p|]; [|cbn; congruence].
  destruct (negb (isAlive p) || (ammo p <=? 0)); [cbn; congruence|].
  destruct (now - lastShot p <? 150); [cbn; congruence|].
  cbv zeta. cbn [fst snd bullets bulletIdCounter]. intros _.
  split; [reflexivity|]. split; [lia|].
  apply map_set_new. exact Hnew.
Qed.

(** After a disconnect the player of the socket is gone from the map, the
    other players are as they were, and so are the bullets, those of the
    player who left among them. *)
Theorem disconnect_removes_player (ms : list Message) (start : Z) (sid : string) :
  let gs := run ms (initialState start) in
  let gs' := fst (on_disconnect sid gs) in
  map_get (players gs') sid = None /\
  (forall k, k <> sid -> map_get (players gs') k = map_get (players gs) k) /\
  bullets gs' = bullets gs /\
  snd (on_disconnect sid gs) = [PlayerLeft sid].
Proof.
  intros gs gs'.
  destruct (run_sound ms (initialState start) (initial_sound start)) as [Hs _].
  fold gs in Hs. subst gs'. unfold on_disconnect.
  cbn [fst snd with_players players bullets].
  split; [apply map_delete_gone, (player_keys gs Hs)|].
  split; [|auto]. intros k Hk. apply map_get_delete_other. congruence.
Qed.

(** An input message changes nothing but the record of its sender, and in
    it neither the position nor the health, the ammunition, the time of the
    last shot or whether the player is alive; the bullets are not touched.
    A message of a dead player, or one less than 16 ms after the last one
    accepted, changes nothing at all.  A player in the air cannot jump: its
    vertical velocity stays, while a player on the ground who jumps gets
    [JUMP_VELOCITY] and leaves the ground. *)
Theorem input_frame (sid : string) (input : Input) (rot : option Vec3)
    (sequence now : Z) (gs : GameState) :
  let gs' := on_player_input Math_sin Math_cos sid input rot sequence now gs in
  bullets gs' = bullets gs /\
  bulletIdCounter gs' = bulletIdCounter gs /\
  (forall k, k <> sid -> map_get (players gs') k = map_get (players gs) k) /\
  match map_get (players gs) sid with
  | None => gs' = gs
  | Some p =>
      if negb (isAlive p) || (now - lastInputTime p <? 16) then gs' = gs
      else exists p',
        map_get (players gs') sid = Some p' /\
        position p' = position p /\ health p' = health p /\
        ammo p' = ammo p /\ totalAmmo p' = totalAmmo p /\
        lastShot p' = lastShot p /\ isAlive p' = isAlive p /\
        lastInputTime p' = now /\ inputSequence p' = sequence /\
        (if jump input && isGrounded p
         then vy (velocity p') = Config.JUMP_VELOCITY /\ isGrounded p' = false
         else vy (velocity p') = vy (velocity p) /\ isGrounded p' = isGrounded p)
  end.
Proof.
  intros gs'. subst gs'. unfold on_player_input.
  destruct (map_get (players gs) sid) as [p|] eqn:G; [|auto].
  destruct (negb (isAlive p)); cbn [orb]; [auto|].
  destruct (now - lastInputTime p <? 16); [auto|].
  cbv zeta. cbn [with_players players bullets bulletIdCounter].
  split; [reflexivity|]. split; [reflexivity|].
  split; [intros k Hk; apply map_get_set_other; congruence|].
  eexists. split; [apply map_get_set_same|].
  cbn [position health ammo totalAmmo lastShot isAlive lastInputTime inputSequence
       velocity isGrounded vy].
  repeat split; destruct (jump input && isGrounded p); auto.
Qed.

End Runs.

Lemma shot_adds_one_bullet_witness :
  Z.of_nat (List.length [Connect "A" 0]) < 2 ^ 53 /\
  snd (on_player_shoot "A" (mkVec 0 30 0) (mkVec 0 0 (-50)) 1000
         (run (fun x => x) (fun x => x) [Connect "A" 0] (initialState 0))) <> [] /\
  bulletIdCounter
    (fst (on_player_shoot "A" (mkVec 0 30 0) (mkVec 0 0 (-50)) 1000
            (run (fun x => x) (fun x => x) [Connect "A" 0] (initialState 0)))) = 1.
Proof.
  assert (H1 : Z.of_nat (List.length [Connect "A" 0]) < 2 ^ 53) by (vm_compute; reflexivity).
  assert (H2 : snd (on_player_shoot "A" (mkVec 0 30 0) (mkVec 0 0 (-50)) 1000
                 (run (fun x => x) (fun x => x) [Connect "A" 0] (initialState 0))) <> [])
    by (vm_compute; discriminate).
  split; [exact H1|]. split; [exact H2|].
  destruct (shot_adds_one_bullet (fun x => x) (fun x => x) [Connect "A" 0] 0 "A"
              (mkVec 0 30 0) (mkVec 0 0 (-50)) 1000 H1 H2) as (H & _).
  rewrite H. vm_compute. reflexivity.
Defined.

End Server_runs.

(** ** More on the movement of a server player *)
Module Movement_props.
Import Js Vec Server.

Lemma SFcompare_refl_not_lt (s : SpecFloat.spec_float) :
  SpecFloat.SFcompare s s <> Some Lt.
Proof.
  destruct s as [sg | sg | | sg m e]; cbn [SpecFloat.SFcompare]; try discriminate.
  - destruct sg; discriminate.
  - rewrite Z.compare_refl, Pos.compare_cont_refl. destruct sg; discriminate.
Qed.

Lemma ltb_irrefl (x : float) : PrimFloat.ltb x x = false.
Proof.
  rewrite FloatAxioms.ltb_spec. unfold SpecFloat.SFltb.
  pose proof (SFcompare_refl_not_lt (Prim2SF x)) as H.
  destruct (SpecFloat.SFcompare (Prim2SF x) (Prim2SF x)) as [[| |]|]; congruence.
Qed.

Lemma not_leb_not_ltb (x y : float) :
  PrimFloat.leb x y = false -> PrimFloat.ltb x y = false.
Proof.
  rewrite FloatAxioms.leb_spec, FloatAxioms.ltb_spec.
  unfold SpecFloat.SFleb, SpecFloat.SFltb.
  destruct (SpecFloat.SFcompare (Prim2SF x) (Prim2SF y)) as [[| |]|]; congruence.
Qed.

(** The height a player stands at over the terrain under [pos]. *)
Definition standing (pos : Vec3) : float :=
  (Z2F (getTerrainHeight (vx pos) (vz pos)) + Config.PLAYER_HEIGHT)%float.

(** After an update that moves a player of the server to a place with
    finite coordinates (of size at most 2^53), the player is never below the
    standing height over the terrain under its new place; a player put on
    the ground stands exactly at that height, with no vertical velocity and
    its horizontal velocity cut to 0.85 of what it was, and is the only one
    marked as grounded.  Health, ammunition and liveness are not touched. *)
Theorem player_stays_above_ground (delta : float) (p : ServerPlayer) :
  in_range (vx (position p) + vx (velocity p) * delta)%float = true ->
  in_range (vz (position p) + vz (velocity p) * delta)%float = true ->
  let p' := player_update delta p in
  PrimFloat.ltb (vy (position p')) (standing (position p')) = false /\
  (isGrounded p' = true ->
     vy (position p') = standing (position p') /\
     velocity p' = {| vx := vx (velocity p) * 0.85; vy := 0;
                      vz := vz (velocity p) * 0.85 |}%float) /\
  (isGrounded p' = false ->
     PrimFloat.leb (vy (position p')) (standing (position p')) = false /\
     vx (velocity p') = vx (velocity p) /\ vz (velocity p') = vz (velocity p)) /\
  health p' = health p /\ ammo p' = ammo p /\ totalAmmo p' = totalAmmo p /\
  isAlive p' = isAlive p /\ lastShot p' = lastShot p.
Proof.
  intros _ _ p'. subst p'. unfold player_update, standing. cbv zeta.
  set (th := Z2F (getTerrainHeight _ _)).
  destruct (PrimFloat.leb _ (th + Config.PLAYER_HEIGHT)) eqn:E;
    cbn [position velocity isGrounded set_motion health ammo totalAmmo isAlive
         lastShot vx vy vz]; fold th.
  - split; [apply ltb_irrefl|]. split; [auto|]. split; [discriminate|]. auto 10.
  - split; [apply not_leb_not_ltb, E|]. split; [discriminate|]. split; [auto|]. auto 10.
Qed.

(** A player who has just joined, one turn of the loop later: it has come
    down on the ground at the origin. *)
Lemma player_stays_above_ground_witness :
  let p := newPlayer "A" "A" 0 in
  let p' := player_update 0.016 p in
  PrimFloat.ltb (vy (position p')) (standing (position p')) = false /\
  (isGrounded p' = true ->
     vy (position p') = standing (position p') /\
     velocity p' = {| vx := vx (velocity p) * 0.85; vy := 0;
                      vz := vz (velocity p) * 0.85 |}%float) /\
  (isGrounded p' = false ->
     PrimFloat.leb (vy (position p')) (standing (position p')) = false /\
     vx (velocity p') = vx (velocity p) /\ vz (velocity p') = vz (velocity p)) /\
  health p' = health p /\ ammo p' = ammo p /\ totalAmmo p' = totalAmmo p /\
  isAlive p' = isAlive p /\ lastShot p' = lastShot p.
Proof.
  apply (player_stays_above_ground 0.016 (newPlayer "A" "A" 0));
    vm_compute; reflexivity.
Defined.

End Movement_props.

(** ** More on the bullets and the enemies of the client *)
Module Client_props.
Import Js Vec World Client.

Lemma pop_last {A} (l : list A) (x : A) : pop (l ++ [x]) = Some (x, l).
Proof.
  induction l as [| y l IH]; [reflexivity|].
  cbn [app pop]. rewrite IH. destruct (l ++ [x]) eqn:E; [|reflexivity].
  destruct l; discriminate.
Qed.

Lemma release_acquire (b : Bullet) (ws : WeaponSystem) :
  Z.of_nat (List.length (pool_available ws)) < pool_capacity ws ->
  acquireBullet (releaseBullet b ws) = (b, ws).
Proof.
  intros H. unfold releaseBullet. apply Z.ltb_lt in H. rewrite H.
  unfold acquireBullet. cbn [pool_available set_pool pool_created].
  rewrite pop_last. destruct ws; reflexivity.
Qed.

(** A bullet released into a pool that is not full is the one the next
    [acquireBullet] hands out, and the weapon system is then as it was before
    the release: no new bullet object is made. *)
Theorem release_then_acquire (b : Bullet) (ws : WeaponSystem) :
  Z.of_nat (List.length (pool_available ws)) < pool_capacity ws ->
  acquireBullet (releaseBullet b ws) = (b, ws) /\
  pool_created (snd (acquireBullet (releaseBullet b ws))) = pool_created ws.
Proof.
  intros H. rewrite (release_acquire b ws H). auto.
Qed.

Lemma release_then_acquire_witness :
  acquireBullet (releaseBullet (newBullet 7) (init newWeaponSystem))
  = (newBullet 7, init newWeaponSystem) /\
  pool_created (snd (acquireBullet (releaseBullet (newBullet 7) (init newWeaponSystem))))
  = pool_created (init newWeaponSystem).
Proof.
  apply (release_then_acquire (newBullet 7) (init newWeaponSystem)).
  vm_compute. reflexivity.
Defined.

(** The calls made on the pool. *)
Inductive PoolOp : Type := Acquire | Release (b : Bullet).

Definition pool_step (ws : WeaponSystem) (op : PoolOp) : WeaponSystem :=
  match op with
  | Acquire => snd (acquireBullet ws)
  | Release b => releaseBullet b ws
  end.

Lemma pop_length {A} (l : list A) (x : A) (r : list A) :
  pop l = Some (x, r) -> List.length l = S (List.length r).
Proof.
  revert x r. induction l as [| y l IH]; intros x r; cbn [pop]; [discriminate|].
  destruct l as [| z l'].
  - intros [= <- <-]. reflexivity.
  - destruct (pop (z :: l')) as [[u v]|] eqn:E; [|discriminate].
    intros [= <- <-]. cbn [List.length]. f_equal. apply (IH u v). reflexivity.
Qed.

Lemma pop_none {A} (l : list A) : pop l = None -> l = [].
Proof.
  induction l as [| y l IH]; [reflexivity|]. cbn [pop].
  destruct l as [| z l']; [discriminate|].
  destruct (pop (z :: l')) as [[u v]|]; [discriminate|].
  intros _. discriminate (IH eq_refl).
Qed.

Lemma pool_step_bound (ws : WeaponSystem) (op : PoolOp) :
  Z.of_nat (List.length (pool_available ws)) <= pool_capacity ws ->
  0 <= pool_created ws ->
  Z.of_nat (List.length (pool_available (pool_step ws op))) <= pool_capacity (pool_step ws op) /\
  pool_capacity (pool_step ws op) = pool_capacity ws /\
  pool_created ws <= pool_created (pool_step ws op) /\
  (pool_created ws < pool_created (pool_step ws op) ->
   op = Acquire /\ pool_available ws = []).
Proof.
  intros Hb Hc. destruct op as [| b]; cbn [pool_step].
  - unfold acquireBullet.
    destruct (pop (pool_available ws)) as [[x r]|] eqn:E;
      cbn [snd set_pool pool_available pool_capacity pool_created List.length].
    + apply pop_length in E. repeat split; try lia.
    + apply pop_none in E. repeat split; try lia; auto.
  - unfold releaseBullet.
    destruct (Z.of_nat (List.length (pool_available ws)) <? pool_capacity ws) eqn:E;
      cbn [set_pool pool_available pool_capacity pool_created].
    + apply Z.ltb_lt in E. rewrite length_app. cbn [List.length].
      repeat split; try lia.
    + repeat split; try lia.
Qed.

(** The pool never holds more than its capacity: through any releases and
    acquisitions on a new weapon system there are at most 50 pooled bullets,
    the capacity stays 50, and no more bullets were made than calls. *)
Theorem pool_never_overflows (ops : list PoolOp) :
  let ws := fold_left pool_step ops newWeaponSystem in
  Z.of_nat (List.length (pool_available ws)) <= 50 /\
  pool_capacity ws = 50 /\
  0 <= pool_created ws <= Z.of_nat (List.length ops).
Proof.
  cbv zeta.
  assert (G : forall ws0,
             Z.of_nat (List.length (pool_available ws0)) <= pool_capacity ws0 ->
             0 <= pool_created ws0 ->
             let ws := fold_left pool_step ops ws0 in
             Z.of_nat (List.length (pool_available ws)) <= pool_capacity ws /\
             pool_capacity ws = pool_capacity ws0 /\
             pool_created ws0 <= pool_created ws
             <= pool_created ws0 + Z.of_nat (List.length ops)).
  { induction ops as [| op ops IH]; intros ws0 Hb Hc; cbn [fold_left List.length].
    - repeat split; lia.
    - destruct (pool_step_bound ws0 op Hb Hc) as (H1 & H2 & H3 & _).
      assert (H4 : pool_created (pool_step ws0 op) <= pool_created ws0 + 1).
      { destruct op as [| b]; cbn [pool_step].
        - unfold acquireBullet. destruct (pop (pool_available ws0)) as [[x r]|];
            cbn [snd set_pool pool_created]; lia.
        - unfold releaseBullet.
          destruct (Z.of_nat (List.length (pool_available ws0)) <? pool_capacity ws0);
            cbn [set_pool pool_created]; lia. }
      destruct (IH (pool_step ws0 op) H1 ltac:(lia)) as (H5 & H6 & H7).
      cbv zeta in H5, H6, H7. repeat split; try lia; congruence. }
  specialize (G newWeaponSystem). cbn [newWeaponSystem pool_available pool_capacity
    pool_created List.length] in G. cbv zeta in G.
  destruct G as (H1 & H2 & H3); lia.
Qed.

(** *** Deactivation *)

Lemma remove_bullet_filter (n : nat) (bs : list Bullet) :
  NoDup (map bid bs) ->
  remove_bullet n bs = filter (fun x => negb (Nat.eqb (bid x) n)) bs.
Proof.
  induction bs as [| b r IH]; cbn [remove_bullet filter map]; [reflexivity|].
  intros Hn. inversion Hn as [| ? ? Hb Hr]; subst.
  destruct (Nat.eqb (bid b) n) eqn:E; cbn [negb].
  - apply Nat.eqb_eq in E. subst n. symmetry. apply forallb_filter_id.
    apply forallb_forall. intros x Hx. apply negb_true_iff, Nat.eqb_neq.
    intros Heq. apply Hb. rewrite <- Heq. apply in_map, Hx.
  - f_equal. apply IH, Hr.
Qed.

Lemma remove_bullet_length (n : nat) (bs : list Bullet) :
  (List.length (remove_bullet n bs) <= List.length bs)%nat.
Proof.
  induction bs as [| b r IH]; cbn [remove_bullet List.length]; [lia|].
  destruct (Nat.eqb (bid b) n); cbn [List.length]; lia.
Qed.

(** A bullet that is deactivated is no longer active, leaves the list of
    the bullets in flight, where every other bullet keeps its place, and
    goes to the pool: the next [acquireBullet] hands out this very object. *)
Theorem deactivate_recycles (b : Bullet) (ws : WeaponSystem) (gs : GameState) :
  has_gameState ws = true ->
  NoDup (map bid (bullets gs)) ->
  Z.of_nat (List.length (pool_available ws)) < pool_capacity ws ->
  let '(b', ws', gs') := deactivate b ws gs in
  b_active b' = false /\ bid b' = bid b /\
  bullets gs' = filter (fun x => negb (Nat.eqb (bid x) (bid b))) (bullets gs) /\
  ~ In (bid b) (map bid (bullets gs')) /\
  acquireBullet ws' = (b', ws) /\
  health gs' = health gs /\ ammo gs' = ammo gs /\ score gs' = score gs /\
  enemies gs' = enemies gs.
Proof.
  intros Hg Hn Hp. unfold deactivate. cbv zeta. rewrite Hg.
  cbn [b_active bid set_bullet set_bullets bullets health ammo score enemies].
  rewrite (remove_bullet_filter _ _ Hn).
  repeat split; auto.
  - intros Hin. apply in_map_iff in Hin. destruct Hin as (x & Hx & Hin).
    apply filter_In in Hin. destruct Hin as [_ Hin].
    apply negb_true_iff, Nat.eqb_neq in Hin. contradiction.
  - apply release_acquire, Hp.
Qed.

Definition in_flight_bullet : Bullet :=
  {| bid := 0; b_position := {| vx := 0; vy := 30; vz := 0 |};
     b_velocity := {| vx := 0; vy := 0; vz := (-100) |};
     b_damage := 40; b_life := 3; b_active := true;
     b_previousPosition := {| vx := 0; vy := 30; vz := 0 |} |}%float.

Lemma deactivate_recycles_witness :
  let '(b', ws', gs') :=
    deactivate in_flight_bullet (init newWeaponSystem)
      (set_bullets initialState [in_flight_bullet]) in
  b_active b' = false /\ bid b' = bid in_flight_bullet /\
  bullets gs'
  = filter (fun x => negb (Nat.eqb (bid x) (bid in_flight_bullet)))
      (bullets (set_bullets initialState [in_flight_bullet])) /\
  ~ In (bid in_flight_bullet) (map bid (bullets gs')) /\
  acquireBullet ws' = (b', init newWeaponSystem) /\
  health gs' = health (set_bullets initialState [in_flight_bullet]) /\
  ammo gs' = ammo (set_bullets initialState [in_flight_bullet]) /\
  score gs' = score (set_bullets initialState [in_flight_bullet]) /\
  enemies gs' = enemies (set_bullets initialState [in_flight_bullet]).
Proof.
  apply (deactivate_recycles in_flight_bullet (init newWeaponSystem)
           (set_bullets initialState [in_flight_bullet])).
  - reflexivity.
  - cbn. repeat constructor. intros [].
  - vm_compute. reflexivity.
Defined.

(** *** What the update of a bullet leaves alone *)

Lemma remove_enemy_length (n : nat) (es : list Enemy) :
  (List.length (remove_enemy n es) <= List.length es)%nat.
Proof.
  induction es as [| e r IH]; cbn [remove_enemy List.length]; [lia|].
  destruct (Nat.eqb (eid e) n); cbn [List.length]; lia.
Qed.

(** What a game state keeps through the update of a bullet. *)
Definition kept (gs gs' : GameState) : Prop :=
  health gs' = health gs /\ ammo gs' = ammo gs /\ totalAmmo gs' = totalAmmo gs /\
  (score gs' = score gs \/ score gs' = score gs + 100) /\
  (List.length (bullets gs') <= List.length (bullets gs))%nat /\
  (List.length (enemies gs') <= List.length (enemies gs))%nat.

Lemma kept_refl (gs : GameState) : kept gs gs.
Proof. unfold kept. repeat split; auto. Qed.

Lemma enemy_takeDamage_kept (d : float) (e : Enemy) (gs : GameState) :
  kept gs (fst (fst (enemy_takeDamage d e gs))).
Proof.
  unfold enemy_takeDamage, kept. cbv zeta.
  destruct (PrimFloat.leb _ 0);
    cbn [fst set_enemies health ammo totalAmmo score bullets enemies].
  - repeat split; auto. apply remove_enemy_length.
  - repeat split; auto. unfold store_enemy. rewrite length_map. lia.
Qed.

Lemma deactivate_spec (b : Bullet) (ws : WeaponSystem) (gs : GameState) :
  let '(b', ws', gs') := deactivate b ws gs in
  bid b' = bid b /\ b_velocity b' = b_velocity b /\ b_damage b' = b_damage b /\
  b_active b' = false /\
  lastShot ws' = lastShot ws /\ isReloading ws' = isReloading ws /\
  currentWeapon ws' = currentWeapon ws /\
  health gs' = health gs /\ ammo gs' = ammo gs /\ totalAmmo gs' = totalAmmo gs /\
  score gs' = score gs /\ enemies gs' = enemies gs /\
  (List.length (bullets gs') <= List.length (bullets gs))%nat.
Proof.
  unfold deactivate, releaseBullet. cbv zeta.
  cbn [bid b_velocity b_damage b_active set_bullet].
  destruct (has_gameState ws);
    destruct (Z.of_nat (List.length (pool_available ws)) <? pool_capacity ws);
    cbn [lastShot isReloading currentWeapon set_pool set_bullets health ammo totalAmmo
         score enemies bullets];
    repeat split; auto; apply remove_bullet_length.
Qed.

Lemma bullet_update_spec (enemy_ready : bool) (delta : float) (b : Bullet)
    (ws : WeaponSystem) (gs : GameState) (r : Rand) :
  let '(ret, b', ws', gs', r') := bullet_update enemy_ready delta b ws gs r in
  bid b' = bid b /\ b_velocity b' = b_velocity b /\ b_damage b' = b_damage b /\
  lastShot ws' = lastShot ws /\ isReloading ws' = isReloading ws /\
  currentWeapon ws' = currentWeapon ws /\
  health gs' = health gs /\ ammo gs' = ammo gs /\ totalAmmo gs' = totalAmmo gs /\
  (score gs' = score gs \/ score gs' = score gs + 100) /\
  (List.length (bullets gs') <= List.length (bullets gs))%nat /\
  (List.length (enemies gs') <= List.length (enemies gs))%nat /\
  (b_active b = false -> (b', ws', gs', r') = (b, ws, gs, r)) /\
  (b_active b' = true -> b_active b = true /\
     b_position b' = addScaledVector (b_position b) (b_velocity b) delta /\
     b_previousPosition b' = b_position b /\
     b_life b' = (b_life b - delta)%float /\ ws' = ws).
Proof.
  unfold bullet_update.
  destruct (b_active b) eqn:Ha; cbn [negb].
  2:{ repeat split; auto; try discriminate; intros; congruence. }
  cbv zeta.
  set (pos := addScaledVector (b_position b) (b_velocity b) delta).
  set (b1 := set_bullet b pos (b_position b) (b_life b) true).
  destruct (if has_gameState ws then enemy_in_reach pos (enemies gs) else None)
    as [enemy|].
  - set (gs1 := if enemy_ready then _ else gs).
    assert (K : kept gs gs1).
    { subst gs1. destruct enemy_ready; [apply enemy_takeDamage_kept | apply kept_refl]. }
    pose proof (deactivate_spec b1 ws gs1) as D.
    destruct (deactivate b1 ws gs1) as [[b2 ws2] gs2].
    unfold b1 in D. cbn [bid b_velocity b_damage set_bullet] in D.
    destruct D as (D1 & D2 & D3 & D4 & D5 & D6 & D7 & D8 & D9 & D10 & D11 & D12 & D13).
    destruct K as (K1 & K2 & K3 & K4 & K5 & K6).
    repeat split; try congruence; try lia;
      first [rewrite D11; exact K4 | rewrite D12; lia | intros; congruence].
  - set (pc := if PrimFloat.ltb 0 _ then _ else _).
    destruct pc as [collided r1].
    destruct collided.
    + pose proof (deactivate_spec b1 ws gs) as D.
      destruct (deactivate b1 ws gs) as [[b2 ws2] gs2].
      unfold b1 in D. cbn [bid b_velocity b_damage set_bullet] in D.
      destruct D as (D1 & D2 & D3 & D4 & D5 & D6 & D7 & D8 & D9 & D10 & D11 & D12 & D13).
      repeat split; try congruence; try lia;
        first [left; exact D11 | rewrite D12; lia | intros; congruence].
    + set (b2 := set_bullet b pos (b_position b) (b_life b - delta)%float true).
      destruct (PrimFloat.leb (b_life b - delta) 0).
      * pose proof (deactivate_spec b2 ws gs) as D.
        destruct (deactivate b2 ws gs) as [[b3 ws3] gs3].
        unfold b2 in D. cbn [bid b_velocity b_damage set_bullet] in D.
        destruct D as (D1 & D2 & D3 & D4 & D5 & D6 & D7 & D8 & D9 & D10 & D11 & D12 & D13).
        repeat split; try congruence; try lia;
        first [left; exact D11 | rewrite D12; lia | intros; congruence].
      * destruct (has_gameState ws);
          cbn [set_bullets health ammo totalAmmo score bullets enemies];
          repeat split; auto; try discriminate; rewrite ?length_map; auto.
Qed.

(** The update of a bullet of the client never changes the identity, the
    velocity or the damage of the bullet, never touches the player's health
    or ammunition nor the state of the weapon, adds neither a bullet nor an
    enemy, and changes the score only by the 100 points of a kill.  An
    inactive bullet changes nothing at all and draws no random number. *)
Theorem bullet_update_frame (enemy_ready : bool) (delta : float) (b : Bullet)
    (ws : WeaponSystem) (gs : GameState) (r : Rand) :
  let '(ret, b', ws', gs', r') := bullet_update enemy_ready delta b ws gs r in
  bid b' = bid b /\ b_velocity b' = b_velocity b /\ b_damage b' = b_damage b /\
  lastShot ws' = lastShot ws /\ isReloading ws' = isReloading ws /\
  currentWeapon ws' = currentWeapon ws /\
  health gs' = health gs /\ ammo gs' = ammo gs /\ totalAmmo gs' = totalAmmo gs /\
  (score gs' = score gs \/ score gs' = score gs + 100) /\
  (List.length (bullets gs') <= List.length (bullets gs))%nat /\
  (List.length (enemies gs') <= List.length (enemies gs))%nat /\
  (b_active b = false -> (b', ws', gs', r') = (b, ws, gs, r)) /\
  (b_active b' = true -> b_active b = true /\
     b_position b' = addScaledVector (b_position b) (b_velocity b) delta /\
     b_previousPosition b' = b_position b /\
     b_life b' = (b_life b - delta)%float /\ ws' = ws).
Proof. apply bullet_update_spec. Qed.

(** *** The attacks of an enemy *)

Lemma enemy_update_waits (delta : float) (playerPosition : Vec3) (now : Z)
    (e : Enemy) (gs : GameState) :
  now - e_lastAttack e <= e_attackCooldown e ->
  health (fst (enemy_update delta playerPosition now e gs)) = health gs.
Proof.
  intros H. unfold enemy_update.
  destruct (e_mesh e) as [mesh|]; [|reflexivity].
  cbv zeta.
  replace (e_attackCooldown e <? now - e_lastAttack e) with false
    by (symmetry; apply Z.ltb_ge; lia).
  rewrite andb_false_r. reflexivity.
Qed.

Lemma enemy_update_spec (delta : float) (playerPosition : Vec3) (now : Z)
    (e : Enemy) (gs : GameState) :
  let gs1 := fst (enemy_update delta playerPosition now e gs) in
  let e1 := snd (enemy_update delta playerPosition now e gs) in
  ammo gs1 = ammo gs /\ totalAmmo gs1 = totalAmmo gs /\ score gs1 = score gs /\
  bullets gs1 = bullets gs /\
  List.length (enemies gs1) = List.length (enemies gs) /\
  e_attackCooldown e1 = e_attackCooldown e /\ e_damage e1 = e_damage e /\
  e_health e1 = e_health e /\
  (health gs1 = health gs \/
   health gs1 = (health gs - e_damage e)%float /\
   e_attackCooldown e < now - e_lastAttack e /\ e_lastAttack e1 = now).
Proof.
  cbv zeta. unfold enemy_update.
  destruct (e_mesh e) as [mesh|]; cbn [fst snd]; [|repeat split; auto].
  cbv zeta.
  destruct (_ && (e_attackCooldown e <? now - e_lastAttack e)) eqn:E;
    cbn [fst snd attackPlayer set_health set_enemies health ammo totalAmmo score bullets
         enemies e_attackCooldown e_damage e_health e_lastAttack];
    unfold store_enemy; rewrite length_map.
  - apply andb_true_iff in E. destruct E as [_ E]. apply Z.ltb_lt in E.
    repeat split; auto.
  - repeat split; auto.
Qed.

(** An enemy hurts the player only by its own damage and only once its
    cooldown has passed: when an update lowers the player's health, the
    health is the old one less the damage of the enemy, more than
    [attackCooldown] ms have passed since the last attack, and no update up
    to [attackCooldown] ms later changes it again.  Ammunition, score and
    bullets are never touched, and no enemy is added or removed. *)
Theorem enemy_attack_cooldown (delta : float) (playerPosition : Vec3) (now : Z)
    (e : Enemy) (gs : GameState) :
  let gs1 := fst (enemy_update delta playerPosition now e gs) in
  let e1 := snd (enemy_update delta playerPosition now e gs) in
  ammo gs1 = ammo gs /\ totalAmmo gs1 = totalAmmo gs /\ score gs1 = score gs /\
  bullets gs1 = bullets gs /\
  List.length (enemies gs1) = List.length (enemies gs) /\
  e_attackCooldown e1 = e_attackCooldown e /\ e_damage e1 = e_damage e /\
  e_health e1 = e_health e /\
  (health gs1 = health gs \/
   health gs1 = (health gs - e_damage e)%float /\
   e_attackCooldown e < now - e_lastAttack e /\ e_lastAttack e1 = now) /\
  (health gs1 <> health gs ->
   forall delta2 pos2 now2 gs2,
     now2 <= now + e_attackCooldown e ->
     health (fst (enemy_update delta2 pos2 now2 e1 gs2)) = health gs2).
Proof.
  intros gs1 e1.
  pose proof (enemy_update_spec delta playerPosition now e gs) as H.
  cbv zeta in H. fold gs1 e1 in H.
  destruct H as (H1 & H2 & H3 & H4 & H5 & H6 & H7 & H8 & H9).
  repeat split; auto.
  intros Hne delta2 pos2 now2 gs2 Hn.
  destruct H9 as [H9 | (_ & _ & H9)]; [contradiction|].
  apply enemy_update_waits. rewrite H9, H6. lia.
Qed.

(** *** Reloading *)

(** While a reload runs the weapon is locked: from the call of [reload()]
    that starts it to the end of its timer no shot is fired, whatever the
    ammunition and the time, and a second [reload()] does nothing; the timer
    lasts the [reloadTime] of the weapon and ends the reloading, after which
    the weapon system is as it was before the reload. *)
Theorem reload_locks_weapon (ws ws1 : WeaponSystem) (gs : GameState) (t : Z) :
  reload ws gs = (ws1, Some t) ->
  t = reloadTime (weapons (currentWeapon ws)) /\
  isReloading ws = false /\ isReloading ws1 = true /\
  (forall now muzzle dir gs' r,
     fireWeapon now muzzle dir ws1 gs' r = mkFired false ws1 gs' r []) /\
  (forall gs', reload ws1 gs' = (ws1, None)) /\
  (forall gs', fst (reload_timeout ws1 gs') = ws).
Proof.
  unfold reload.
  destruct (negb (has_gameState ws) || negb (has_updateUI ws)) eqn:E1; [discriminate|].
  destruct (isReloading ws || (totalAmmo gs <=? 0) || (ammo gs =? Config.AMMO_CAPACITY))
    eqn:E2; [discriminate|].
  intros [= <- <-].
  apply orb_false_iff in E2. destruct E2 as [E2 _].
  apply orb_false_iff in E2. destruct E2 as [E2 _].
  split; [reflexivity|]. split; [exact E2|]. split; [reflexivity|].
  split; [|split].
  - intros now muzzle dir gs' r. unfold fireWeapon, canShoot.
    cbn [has_gameState set_shot isReloading].
    destruct (has_gameState ws); cbn [negb andb orb]; reflexivity.
  - intros gs'. cbn [has_gameState has_updateUI set_shot isReloading].
    rewrite E1. reflexivity.
  - intros gs'. unfold reload_timeout. cbn [fst set_shot lastShot isReloading].
    destruct ws; cbn in *. subst. reflexivity.
Qed.

Lemma reload_locks_weapon_witness :
  let ws := init newWeaponSystem in
  let ws1 := set_shot ws (lastShot ws) true in
  let gs := set_ammo initialState 0 90 in
  2000 = reloadTime (weapons (currentWeapon ws)) /\
  isReloading ws = false /\ isReloading ws1 = true /\
  (forall now muzzle dir gs' r,
     fireWeapon now muzzle dir ws1 gs' r = mkFired false ws1 gs' r []) /\
  (forall gs', reload ws1 gs' = (ws1, None)) /\
  (forall gs', fst (reload_timeout ws1 gs') = ws).
Proof.
  apply (reload_locks_weapon (init newWeaponSystem)
           (set_shot (init newWeaponSystem) (lastShot (init newWeaponSystem)) true)
           (set_ammo initialState 0 90) 2000).
  reflexivity.
Defined.

End Client_props.

(** ** The keys *)
Module Controls_props.
Import Js Client Controls.

Lemma on_key_jump (gs : GameState) (s : PlayerState * option WeaponSystem)
    (ev : KeyEvent) :
  let s' := on_key gs s ev in
  if canJump (moveState (fst s)) && match ev with Down Space => true | _ => false end
  then velocity_y (fst s') = Config.JUMP_VELOCITY /\ canJump (moveState (fst s')) = false
  else velocity_y (fst s') = velocity_y (fst s) /\
       canJump (moveState (fst s')) = canJump (moveState (fst s)).
Proof.
  destruct s as [st ws]. destruct ev as [k | k]; destruct k; cbn [on_key fst snd];
    unfold onKeyDown, onKeyUp; cbv zeta;
    try (destruct (canJump (moveState st)) eqn:E; cbn [andb fst moveState velocity_y canJump
           set_move]; auto; fail).
  - (* the reload key *)
    destruct ws as [ws|]; [destruct (reload ws gs) as [ws' t]|];
      cbn [fst]; rewrite andb_false_r; auto.
Qed.

(** Between two landings the keys give at most one jump: while [canJump] is
    false no key changes the vertical velocity, and from a state where it is
    true the velocity is either untouched, when Space was not pressed, or
    exactly [JUMP_VELOCITY] with [canJump] false. *)
Theorem keys_jump_once (gs : GameState) (evs : list KeyEvent)
    (s : PlayerState * option WeaponSystem) :
  let s' := keys gs evs s in
  if canJump (moveState (fst s)) && existsb (fun ev => match ev with Down Space => true | _ => false end) evs
  then velocity_y (fst s') = Config.JUMP_VELOCITY /\ canJump (moveState (fst s')) = false
  else velocity_y (fst s') = velocity_y (fst s) /\
       canJump (moveState (fst s')) = canJump (moveState (fst s)).
Proof.
  cbv zeta. revert s. induction evs as [| ev evs IH]; intros s; cbn [keys fold_left existsb].
  - rewrite andb_false_r. auto.
  - pose proof (on_key_jump gs s ev) as H. cbv zeta in H.
    specialize (IH (on_key gs s ev)). unfold keys in IH.
    destruct (canJump (moveState (fst s))); cbn [andb] in *.
    + destruct (match ev with Down Space => true | _ => false end); cbn [orb].
      * destruct H as [H1 H2]. rewrite H2 in IH. cbn [andb] in IH.
        destruct IH as [I1 I2]. split; congruence.
      * destruct H as [H1 H2]. rewrite H2 in IH. cbn [andb] in IH.
        destruct (existsb _ evs); destruct IH as [I1 I2]; split; congruence.
    + destruct H as [H1 H2]. rewrite H2 in IH. cbn [andb] in IH.
      destruct IH as [I1 I2]. split; congruence.
Qed.

End Controls_props.

(** ** The frames of the client *)
Module Main_props.
Import Js Vec World Client Main World_facts.

(** *** The water *)

Lemma block_eqb_eq (a b : BlockType) : block_eqb a b = true <-> a = b.
Proof.
  split; [|intros ->; destruct b; reflexivity].
  destruct a, b; cbn; intros H; try reflexivity; discriminate.
Qed.

Lemma feet_rows :
  forallb (fun k => floorZ (Z2F (Z.of_nat k) + Config.PLAYER_HEIGHT
                            - Config.PLAYER_HEIGHT + 0.1)%float =? Z.of_nat k)
          (seq 0 65) = true.
Proof. vm_compute. reflexivity. Qed.

(** The block the check looks at, for a player who stands at height [h]. *)
Lemma feet_block (h : Z) :
  0 <= h <= 64 ->
  floorZ (Z2F h + Config.PLAYER_HEIGHT - Config.PLAYER_HEIGHT + 0.1)%float = h.
Proof.
  intros Hh. pose proof feet_rows as H. rewrite forallb_forall in H.
  specialize (H (Z.to_nat h)). rewrite Z2Nat.id in H by lia.
  apply Z.eqb_eq, H, in_seq. lia.
Qed.

Section Scan.
Variable permutation : list Z.

Lemma scan_above (n : nat) (x z y : Z) :
  (forall q, fst (getBlockType permutation x y z q) <> AIR) ->
  forall r, 0 <= y < Z.of_nat n -> y + 1 <= fst (Player.scan permutation n x z r).
Proof.
  intros Hy. induction n as [| k IH]; intros r Hn; [lia|].
  rewrite Terrain_props.scan_step.
  destruct (getBlockType permutation x (Z.of_nat k) z r) as [blk r'] eqn:E.
  destruct (negb (block_eqb blk AIR)) eqn:Eb; cbn [fst].
  - lia.
  - apply negb_false_iff, block_eqb_eq in Eb. subst blk.
    destruct (Z.eq_dec y (Z.of_nat k)) as [-> | Hne].
    + elim (Hy r). rewrite E. reflexivity.
    + apply IH. lia.
Qed.

(** The block at the height the scan returns is never water. *)
Lemma not_water_at_scan (x z : Z) (r0 r : Rand) :
  fst (getBlockType permutation x (fst (Player.scan permutation 64 x z r0)) z r) <> WATER.
Proof.
  intros Hw. apply World_props.water_iff in Hw.
  set (h := fst (Player.scan permutation 64 x z r0)) in *.
  assert (Hs : h + 1 <= fst (Player.scan permutation 64 x z r0)).
  { pose proof (Terrain_props.scan_bounds permutation 64 x z r0) as Hb.
    fold h in Hb.
    apply scan_above; [|change (Z.of_nat 64) with 64; lia].
    intros q Hq.
    assert (Hq' : fst (getBlockType permutation x h z q) = WATER)
      by (apply World_props.water_iff; exact Hw).
    congruence. }
  fold h in Hs. lia.
Qed.

Lemma height_range (x z : float) (r : Rand) :
  0 <= fst (Player.getTerrainHeight permutation x z r) <= 64.
Proof.
  unfold Player.getTerrainHeight.
  change (Z.to_nat Config.WORLD_HEIGHT) with 64%nat.
  apply (Terrain_props.scan_bounds permutation 64).
Qed.

Lemma not_water_at_height (x z : float) (r0 r : Rand) :
  fst (getBlockType permutation (floorZ x)
         (fst (Player.getTerrainHeight permutation x z r0)) (floorZ z) r) <> WATER.
Proof.
  unfold Player.getTerrainHeight.
  change (Z.to_nat Config.WORLD_HEIGHT) with 64%nat.
  apply not_water_at_scan.
Qed.

End Scan.

(** Water never hurts a player who stands on the ground: the scan that
    finds the ground takes water for ground, so that the block at the feet
    of a player at the height [getTerrainHeight] gives plus [PLAYER_HEIGHT]
    is never water, and [checkEnvironmentalDamage] leaves the game state as
    it is and does not end the game. *)
Theorem standing_player_stays_dry (x z : float) (gs : GameState) (r0 r : Rand) :
  let h := fst (Player.getTerrainHeight permutation42 x z r0) in
  let playerPos := {| vx := x; vy := Z2F h + Config.PLAYER_HEIGHT; vz := z |}%float in
  fst (fst (checkEnvironmentalDamage playerPos gs r)) = gs /\
  snd (fst (checkEnvironmentalDamage playerPos gs r)) = false.
Proof.
  intros h playerPos. unfold checkEnvironmentalDamage. cbn [vx vy vz playerPos].
  pose proof (height_range permutation42 x z r0) as Hh. fold h in Hh.
  rewrite (feet_block h Hh).
  pose proof (not_water_at_height permutation42 x z r0 r) as Hn. fold h in Hn.
  destruct (getBlockType permutation42 (floorZ x) h (floorZ z) r) as [blk r'].
  cbn [fst] in Hn.
  destruct (block_eqb blk WATER) eqn:E.
  - apply block_eqb_eq in E. contradiction.
  - cbn [fst snd]. auto.
Qed.

(** With the camera at a position of finite coordinates (of size at most
    2^53), [checkEnvironmentalDamage] takes half a point of health, and
    nothing else, only from a living player whose feet are in water, a block
    at or under the water level 15 and up to ten blocks above the surface;
    it reports the death exactly when the health left is not positive. *)
Theorem water_damage (playerPos : Vec3) (gs : GameState) (r : Rand) :
  in_range (vx playerPos) = true -> in_range (vy playerPos) = true ->
  in_range (vz playerPos) = true ->
  let res := checkEnvironmentalDamage playerPos gs r in
  let gs' := fst (fst res) in
  let y := floorZ (vy playerPos - Config.PLAYER_HEIGHT + 0.1)%float in
  let base := baseHeightAt permutation42 (Z2F (floorZ (vx playerPos)))
                (Z2F (floorZ (vz playerPos))) in
  ammo gs' = ammo gs /\ totalAmmo gs' = totalAmmo gs /\ score gs' = score gs /\
  enemies gs' = enemies gs /\ bullets gs' = bullets gs /\
  (if PrimFloat.ltb 0 (health gs) && (y <=? 15) && (base <? y) && (y <=? base + 10)
   then health gs' = (health gs - 0.5)%float /\
        snd (fst res) = PrimFloat.leb (health gs') 0
   else gs' = gs /\ snd (fst res) = false).
Proof.
  intros _ _ _. cbv zeta. unfold checkEnvironmentalDamage.
  set (y := floorZ (vy playerPos - Config.PLAYER_HEIGHT + 0.1)%float).
  pose proof (World_props.water_iff permutation42 (floorZ (vx playerPos)) y
                (floorZ (vz playerPos)) r) as Hw.
  set (base := baseHeightAt permutation42 _ _) in *.
  destruct (getBlockType permutation42 (floorZ (vx playerPos)) y (floorZ (vz playerPos)) r)
    as [blk r'].
  cbn [fst] in Hw.
  destruct (block_eqb blk WATER) eqn:E.
  - apply block_eqb_eq in E. apply Hw in E. destruct E as (E1 & E2 & E3).
    replace (y <=? 15) with true by (symmetry; apply Z.leb_le; lia).
    replace (base <? y) with true by (symmetry; apply Z.ltb_lt; lia).
    replace (y <=? base + 10) with true by (symmetry; apply Z.leb_le; lia).
    rewrite !andb_true_r.
    destruct (PrimFloat.ltb 0 (health gs));
      cbn [fst snd set_health health ammo totalAmmo score enemies bullets];
      repeat split; auto.
  - assert (Hn : (y <=? 15) && (base <? y) && (y <=? base + 10) = false).
    { destruct ((y <=? 15) && (base <? y) && (y <=? base + 10)) eqn:C; [|reflexivity].
      apply andb_true_iff in C. destruct C as [C C3].
      apply andb_true_iff in C. destruct C as [C1 C2].
      apply Z.leb_le in C1, C3. apply Z.ltb_lt in C2.
      assert (blk = WATER) by (apply Hw; lia).
      subst blk. discriminate. }
    destruct (PrimFloat.ltb 0 (health gs)); destruct (y <=? 15); destruct (base <? y);
      destruct (y <=? base + 10); cbn [andb] in Hn |- *; try discriminate Hn;
      cbn [fst snd]; repeat split; auto.
Qed.

(** A player who wades in the water of the column (37, 11), whose ground
    lies at height 12: the feet are in the block at height 14. *)
Definition wading : Vec3 := {| vx := 37; vy := 15.9; vz := 11 |}%float.

Lemma wading_feet :
  floorZ (vy wading - Config.PLAYER_HEIGHT + 0.1)%float = 14 /\
  baseHeightAt permutation42 (Z2F (floorZ (vx wading))) (Z2F (floorZ (vz wading))) = 12.
Proof. split; vm_compute; reflexivity. Qed.

Lemma water_damage_witness :
  let res := checkEnvironmentalDamage wading initialState (always 0.5) in
  health (fst (fst res)) = 99.5%float /\ snd (fst res) = false /\
  ammo (fst (fst res)) = ammo initialState.
Proof.
  assert (H1 : in_range (vx wading) = true) by (vm_compute; reflexivity).
  assert (H2 : in_range (vy wading) = true) by (vm_compute; reflexivity).
  assert (H3 : in_range (vz wading) = true) by (vm_compute; reflexivity).
  pose proof (water_damage wading initialState (always 0.5) H1 H2 H3) as H.
  cbv zeta in H. destruct wading_feet as [Hy Hb]. rewrite Hy, Hb in H.
  destruct H as (Ha & _ & _ & _ & _ & H).
  change (PrimFloat.ltb 0 (health initialState) && (14 <=? 15) && (12 <? 14)
          && (14 <=? 12 + 10)) with true in H.
  destruct H as [Hh Hd]. cbv zeta. rewrite Hd, Hh.
  split; [vm_compute; reflexivity|]. split; [vm_compute; reflexivity | exact Ha].
Defined.

(** *** The enemies and the bullets of a frame *)

(** What the entities of a frame leave of a game state. *)
Definition steady (gs gs' : GameState) : Prop :=
  ammo gs' = ammo gs /\ totalAmmo gs' = totalAmmo gs /\ score gs <= score gs' /\
  (List.length (bullets gs') <= List.length (bullets gs))%nat /\
  (List.length (enemies gs') <= List.length (enemies gs))%nat.

Lemma steady_refl (gs : GameState) : steady gs gs.
Proof. unfold steady. repeat split; auto; lia. Qed.

Lemma steady_trans (a b c : GameState) : steady a b -> steady b c -> steady a c.
Proof.
  unfold steady. intros (H1 & H2 & H3 & H4 & H5) (K1 & K2 & K3 & K4 & K5).
  repeat split; try congruence; lia.
Qed.

Lemma update_enemies_steady (camera : Vec3) (now : Z) (gs : GameState) :
  steady gs (update_enemies camera now gs).
Proof.
  unfold update_enemies. generalize (enemies gs) as l. intros l.
  revert gs. induction l as [| e l IH]; intros gs; cbn [fold_left].
  - apply steady_refl.
  - eapply steady_trans; [|apply IH].
    destruct (e_mesh e); [|apply steady_refl].
    pose proof (Client_props.enemy_update_spec delta camera now e gs) as H.
    cbv zeta in H. destruct H as (H1 & H2 & H3 & H4 & H5 & _).
    unfold steady. rewrite H1, H2, H3, H4, H5. repeat split; auto; lia.
Qed.

(** What the bullets of a frame leave of the weapon. *)
Definition same_weapon (ws ws' : WeaponSystem) : Prop :=
  lastShot ws' = lastShot ws /\ isReloading ws' = isReloading ws /\
  currentWeapon ws' = currentWeapon ws.

Lemma update_bullets_steady (enemy_ready : bool) (ws : WeaponSystem) (gs : GameState)
    (r : Rand) :
  steady gs (snd (fst (update_bullets enemy_ready ws gs r))) /\
  same_weapon ws (fst (fst (update_bullets enemy_ready ws gs r))).
Proof.
  unfold update_bullets. generalize (rev (bullets gs)) as l. intros l.
  revert ws gs r. induction l as [| b l IH]; intros ws gs r; cbn [fold_left].
  - cbn [fst snd]. split; [apply steady_refl | unfold same_weapon; auto].
  - pose proof (Client_props.bullet_update_spec enemy_ready delta b ws gs r) as H.
    destruct (bullet_update enemy_ready delta b ws gs r) as [[[[ret b'] ws'] gs'] r'].
    destruct H as (_ & _ & _ & W1 & W2 & W3 & _ & G1 & G2 & G3 & G4 & G5 & _).
    destruct (IH ws' gs' r') as [I1 I2]. split.
    + eapply steady_trans; [|exact I1]. unfold steady.
      repeat split; auto. destruct G3 as [-> | ->]; lia.
    + destruct I2 as (J1 & J2 & J3). unfold same_weapon.
      repeat split; congruence.
Qed.

Section Frames.
Variables Math_sin Math_cos : float -> float.

Lemma spawnEnemy_spec (camera : Vec3) (n : nat) (gs : GameState) (r : Rand) :
  let gs' := fst (spawnEnemy Math_sin Math_cos camera n gs r) in
  ammo gs' = ammo gs /\ totalAmmo gs' = totalAmmo gs /\ score gs' = score gs /\
  bullets gs' = bullets gs /\
  List.length (enemies gs') = S (List.length (enemies gs)).
Proof.
  unfold spawnEnemy, Math_random.
  cbn [fst set_enemies ammo totalAmmo score bullets enemies].
  rewrite length_app. cbn [List.length].
  repeat split; auto. lia.
Qed.

Lemma animate_entities_spec (enemy_ready : bool) (camera : Vec3) (now : Z) (s : Frame) :
  let s' := animate_entities Math_sin Math_cos enemy_ready camera now s in
  ammo (f_gs s') = ammo (f_gs s) /\ totalAmmo (f_gs s') = totalAmmo (f_gs s) /\
  score (f_gs s) <= score (f_gs s') /\
  (List.length (bullets (f_gs s')) <= List.length (bullets (f_gs s)))%nat /\
  same_weapon (f_ws s) (f_ws s') /\
  (Z.of_nat (List.length (enemies (f_gs s))) <= 15 ->
   Z.of_nat (List.length (enemies (f_gs s'))) <= 15).
Proof.
  intros s'.
  pose proof (update_enemies_steady camera now (f_gs s)) as E.
  pose proof (update_bullets_steady enemy_ready (f_ws s)
                (update_enemies camera now (f_gs s)) (f_rand s)) as [B W].
  assert (Hs' : s' = animate_entities Math_sin Math_cos enemy_ready camera now s)
    by reflexivity.
  clearbody s'. unfold animate_entities in Hs'. revert Hs' B W.
  destruct (update_bullets enemy_ready (f_ws s) (update_enemies camera now (f_gs s))
              (f_rand s)) as [[ws2 gs2] r2].
  cbn [fst snd]. intros Hs' B W.
  pose proof (steady_trans _ _ _ E B) as (S1 & S2 & S3 & S4 & S5).
  destruct (Math_random r2) as [v r3].
  destruct (PrimFloat.ltb v 0.002 && (Z.of_nat (List.length (enemies gs2)) <? 15)) eqn:C.
  - apply andb_true_iff in C. destruct C as [_ C]. apply Z.ltb_lt in C.
    pose proof (spawnEnemy_spec camera (f_made s) gs2 r3) as Sp. cbv zeta in Sp.
    destruct (spawnEnemy Math_sin Math_cos camera (f_made s) gs2 r3) as [gs3 r4].
    cbn [fst] in Sp. destruct Sp as (P1 & P2 & P3 & P4 & P5).
    subst s'. cbn [f_gs f_ws]. rewrite P1, P2, P3, P4, P5.
    destruct W as (W1 & W2 & W3). unfold same_weapon.
    repeat split; auto; lia.
  - subst s'. cbn [f_gs f_ws].
    destruct W as (W1 & W2 & W3). unfold same_weapon.
    repeat split; auto; lia.
Qed.

(** Through the frames of [animate] there are never more than 15 enemies,
    if there were not at the start: one is added only while there are less.
    The updates of the enemies and the bullets and the spawning never change
    the ammunition, never lower the score, add no bullet and leave the time
    of the last shot and the reloading flag alone. *)
Theorem frames_keep_enemy_cap (enemy_ready : bool) (inputs : list (Vec3 * Z))
    (s : Frame) :
  Z.of_nat (List.length (enemies (f_gs s))) <= 15 ->
  let s' := frames Math_sin Math_cos enemy_ready inputs s in
  Z.of_nat (List.length (enemies (f_gs s'))) <= 15 /\
  ammo (f_gs s') = ammo (f_gs s) /\ totalAmmo (f_gs s') = totalAmmo (f_gs s) /\
  score (f_gs s) <= score (f_gs s') /\
  (List.length (bullets (f_gs s')) <= List.length (bullets (f_gs s)))%nat /\
  lastShot (f_ws s') = lastShot (f_ws s) /\
  isReloading (f_ws s') = isReloading (f_ws s).
Proof.
  cbv zeta. unfold frames. revert s.
  induction inputs as [| [camera now] inputs IH]; intros s Hs; cbn [fold_left].
  - repeat split; auto; lia.
  - pose proof (animate_entities_spec enemy_ready camera now s) as H.
    cbv zeta in H. destruct H as (H1 & H2 & H3 & H4 & (W1 & W2 & _) & H5).
    destruct (IH _ (H5 Hs)) as (I1 & I2 & I3 & I4 & I5 & I6 & I7).
    repeat split; try congruence; lia.
Qed.

End Frames.

Lemma frames_keep_enemy_cap_witness :
  let s := mkFrame (init newWeaponSystem) initialState (always 0.001) 0 in
  let s' := frames (fun x => x) (fun x => x) true
              [(mkVec 0 30 0, 1000); (mkVec 1 30 0, 1016)] s in
  Z.of_nat (List.length (enemies (f_gs s'))) <= 15 /\
  ammo (f_gs s') = ammo (f_gs s) /\ totalAmmo (f_gs s') = totalAmmo (f_gs s) /\
  score (f_gs s) <= score (f_gs s') /\
  (List.length (bullets (f_gs s')) <= List.length (bullets (f_gs s)))%nat /\
  lastShot (f_ws s') = lastShot (f_ws s) /\
  isReloading (f_ws s') = isReloading (f_ws s).
Proof.
  apply (frames_keep_enemy_cap (fun x => x) (fun x => x) true
           [(mkVec 0 30 0, 1000); (mkVec 1 30 0, 1016)]
           (mkFrame (init newWeaponSystem) initialState (always 0.001) 0)).
  vm_compute. discriminate.
Defined.

End Main_props.
